(** * The 3D-LUT tile pattern tool: tile addressing, geometry detection,
      pixel filtering and LUT sampling

    A shallow embedding of the pattern/LUT tool of the repository
    (computeDims, v, tileIndexToRGB, tileCoords, detectGeometry,
    compilePixelFilter, generateStep1Pattern, applyStep2Filter,
    sampleTileColor, generateCubeLut, clampByte) and the properties its
    specification states about them.

    Numbers.  The source computes on JavaScript numbers.  Quantities that
    are integers in the source (sizes, indices, coordinates, bytes) are
    values of [Z]; quotients and averages are exact rationals of [Q];
    values a user script may leave behind are [jsnum]s, which add NaN and
    the two infinities.  Every integer the tool handles is far below
    2^53, where the double arithmetic of the source is exact on integers,
    and the few fractional values either are dyadic (region / 8) or are
    only compared after a floor or a rounding whose argument stays away
    from the breakpoints, so the exact model and the source agree. *)

From Stdlib Require Import ZArith QArith Qround Lia Bool String Ascii.
From stdpp Require Import base list.

Local Open Scope Z_scope.

(** ** JavaScript arithmetic used by the tool *)

Module JS.

(** [a % b]: the remainder takes the sign of the dividend. *)
Definition rem (a b : Z) : Z := Z.rem a b.

(** [Math.floor(a / b)] on integers, [b <> 0]. *)
Definition floorDiv (a b : Z) : Z := a / b.

(** [a / b] on integers where the quotient is used as an integer: the
    source only does so behind [a % b === 0] (or tests it with
    [Number.isInteger]). *)
Definition exactDiv (a b : Z) : Z := Z.quot a b.

(** [Number.isInteger(a / b)] for integers [a], [b] with [b <> 0]. *)
Definition isIntegerDiv (a b : Z) : bool := rem a b =? 0.

(** [Math.round(x)]: the nearest integer, ties towards +infinity. *)
Definition round (x : Q) : Z := Qfloor (x + (1 # 2)).

(** [Math.floor(x)]. *)
Definition floor (x : Q) : Z := Qfloor x.

(** A number a script can leave in a variable. *)
Inductive jsnum : Type :=
| Num (q : Q)
| NaN
| PosInfinity
| NegInfinity.

Definition ofZ (z : Z) : jsnum := Num (inject_Z z).

(** [Number.isFinite]. *)
Definition isFinite (n : jsnum) : bool :=
  match n with Num _ => true | _ => false end.

End JS.

(** ** Tile geometry *)

Inductive Layout : Type := tall | wide.

Definition Layout_eqb (a b : Layout) : bool :=
  match a, b with
  | tall, tall | wide, wide => true
  | _, _ => false
  end.

Record Dims : Type := mkDims {
  tilesW : Z;
  tilesH : Z;
  width : Z;
  height : Z
}.

Definition computeDims (N M : Z) (layout : Layout) : Dims :=
  let tilesW := if Layout_eqb layout wide then N * N else N in
  let tilesH := if Layout_eqb layout wide then N else N * N in
  let width := tilesW * M in
  let height := tilesH * M in
  mkDims tilesW tilesH width height.

(** map index 0..N-1 to 0..255 inclusive *)
Definition v (i N : Z) : Z :=
  if N <=? 1 then 0
  else JS.round (inject_Z (i * 255) / inject_Z (N - 1)).

Record RGB : Type := mkRGB { r : Z; g : Z; b : Z }.

Definition tileIndexToRGB (t N : Z) : RGB :=
  let r := JS.rem t N in
  let g := JS.rem (JS.floorDiv t N) N in
  let b := JS.floorDiv t (N * N) in
  mkRGB r g b.

Record TilePos : Type := mkTilePos { xTile : Z; yTile : Z }.

Definition tileCoords (t N : Z) (layout : Layout) : TilePos :=
  let '(mkRGB r g b) := tileIndexToRGB t N in
  if Layout_eqb layout wide then mkTilePos (r + g * N) b
  else (* tall *) mkTilePos r (g + b * N).

(** ** Geometry detection *)

Record Geometry : Type := mkGeometry {
  geomN : Z;
  geomM : Z;
  geomLayout : Layout
}.

Inductive Detection : Type :=
| Detected (geom : Geometry)
| DetectError (error : string).

Definition undetectableMessage : string :=
  "Could not infer N/M/layout from dimensions. The image may have been resized, cropped, padded, or otherwise changed.".

(** Try wide: W = N^2 * M, H = N * M => W/H = N *)
Definition tryWide (width height : Z) : option Geometry :=
  if (0 <? height) && (JS.rem width height =? 0) then
    let N := JS.exactDiv width height in
    if JS.isIntegerDiv width height && (2 <=? N) && (N <=? 256) then
      if JS.rem height N =? 0 then
        let M := JS.exactDiv height N in
        if (1 <=? M) && JS.isIntegerDiv height N then
          let expectedW := N * N * M in
          let expectedH := N * M in
          if (expectedW =? width) && (expectedH =? height)
          then Some (mkGeometry N M wide)
          else None
        else None
      else None
    else None
  else None.

(** Try tall: H = N^2 * M, W = N * M => H/W = N *)
Definition tryTall (width height : Z) : option Geometry :=
  if (0 <? width) && (JS.rem height width =? 0) then
    let N := JS.exactDiv height width in
    if JS.isIntegerDiv height width && (2 <=? N) && (N <=? 256) then
      if JS.rem width N =? 0 then
        let M := JS.exactDiv width N in
        if (1 <=? M) && JS.isIntegerDiv width N then
          let expectedW := N * M in
          let expectedH := N * N * M in
          if (expectedW =? width) && (expectedH =? height)
          then Some (mkGeometry N M tall)
          else None
        else None
      else None
    else None
  else None.

Definition detectGeometry (width height : Z) : Detection :=
  match tryWide width height with
  | Some geom => Detected geom
  | None =>
    match tryTall width height with
    | Some geom => Detected geom
    | None => DetectError undetectableMessage
    end
  end.

(** ** More JavaScript arithmetic: numbers with NaN, 32-bit operators *)

Module JSNum.
Import JS.

(** [Math.round] on a number. *)
Definition Math_round (n : jsnum) : jsnum :=
  match n with
  | Num q => ofZ (round q)
  | other => other
  end.

(** [Math.min] and [Math.max] of two numbers: NaN is contagious. *)
Definition Math_min (a b : jsnum) : jsnum :=
  match a, b with
  | NaN, _ | _, NaN => NaN
  | NegInfinity, _ | _, NegInfinity => NegInfinity
  | PosInfinity, x | x, PosInfinity => x
  | Num p, Num q => if Qle_bool p q then a else b
  end.

Definition Math_max (a b : jsnum) : jsnum :=
  match a, b with
  | NaN, _ | _, NaN => NaN
  | PosInfinity, _ | _, PosInfinity => PosInfinity
  | NegInfinity, x | x, NegInfinity => x
  | Num p, Num q => if Qle_bool p q then b else a
  end.

(** Two's-complement wrap-around to a signed 32-bit integer. *)
Definition wrap32 (z : Z) : Z := (z + 2 ^ 31) mod 2 ^ 32 - 2 ^ 31.

(** ToInt32: NaN and the infinities become 0, a finite number is
    truncated towards zero and wrapped. *)
Definition toInt32 (n : jsnum) : Z :=
  match n with
  | Num q => wrap32 (Z.quot (Qnum q) (Zpos (Qden q)))
  | _ => 0
  end.

(** [a << k], [a | b], [a >> k], [a & b] on 32-bit integers. *)
Definition shl (a : jsnum) (k : Z) : Z := wrap32 (Z.shiftl (toInt32 a) k).
Definition bor (a b : Z) : Z := Z.lor a b.
Definition sar (a k : Z) : Z := Z.shiftr a k.
Definition band (a b : Z) : Z := Z.land a b.

(** [a + b] and [a / b] on numbers, as far as the tool uses them: the
    operands are finite or NaN. *)
Definition add (a b : jsnum) : jsnum :=
  match a, b with
  | Num p, Num q => Num (p + q)
  | NaN, _ | _, NaN => NaN
  | PosInfinity, NegInfinity | NegInfinity, PosInfinity => NaN
  | PosInfinity, _ | _, PosInfinity => PosInfinity
  | NegInfinity, _ | _, NegInfinity => NegInfinity
  end.

Definition divByCount (a : jsnum) (count : Z) : jsnum :=
  match a with
  | Num p =>
    if count =? 0 then
      (if Qeq_bool p 0 then NaN
       else if Qle_bool 0 p then PosInfinity else NegInfinity)
    else Num (p / inject_Z count)
  | NaN => NaN
  | PosInfinity => if count =? 0 then PosInfinity
                   else if 0 <? count then PosInfinity else NegInfinity
  | NegInfinity => if count =? 0 then NegInfinity
                   else if 0 <? count then NegInfinity else PosInfinity
  end.

End JSNum.

Definition clampByte (n : JS.jsnum) (fallback : Z) : Z :=
  if negb (JS.isFinite n) then fallback
  else
    match n with
    | JS.Num q =>
      let r := JS.round q in
      if r <? 0 then 0
      else if 255 <? r then 255
      else r
    | _ => fallback
    end.

(** ** Results, errors and cooperative scheduling *)

(** Every failure of the tool is a JavaScript [Error] with a message; the
    constructors keep the values the message is built from. *)
Inductive Error : Type :=
| DimensionLimitExceeded (width height maxDim N suggestedM : Z)
| NoContext2D
| Cancelled
| FilterRuntimeError (x y : Z) (msg : string)
| EncodingFailure.

Inductive Result (A : Type) : Type :=
| Ok (a : A)
| Err (e : Error).
Arguments Ok {A} a.
Arguments Err {A} e.

(** The shared cancellation flag.  The operations are single-threaded, so
    the flag can only change while an operation is suspended in
    [await nextFrame()]: [cancelled k] is the value the operation reads
    after its k-th suspension ([cancelled 0]: on entry). *)
Record CancelRef : Type := mkCancelRef { cancelled : nat -> bool }.

(** What an operation has done to its host so far: the number of times it
    was suspended and the progress fractions it reported, latest first. *)
Record Run : Type := mkRun { suspensions : nat; reports : list Q }.

Definition startRun : Run := mkRun 0 [].

Definition onProgress (p : Q) (run : Run) : Run :=
  mkRun (suspensions run) (p :: reports run).

Definition nextFrame (run : Run) : Run :=
  mkRun (S (suspensions run)) (reports run).

(** [for (let i = start; ...; i++)] run [n] times, leaving at the first
    [throw]. *)
Fixpoint forZ {S : Type} (n : nat) (i : Z) (body : Z -> S -> Result S) (s : S)
  : Result S :=
  match n with
  | O => Ok s
  | Datatypes.S n' =>
    match body i s with
    | Ok s' => forZ n' (i + 1) body s'
    | Err e => Err e
    end
  end.

(** [for (let i = 0; i < bound; i++)] *)
Definition forUpTo {S : Type} (bound : Z) (body : Z -> S -> Result S) (s : S)
  : Result S :=
  forZ (Z.to_nat bound) 0 body s.

(** The same loop for a body that cannot throw. *)
Fixpoint iterZ {S : Type} (n : nat) (i : Z) (body : Z -> S -> S) (s : S) : S :=
  match n with
  | O => s
  | Datatypes.S n' => iterZ n' (i + 1) body (body i s)
  end.

Definition iterUpTo {S : Type} (bound : Z) (body : Z -> S -> S) (s : S) : S :=
  iterZ (Z.to_nat bound) 0 body s.

(** ** Pixel buffers *)

(** An [ImageData]: [imgData] is the Uint8ClampedArray of RGBA bytes, row
    by row. *)
Record ImageData : Type := mkImageData {
  imgData : list Z;
  imgWidth : Z;
  imgHeight : Z
}.

(** [data[i]]: a read outside the array yields [undefined], which every
    use in the tool turns into NaN. *)
Definition readByte (data : list Z) (i : Z) : JS.jsnum :=
  if i <? 0 then JS.NaN
  else match data !! Z.to_nat i with
       | Some byte => JS.ofZ byte
       | None => JS.NaN
       end.

(** [data[i] = value]: a write outside the array is ignored, the value is
    clamped to a byte. *)
Definition writeByte (data : list Z) (i : Z) (value : Z) : list Z :=
  if i <? 0 then data
  else <[Z.to_nat i := Z.max 0 (Z.min 255 value)]> data.

Record Pixel : Type := mkPixel { red : Z; green : Z; blue : Z; alpha : Z }.

(** A canvas with its 2D context: a pixel for every coordinate, of which
    those inside [canvasWidth] x [canvasHeight] are visible. *)
Record Canvas : Type := mkCanvas {
  canvasWidth : Z;
  canvasHeight : Z;
  canvasPixel : Z -> Z -> Pixel
}.

(** A fresh canvas is transparent black. *)
Definition createCanvas (width height : Z) : Canvas :=
  mkCanvas width height (fun _ _ => mkPixel 0 0 0 0).

(** A component of [rgb(r,g,b)] is clamped to a byte. *)
Definition cssByte (z : Z) : Z := Z.max 0 (Z.min 255 z).

(** [ctx.fillStyle = rgb(rr,gg,bb); ctx.fillRect(x, y, w, h)] without
    smoothing: the pixels of the rectangle become the opaque colour. *)
Definition fillRect (canvas : Canvas) (rr gg bb : Z) (x y w h : Z) : Canvas :=
  mkCanvas (canvasWidth canvas) (canvasHeight canvas)
    (fun px py =>
       if (x <=? px) && (px <? x + w) && (y <=? py) && (py <? y + h)
       then mkPixel (cssByte rr) (cssByte gg) (cssByte bb) 255
       else canvasPixel canvas px py).

Definition pixelBytes (p : Pixel) : list Z := [red p; green p; blue p; alpha p].

Definition upTo (n : Z) : list Z := map Z.of_nat (seq 0 (Z.to_nat n)).

(** The RGBA bytes of a canvas, row by row. *)
Definition canvasBytes (canvas : Canvas) : list Z :=
  flat_map
    (fun py =>
       flat_map (fun px => pixelBytes (canvasPixel canvas px py))
                (upTo (canvasWidth canvas)))
    (upTo (canvasHeight canvas)).

(** A PNG blob: lossless, so it is the image it encodes. *)
Record Png : Type := mkPng { pngImage : ImageData }.

(** The host: the probed canvas limit, and whether it hands out a 2D
    context and encodes PNGs. *)
Record Host : Type := mkHost {
  CANVAS_MAX_DIM : Z;
  hasContext2D : bool;
  encodesPng : bool
}.

Definition canvasToPngBlob (host : Host) (canvas : Canvas) : Result Png :=
  if encodesPng host
  then Ok (mkPng (mkImageData (canvasBytes canvas)
                              (canvasWidth canvas) (canvasHeight canvas)))
  else Err EncodingFailure.

(** Decoding a PNG gives back its pixels. *)
Definition loadPngToImageData (file : Png) : ImageData := pngImage file.

(** ** The pixel filter engine *)

Inductive Outcome (A : Type) : Type :=
| Returns (a : A)
| Throws (msg : string).
Arguments Returns {A} a.
Arguments Throws {A} msg.

(** The values of R, G and B when the user's code completes. *)
Record ScriptVars : Type := mkScriptVars {
  varR : JS.jsnum;
  varG : JS.jsnum;
  varB : JS.jsnum
}.

(** The user's code by its meaning: started with R, G, B, X, Y, W, H it
    throws, or completes (possibly by an early [return;]) and leaves
    values in R, G, B.  It is taken to keep to this interface: it does not
    reach for the wrapper's own [_R], [_G], [_B] or redefine globals. *)
Definition UserCode : Type :=
  JS.jsnum -> JS.jsnum -> JS.jsnum -> Z -> Z -> Z -> Z -> Outcome ScriptVars.

(** A compiled filter: called with R, G, B, X, Y, W, H it throws, or
    returns the packed colour, a 32-bit integer, on which the [>>] and [&]
    of the caller need no further conversion. *)
Definition PixelFilter : Type :=
  JS.jsnum -> JS.jsnum -> JS.jsnum -> Z -> Z -> Z -> Z -> Outcome Z.

(** Returns packed RGB: (R<<16) | (G<<8) | B *)
Definition compilePixelFilter (userCode : UserCode) : PixelFilter :=
  fun R G B X Y W H =>
    let _R := R in
    let _G := G in
    let _B := B in
    match userCode R G B X Y W H with
    | Throws msg => Throws msg
    | Returns vars =>
      let R := varR vars in
      let G := varG vars in
      let B := varB vars in
      let R := if negb (JS.isFinite R) then _R else R in
      let G := if negb (JS.isFinite G) then _G else G in
      let B := if negb (JS.isFinite B) then _B else B in
      let R := JSNum.Math_max (JS.ofZ 0) (JSNum.Math_min (JS.ofZ 255) (JSNum.Math_round R)) in
      let G := JSNum.Math_max (JS.ofZ 0) (JSNum.Math_min (JS.ofZ 255) (JSNum.Math_round G)) in
      let B := JSNum.Math_max (JS.ofZ 0) (JSNum.Math_min (JS.ofZ 255) (JSNum.Math_round B)) in
      Returns (JSNum.bor (JSNum.bor (JSNum.shl R 16) (JSNum.shl G 8)) (JSNum.toInt32 B))
    end.

Record FilterState : Type := mkFilterState {
  fData : list Z;
  fProcessed : Z;
  fRun : Run
}.

Definition chunkPixels : Z := 150000.

(** The body of the inner loop of [applyStep2Filter]: one pixel. *)
Definition filterPixel (filterFn : PixelFilter) (width height : Z)
    (cancelRef : CancelRef) (y x : Z) (st : FilterState) : Result FilterState :=
  let data := fData st in
  let totalPixels := width * height in
  let rowStart := y * width in
  let p := rowStart + x in
  let i := p * 4 in
  let r := readByte data i in
  let g := readByte data (i + 1) in
  let b := readByte data (i + 2) in
  match filterFn r g b x y width height with
  | Throws msg => Err (FilterRuntimeError x y msg)
  | Returns packed =>
    let data := writeByte data i (JSNum.band (JSNum.sar packed 16) 255) in
    let data := writeByte data (i + 1) (JSNum.band (JSNum.sar packed 8) 255) in
    let data := writeByte data (i + 2) (JSNum.band packed 255) in
    (* alpha unchanged *)
    let processed := fProcessed st + 1 in
    if JS.rem processed chunkPixels =? 0 then
      let run := onProgress (inject_Z processed / inject_Z totalPixels) (fRun st) in
      let run := nextFrame run in
      if cancelled cancelRef (suspensions run) then Err Cancelled
      else Ok (mkFilterState data processed run)
    else Ok (mkFilterState data processed (fRun st))
  end.

(** The body of the outer loop: one row. *)
Definition filterRow (filterFn : PixelFilter) (width height : Z)
    (cancelRef : CancelRef) (y : Z) (st : FilterState) : Result FilterState :=
  if cancelled cancelRef (suspensions (fRun st)) then Err Cancelled
  else forUpTo width (filterPixel filterFn width height cancelRef y) st.

Definition applyStep2Filter (img : ImageData) (width height : Z)
    (filterFn : PixelFilter) (cancelRef : CancelRef) : Result ImageData :=
  let data := imgData img in
  match forUpTo height (filterRow filterFn width height cancelRef)
                (mkFilterState data 0 startRun) with
  | Err e => Err e
  | Ok st =>
    (* onProgress(1); return img; the array was updated in place *)
    Ok (mkImageData (fData st) (imgWidth img) (imgHeight img))
  end.

(** ** The pattern generator *)

Record PatternState : Type := mkPatternState {
  pCanvas : Canvas;
  pRun : Run
}.

Definition yieldEvery : Z := 5000.

(** The body of the loop of [generateStep1Pattern]: one tile. *)
Definition paintTile (N M : Z) (layout : Layout) (cancelRef : CancelRef)
    (totalTiles : Z) (t : Z) (st : PatternState) : Result PatternState :=
  if cancelled cancelRef (suspensions (pRun st)) then Err Cancelled
  else
    let '(mkRGB r g b) := tileIndexToRGB t N in
    let rr := v r N in
    let gg := v g N in
    let bb := v b N in
    let '(mkTilePos xTile yTile) := tileCoords t N layout in
    let canvas := fillRect (pCanvas st) rr gg bb (xTile * M) (yTile * M) M M in
    if JS.rem t yieldEvery =? 0 then
      let run := onProgress (inject_Z t / inject_Z totalTiles) (pRun st) in
      Ok (mkPatternState canvas (nextFrame run))
    else Ok (mkPatternState canvas (pRun st)).

Definition generateStep1Pattern (host : Host) (N M : Z) (layout : Layout)
    (cancelRef : CancelRef) : Result Png :=
  let '(mkDims tilesW tilesH width height) := computeDims N M layout in
  if (CANVAS_MAX_DIM host <? width) || (CANVAS_MAX_DIM host <? height) then
    let mMax := JS.floorDiv (CANVAS_MAX_DIM host) (N * N) in
    Err (DimensionLimitExceeded width height (CANVAS_MAX_DIM host) N (Z.max 1 mMax))
  else
    let canvas := createCanvas width height in
    if negb (hasContext2D host) then Err NoContext2D
    else
      let totalTiles := N * N * N in
      match forUpTo totalTiles (paintTile N M layout cancelRef totalTiles)
                    (mkPatternState canvas startRun) with
      | Err e => Err e
      | Ok st =>
        (* onProgress(1); await nextFrame(); *)
        canvasToPngBlob host (pCanvas st)
      end.

(** ** The LUT sampler *)

Record Sums : Type := mkSums {
  sumR : JS.jsnum;
  sumG : JS.jsnum;
  sumB : JS.jsnum;
  count : Z
}.

Record Color : Type := mkColor {
  colorR : JS.jsnum;
  colorG : JS.jsnum;
  colorB : JS.jsnum
}.

(** Inset sampling to reduce edge bleed. *)
Definition sampleMargin (M : Z) : Z :=
  let margin := Z.max 1 (JS.floor (inject_Z M * (2 # 10))) in
  if M <=? margin * 2 then Z.max 0 (JS.floorDiv M 4) else margin.

(** [Math.min(dim - 1, Math.max(0, Math.floor(origin + (k + 0.5) * step)))] *)
Definition sampleCoord (dim origin k : Z) (step : Q) : Z :=
  Z.min (dim - 1)
        (Z.max 0 (JS.floor (inject_Z origin + (inject_Z k + (1 # 2)) * step))).

(** The two sampling loops of [sampleTileColor]. *)
Definition sampleSums (data : list Z) (imgW imgH tileX tileY M : Z) : Sums :=
  let margin := sampleMargin M in
  let x0 := tileX * M + margin in
  let y0 := tileY * M + margin in
  let region := M - margin * 2 in
  (* sample points per axis *)
  let s := Z.max 1 (Z.min 8 region) in
  let step := (inject_Z region / inject_Z s)%Q in
  iterUpTo s
    (fun yy acc =>
       let py := sampleCoord imgH y0 yy step in
       iterUpTo s
         (fun xx acc =>
            let px := sampleCoord imgW x0 xx step in
            let idx := (py * imgW + px) * 4 in
            mkSums (JSNum.add (sumR acc) (readByte data idx))
                   (JSNum.add (sumG acc) (readByte data (idx + 1)))
                   (JSNum.add (sumB acc) (readByte data (idx + 2)))
                   (count acc + 1))
         acc)
    (mkSums (JS.ofZ 0) (JS.ofZ 0) (JS.ofZ 0) 0).

Definition sampleTileColor (data : list Z) (imgW imgH tileX tileY M : Z) : Color :=
  let sums := sampleSums data imgW imgH tileX tileY M in
  mkColor (JSNum.divByCount (sumR sums) (count sums))
          (JSNum.divByCount (sumG sums) (count sums))
          (JSNum.divByCount (sumB sums) (count sums)).

(** [x.toFixed(6)]: the decimal with six digits nearest to x, ties away
    from zero; the text is that of [micro / 10^6]. *)
Definition toFixed6 (x : Q) : Z :=
  if Qle_bool 0 x then JS.round (x * inject_Z 1000000)
  else - JS.round (- x * inject_Z 1000000).

(** The lines of a .cube file. *)
Inductive CubeLine : Type :=
| GeneratedBy                            (* # Generated by 3D LUT Tile Pattern Tool *)
| Title (N M : Z) (layout : Layout)      (* TITLE "TileLUT_N<N>_M<M>_<layout>" *)
| LutSize (N : Z)                        (* LUT_3D_SIZE <N> *)
| DomainMin                              (* DOMAIN_MIN 0.0 0.0 0.0 *)
| DomainMax                              (* DOMAIN_MAX 1.0 1.0 1.0 *)
| Entry (rr gg bb : Z).                  (* three numbers, six decimals each *)

(** The text blob: its lines, each ended by a newline. *)
Record CubeBlob : Type := mkCubeBlob { cubeLines : list CubeLine }.

Record CubeState : Type := mkCubeState {
  cLines : list CubeLine;
  cDone : Z;
  cRun : Run
}.

(** The body of the innermost loop of [generateCubeLut]: one cell. *)
Definition sampleCell (img : ImageData) (N M : Z) (layout : Layout)
    (cancelRef : CancelRef) (total : Z) (b g r : Z) (st : CubeState)
  : Result CubeState :=
  if cancelled cancelRef (suspensions (cRun st)) then Err Cancelled
  else
    (* Convert (r,g,b) -> tile coords, consistent with Step 1. *)
    let xTile := if Layout_eqb layout wide then r + g * N else r in
    let yTile := if Layout_eqb layout wide then b else g + b * N in
    let c := sampleTileColor (imgData img) (imgWidth img) (imgHeight img)
                             xTile yTile M in
    let rr := (inject_Z (clampByte (colorR c) 0) / inject_Z 255)%Q in
    let gg := (inject_Z (clampByte (colorG c) 0) / inject_Z 255)%Q in
    let bb := (inject_Z (clampByte (colorB c) 0) / inject_Z 255)%Q in
    let lines := cLines st ++ [Entry (toFixed6 rr) (toFixed6 gg) (toFixed6 bb)] in
    let done := cDone st + 1 in
    if JS.rem done yieldEvery =? 0 then
      let run := onProgress (inject_Z done / inject_Z total) (cRun st) in
      Ok (mkCubeState lines done (nextFrame run))
    else Ok (mkCubeState lines done (cRun st)).

Definition generateCubeLut (img : ImageData) (geom : Geometry)
    (cancelRef : CancelRef) : Result CubeBlob :=
  let '(mkGeometry N M layout) := geom in
  let lines := [GeneratedBy; Title N M layout; LutSize N; DomainMin; DomainMax] in
  let total := N * N * N in
  (* Standard .cube ordering: R fastest, then G, then B slowest. *)
  match
    forUpTo N
      (fun b => forUpTo N
         (fun g => forUpTo N
            (fun r => sampleCell img N M layout cancelRef total b g r)))
      (mkCubeState lines 0 startRun)
  with
  | Err e => Err e
  | Ok st =>
    (* onProgress(1) *)
    Ok (mkCubeBlob (cLines st))
  end.

(** ** Reading pixel buffers in statements *)

(** The byte at index [i] of a typed array, if there is one. *)
Definition byteAt (data : list Z) (i : Z) : option Z :=
  if i <? 0 then None else data !! Z.to_nat i.

(** The pixel at column [x] of row [y] of an RGBA buffer [width] wide. *)
Definition getPixel (data : list Z) (width x y : Z) : option Pixel :=
  let i := (y * width + x) * 4 in
  match byteAt data i, byteAt data (i + 1), byteAt data (i + 2), byteAt data (i + 3) with
  | Some r, Some g, Some b, Some a => Some (mkPixel r g b a)
  | _, _, _, _ => None
  end.

(** A buffer of [width] x [height] RGBA pixels, every entry a byte. *)
Definition wellFormedData (data : list Z) (width height : Z) : Prop :=
  0 <= width /\ 0 <= height /\
  Z.of_nat (length data) = 4 * width * height /\
  Forall (fun byte => 0 <= byte <= 255) data.

(** Channel finalization in the words of the specification: a non-finite
    script value falls back to the channel's value before the filter, a
    finite one is rounded to the nearest integer and clamped to [0,255]. *)
Definition finalized (scriptValue : JS.jsnum) (before after : Z) : Prop :=
  (JS.isFinite scriptValue = false -> after = before) /\
  (forall q, scriptValue = JS.Num q -> after = Z.max 0 (Z.min 255 (JS.round q))).

(** The channels a packed 24-bit colour is taken apart into. *)
Definition unpackR (packed : Z) : Z := JSNum.band (JSNum.sar packed 16) 255.
Definition unpackG (packed : Z) : Z := JSNum.band (JSNum.sar packed 8) 255.
Definition unpackB (packed : Z) : Z := JSNum.band packed 255.

(** The buffer of a filter pass over [data0] once the first [k] pixels,
    row by row, have been filtered: they hold the unpacked results of the
    filter on their original colours and their original alpha, and the
    rest of the buffer is untouched. *)
Definition filteredUpTo (data0 : list Z) (w h : Z) (filterFn : PixelFilter)
    (k : Z) (st : FilterState) : Prop :=
  length (fData st) = length data0 /\
  (forall j, 4 * k <= j -> byteAt (fData st) j = byteAt data0 j) /\
  (forall x y, 0 <= x < w -> 0 <= y -> y * w + x < k ->
     exists before packed,
       getPixel data0 w x y = Some before /\
       filterFn (JS.ofZ (red before)) (JS.ofZ (green before))
                (JS.ofZ (blue before)) x y w h = Returns packed /\
       getPixel (fData st) w x y
       = Some (mkPixel (unpackR packed) (unpackG packed) (unpackB packed)
                       (alpha before))).

(** The filter returns normally on every pixel that comes before (x, y)
    in row-major order. *)
Definition returnsBefore (data0 : list Z) (w h : Z) (filterFn : PixelFilter)
    (x y : Z) : Prop :=
  forall x' y', 0 <= x' < w -> 0 <= y' -> y' * w + x' < y * w + x ->
    exists before packed,
      getPixel data0 w x' y' = Some before /\
      filterFn (JS.ofZ (red before)) (JS.ofZ (green before))
               (JS.ofZ (blue before)) x' y' w h = Returns packed.

(** The two ways a filter pass fails: the flag was read set, or the
    filter threw [msg] on the original colour of the pixel at (x, y), the
    first pixel in row-major order on which it throws. *)
Definition filterFailure (data0 : list Z) (w h : Z) (filterFn : PixelFilter)
    (cancelRef : CancelRef) (e : Error) : Prop :=
  (e = Cancelled /\ exists n, cancelled cancelRef n = true) \/
  (exists x y before msg,
     0 <= x < w /\ 0 <= y < h /\
     getPixel data0 w x y = Some before /\
     filterFn (JS.ofZ (red before)) (JS.ofZ (green before))
              (JS.ofZ (blue before)) x y w h = Throws msg /\
     returnsBefore data0 w h filterFn x y /\
     e = FilterRuntimeError x y msg).

(** The script [R = value;]. *)
Definition assignR (value : Z) : UserCode :=
  fun R G B _ _ _ _ => Returns (mkScriptVars (JS.ofZ value) G B).

(** The quantities [sampleTileColor] derives from the tile size. *)
Definition sampleRegion (M : Z) : Z := M - sampleMargin M * 2.

Definition samplesPerAxis (M : Z) : Z := Z.max 1 (Z.min 8 (sampleRegion M)).

Definition sampleStep (M : Z) : Q :=
  (inject_Z (sampleRegion M) / inject_Z (samplesPerAxis M))%Q.

(** The column of the [xx]-th and the row of the [yy]-th sample of a tile. *)
Definition sampleX (imgW tileX M xx : Z) : Z :=
  sampleCoord imgW (tileX * M + sampleMargin M) xx (sampleStep M).

Definition sampleY (imgH tileY M yy : Z) : Z :=
  sampleCoord imgH (tileY * M + sampleMargin M) yy (sampleStep M).

(** A running sum of [n] bytes that all lie in [lo, hi]. *)
Definition channelSum (lo hi n : Z) (sum : JS.jsnum) : Prop :=
  exists q z, sum = JS.Num q /\ (q == inject_Z z)%Q /\ lo * n <= z <= hi * n.

(** A channel value between two integers. *)
Definition channelWithin (lo hi : Z) (value : JS.jsnum) : Prop :=
  exists q, value = JS.Num q /\ (inject_Z lo <= q)%Q /\ (q <= inject_Z hi)%Q.

(** ** Lattice cells in statements *)

(** The cells of the N x N x N lattice. *)
Definition inLattice (N : Z) (c : RGB) : Prop :=
  0 <= r c < N /\ 0 <= g c < N /\ 0 <= b c < N.

(** The index a lattice cell is enumerated at. *)
Definition rgbToTileIndex (c : RGB) (N : Z) : Z :=
  r c + g c * N + b c * (N * N).

(** The tile of a lattice cell: the conversion both the generator (through
    [tileCoords]) and the sampler use. *)
Definition cellPos (N : Z) (layout : Layout) (c : RGB) : TilePos :=
  if Layout_eqb layout wide then mkTilePos (r c + g c * N) (b c)
  else mkTilePos (r c) (g c + b c * N).

(** The pixels of the M x M block of a tile. *)
Definition inBlock (pos : TilePos) (M px py : Z) : Prop :=
  xTile pos * M <= px < xTile pos * M + M /\
  yTile pos * M <= py < yTile pos * M + M.

(** The colour the identity pattern gives a lattice cell. *)
Definition tileColor (N : Z) (c : RGB) : Pixel :=
  mkPixel (v (r c) N) (v (g c) N) (v (b c) N) 255.

(** A canvas on which the first [k] tiles of the pattern are painted. *)
Definition painted (N M : Z) (layout : Layout) (W H : Z) (k : Z)
    (st : PatternState) : Prop :=
  canvasWidth (pCanvas st) = W /\ canvasHeight (pCanvas st) = H /\
  forall t, 0 <= t < k ->
    forall px py, inBlock (tileCoords t N layout) M px py ->
      canvasPixel (pCanvas st) px py = tileColor N (tileIndexToRGB t N).

(** The ways pattern generation fails past its precondition. *)
Definition patternFailure (host : Host) (cancelRef : CancelRef) (e : Error) : Prop :=
  (e = NoContext2D /\ hasContext2D host = false) \/
  (e = EncodingFailure /\ encodesPng host = false) \/
  (e = Cancelled /\ exists n, cancelled cancelRef n = true).

(** The line [generateCubeLut] writes for a lattice cell. *)
Definition cellEntry (img : ImageData) (N M : Z) (layout : Layout) (c : RGB)
  : CubeLine :=
  let pos := cellPos N layout c in
  let col := sampleTileColor (imgData img) (imgWidth img) (imgHeight img)
                             (xTile pos) (yTile pos) M in
  Entry (toFixed6 (inject_Z (clampByte (colorR col) 0) / inject_Z 255))
        (toFixed6 (inject_Z (clampByte (colorG col) 0) / inject_Z 255))
        (toFixed6 (inject_Z (clampByte (colorB col) 0) / inject_Z 255)).

Definition cubeHeader (N M : Z) (layout : Layout) : list CubeLine :=
  [GeneratedBy; Title N M layout; LutSize N; DomainMin; DomainMax].

(** The lines of the sampler once the first [k] cells, R fastest, are
    written. *)
Definition written (img : ImageData) (N M : Z) (layout : Layout) (k : Z)
    (st : CubeState) : Prop :=
  cLines st
  = cubeHeader N M layout
    ++ map (fun t => cellEntry img N M layout (tileIndexToRGB t N)) (upTo k).

(** The number a printed entry denotes. *)
Definition entryValue (micro : Z) : Q := (inject_Z micro / inject_Z 1000000)%Q.

(** Within 1/255 of a target. *)
Definition withinTolerance (value target : Q) : Prop :=
  (target - (1 # 255) <= value)%Q /\ (value <= target + (1 # 255))%Q.

(** ** The canvas limit probe *)

Definition CANVAS_DIM_PROBE_MAX : Z := 65536.

(** The [while (lo <= hi)] loop of [maxFor].  [accepts mid] tells whether
    the canvas keeps the dimension [mid] it is given ([setDim(mid)]
    followed by [getDim() === mid]); [fuel] bounds the number of rounds,
    and [None] is a loop that has not finished within it. *)
Fixpoint maxForLoop (fuel : nat) (accepts : Z -> bool) (lo hi best : Z)
  : option Z :=
  if hi <? lo then Some best
  else
    match fuel with
    | O => None
    | Datatypes.S fuel' =>
      let mid := JSNum.sar (lo + hi) 1 in
      if accepts mid then maxForLoop fuel' accepts (mid + 1) hi mid
      else maxForLoop fuel' accepts lo (mid - 1) best
    end.

Definition maxFor (fuel : nat) (accepts : Z -> bool) : option Z :=
  let lo := 1 in
  let hi := CANVAS_DIM_PROBE_MAX in
  let best := 1 in
  maxForLoop fuel accepts lo hi best.

(** What the probe learns of the host: whether a canvas of height 1 keeps
    a width, and whether a canvas of width 1 keeps a height. *)
Record CanvasProbe : Type := mkCanvasProbe {
  keepsWidth : Z -> bool;
  keepsHeight : Z -> bool
}.

Definition detectCanvasMaxDimension (fuel : nat) (c : CanvasProbe) : option Z :=
  match maxFor fuel (keepsWidth c) with
  | None => None
  | Some maxW =>
    match maxFor fuel (keepsHeight c) with
    | None => None
    | Some maxH => Some (Z.min maxW maxH)
    end
  end.

(** ** Hexadecimal bytes *)

(** A digit of [n.toString(16).toUpperCase()]. *)
Definition hexDigitUpper (d : Z) : ascii :=
  if d <? 10 then ascii_of_nat (48 + Z.to_nat d)
  else ascii_of_nat (55 + Z.to_nat d).

Fixpoint hexDigitsUpper (fuel : nat) (n : Z) (acc : string) : string :=
  match fuel with
  | O => acc
  | Datatypes.S fuel' =>
    let acc' := String (hexDigitUpper (n mod 16)) acc in
    if n <? 16 then acc' else hexDigitsUpper fuel' (n / 16) acc'
  end.

(** [n.toString(16).toUpperCase()] for an integer [n]. *)
Definition toStringHexUpper (n : Z) : string :=
  if n <? 0
  then String "-" (hexDigitsUpper (Datatypes.S (Z.to_nat (Z.log2 (- n)))) (- n) "")
  else hexDigitsUpper (Datatypes.S (Z.to_nat (Z.log2 n))) n "".

Definition toHex2 (n : JS.jsnum) : string :=
  let s := toStringHexUpper (clampByte n 0) in
  if (String.length s =? 1)%nat then String "0" s else s.

(** The white space [String.prototype.trim] removes, among the
    characters below 256: tab, line feed, vertical tab, form feed,
    carriage return, space and no-break space. *)
Definition isWhiteSpace (c : ascii) : bool :=
  let n := nat_of_ascii c in
  ((9 <=? n) && (n <=? 13) || (n =? 32) || (n =? 160))%nat.

Fixpoint trimStart (s : string) : string :=
  match s with
  | EmptyString => EmptyString
  | String c rest => if isWhiteSpace c then trimStart rest else s
  end.

Fixpoint trimEnd (s : string) : string :=
  match s with
  | EmptyString => EmptyString
  | String c rest =>
    match trimEnd rest with
    | EmptyString => if isWhiteSpace c then EmptyString else String c EmptyString
    | kept => String c kept
    end
  end.

Definition trim (s : string) : string := trimEnd (trimStart s).

(** The value of a character of [0-9a-fA-F]. *)
Definition hexValue (c : ascii) : option Z :=
  let n := nat_of_ascii c in
  if ((48 <=? n) && (n <=? 57))%nat then Some (Z.of_nat n - 48)
  else if ((97 <=? n) && (n <=? 102))%nat then Some (Z.of_nat n - 87)
  else if ((65 <=? n) && (n <=? 70))%nat then Some (Z.of_nat n - 55)
  else None.

(** [/^[0-9a-fA-F]{2}$/.test(t)] *)
Definition isHex2 (t : string) : bool :=
  match t with
  | String hi (String lo EmptyString) =>
    match hexValue hi, hexValue lo with
    | Some _, Some _ => true
    | _, _ => false
    end
  | _ => false
  end.

(** [parseInt(t, 16)] on a string that starts with a digit: the value of
    its longest prefix of digits ([None]: no digit, the source's NaN). *)
Fixpoint parseIntHexFrom (acc : Z) (t : string) : Z :=
  match t with
  | EmptyString => acc
  | String c rest =>
    match hexValue c with
    | Some d => parseIntHexFrom (16 * acc + d) rest
    | None => acc
    end
  end.

Definition parseIntHex (t : string) : option Z :=
  match t with
  | EmptyString => None
  | String c _ =>
    match hexValue c with
    | Some _ => Some (parseIntHexFrom 0 t)
    | None => None
    end
  end.

Definition parseHex2 (s : string) : option Z :=
  let t := trim s in
  if negb (isHex2 t) then None
  else parseIntHex t.

(** The upper case of a character, for the letters a-z. *)
Definition upperLetter (c : ascii) : ascii :=
  let n := nat_of_ascii c in
  if ((97 <=? n) && (n <=? 122))%nat then ascii_of_nat (n - 32) else c.

Fixpoint upperLetters (s : string) : string :=
  match s with
  | EmptyString => EmptyString
  | String c rest => String (upperLetter c) (upperLetters rest)
  end.

(** ** Validation of the form *)

Module JSTest.
Import JS.

(** [Number.isInteger] *)
Definition isInteger (n : jsnum) : bool :=
  match n with
  | Num q => Qeq_bool (inject_Z (Qfloor q)) q
  | _ => false
  end.

(** [a < b] on numbers: false when either is NaN. *)
Definition lt (a b : jsnum) : bool :=
  match a, b with
  | NaN, _ | _, NaN => false
  | Num p, Num q => negb (Qle_bool q p)
  | NegInfinity, NegInfinity => false
  | NegInfinity, _ => true
  | _, NegInfinity => false
  | PosInfinity, _ => false
  | Num _, PosInfinity => true
  end.

End JSTest.

Definition validateN (N : JS.jsnum) : option string :=
  if negb (JS.isFinite N) || negb (JSTest.isInteger N)
  then Some "N must be an integer."%string
  else if JSTest.lt N (JS.ofZ 2) then Some "N must be at least 2."%string
  else if JSTest.lt (JS.ofZ 65) N
  then Some "N above 65 is uncommon and can create very large images. (This tool caps UI N to 65.)"%string
  else None.

Definition validateM (M : JS.jsnum) : option string :=
  if negb (JS.isFinite M) || negb (JSTest.isInteger M)
  then Some "M must be an integer."%string
  else if JSTest.lt M (JS.ofZ 1) then Some "M must be at least 1."%string
  else if JSTest.lt (JS.ofZ 512) M
  then Some "M is very large and may exceed canvas limits."%string
  else None.

Definition computeTileCount (N : Z) : Z := N * N * N.

(** ** Scripts, the single-pixel test and the preview *)

(** A script that assigns nothing, the empty script for instance. *)
Definition passThrough : UserCode :=
  fun R G B _ _ _ _ => Returns (mkScriptVars R G B).




(** [Math.max(1, Math.min(6, Math.floor(500 / maxDimTiles) || 1))]: the
    quotient by 0 is Infinity, a floor of 0 is replaced by 1. *)
Definition previewScale (maxDimTiles : Z) : Z :=
  if maxDimTiles =? 0 then 6
  else
    let f := JS.floorDiv 500 maxDimTiles in
    Z.max 1 (Z.min 6 (if f =? 0 then 1 else f)).

(** The preview: the canvas is resized, and painted tile by tile when the
    host gives a 2D context ([None]: nothing is drawn). *)
Definition renderStep1Preview (host : Host) (N : Z) (layout : Layout)
  : option Canvas :=
  let tilesW := if Layout_eqb layout wide then N * N else N in
  let tilesH := if Layout_eqb layout wide then N else N * N in
  let maxDimTiles := Z.max tilesW tilesH in
  let scale := previewScale maxDimTiles in
  let w := tilesW * scale in
  let h := tilesH * scale in
  let canvas := createCanvas (Z.max 1 w) (Z.max 1 h) in
  if negb (hasContext2D host) then None
  else
    let totalTiles := N * N * N in
    Some
      (iterUpTo totalTiles
         (fun t canvas =>
            let '(mkRGB r g b) := tileIndexToRGB t N in
            let rr := v r N in
            let gg := v g N in
            let bb := v b N in
            let '(mkTilePos xTile yTile) := tileCoords t N layout in
            fillRect canvas rr gg bb (xTile * scale) (yTile * scale) scale scale)
         canvas).

(** ** When the flag is read *)

(** The number of suspensions behind the generator when it reads the flag
    at the start of tile [t]: it has yielded after the tiles 0, 5000,
    10000, ... before [t]. *)
Definition tilePoll (t : Z) : nat := Z.to_nat ((t + 4999) / 5000).

(** The number of suspensions behind the sampler when it reads the flag
    at the start of its [k]-th cell: it has yielded after every 5000th
    cell. *)
Definition cellPoll (k : Z) : nat := Z.to_nat (k / 5000).

(** The number of suspensions behind the filter pass once [p] pixels are
    processed: it yields after every 150000th pixel. *)
Definition pixelPoll (p : Z) : nat := Z.to_nat (p / 150000).

(** * Properties *)

(** ** The model on concrete inputs *)

Example computeDims_4_2_wide : computeDims 4 2 wide = mkDims 16 4 32 8.
Proof. reflexivity. Qed.

Example tile_0_of_4 : tileIndexToRGB 0 4 = mkRGB 0 0 0 /\ v 0 4 = 0.
Proof. split; reflexivity. Qed.

Example tile_63_of_4 : tileIndexToRGB 63 4 = mkRGB 3 3 3 /\ v 3 4 = 255.
Proof. split; reflexivity. Qed.

Example v_1_of_3 : v 1 3 = 128.
Proof. reflexivity. Qed.

Example tileCoords_27_of_4 :
  tileCoords 27 4 wide = mkTilePos 11 1 /\ tileCoords 27 4 tall = mkTilePos 3 6.
Proof. split; reflexivity. Qed.

Example detectGeometry_32_8 : detectGeometry 32 8 = Detected (mkGeometry 4 2 wide).
Proof. reflexivity. Qed.

Example detectGeometry_30_8 : detectGeometry 30 8 = DetectError undetectableMessage.
Proof. reflexivity. Qed.

Example sampleMargin_values :
  map sampleMargin [1; 2; 3; 4; 5; 10; 20; 40] = [0; 0; 1; 1; 1; 2; 4; 8].
Proof. reflexivity. Qed.

Example passThrough_pixel :
  applyStep2Filter (mkImageData [10; 20; 30; 255] 1 1) 1 1
    (compilePixelFilter (fun R G B _ _ _ _ => Returns (mkScriptVars R G B)))
    (mkCancelRef (fun _ => false))
  = Ok (mkImageData [10; 20; 30; 255] 1 1).
Proof. reflexivity. Qed.

Example identity_cube_2 :
  match generateStep1Pattern (mkHost 16384 true true) 2 3 tall
          (mkCancelRef (fun _ => false)) with
  | Ok png =>
    generateCubeLut (loadPngToImageData png) (mkGeometry 2 3 tall)
      (mkCancelRef (fun _ => false))
  | Err e => Err e
  end
  = Ok (mkCubeBlob
          [GeneratedBy; Title 2 3 tall; LutSize 2; DomainMin; DomainMax;
           Entry 0 0 0; Entry 1000000 0 0; Entry 0 1000000 0;
           Entry 1000000 1000000 0; Entry 0 0 1000000;
           Entry 1000000 0 1000000; Entry 0 1000000 1000000;
           Entry 1000000 1000000 1000000]).
Proof. vm_compute. reflexivity. Qed.

(** ** Arithmetic of the JavaScript primitives *)

Section JsArith.

Lemma inject_Z_pos_neq0 (d : Z) : 0 < d -> ~ (inject_Z d == 0)%Q.
Proof.
  intros Hd Heq. unfold Qeq in Heq. simpl in Heq. lia.
Qed.

(** Rounding a quotient of integers is a floor division on integers. *)
Lemma round_div (n d : Z) :
  0 < d -> JS.round (inject_Z n / inject_Z d) = (2 * n + d) / (2 * d).
Proof.
  intros Hd. unfold JS.round.
  rewrite Zdiv_Qdiv. apply Qfloor_comp.
  rewrite !inject_Z_plus, !inject_Z_mult.
  field. apply inject_Z_pos_neq0; assumption.
Qed.

Lemma round_nearest (x : Q) :
  (x - (1 # 2) < inject_Z (JS.round x) /\ inject_Z (JS.round x) <= x + (1 # 2))%Q.
Proof.
  unfold JS.round. split.
  - pose proof (Qlt_floor (x + (1 # 2))) as H.
    rewrite inject_Z_plus in H.
    apply Qplus_lt_l with (z := 1%Q).
    eapply Qle_lt_trans; [| exact H].
    ring_simplify. apply Qle_refl.
  - apply Qfloor_le.
Qed.

Lemma rem_nonneg (a b : Z) : 0 <= a -> 0 < b -> JS.rem a b = a mod b.
Proof. intros Ha Hb. unfold JS.rem. apply Z.rem_mod_nonneg; lia. Qed.

End JsArith.

(** ** Quantization *)

Lemma v_as_div (i N : Z) :
  2 <= N -> v i N = (2 * (i * 255) + (N - 1)) / (2 * (N - 1)).
Proof.
  intros HN. unfold v.
  destruct (Z.leb_spec N 1); [lia |].
  apply round_div. lia.
Qed.

Lemma v_zero (N : Z) : 2 <= N -> v 0 N = 0.
Proof.
  intros HN. rewrite v_as_div by assumption.
  apply Z.div_small. lia.
Qed.

Lemma v_last (N : Z) : 2 <= N -> v (N - 1) N = 255.
Proof.
  intros HN. rewrite v_as_div by assumption.
  replace (2 * ((N - 1) * 255) + (N - 1))
    with (255 * (2 * (N - 1)) + (N - 1)) by ring.
  rewrite Z.div_add_l by lia.
  rewrite Z.div_small by lia. lia.
Qed.

Lemma v_mono (N i j : Z) : i <= j -> v i N <= v j N.
Proof.
  intros Hij.
  destruct (Z.le_gt_cases N 1) as [H1 | H1].
  - unfold v. destruct (Z.leb_spec N 1); lia.
  - rewrite !v_as_div by lia.
    apply Z.div_le_mono; lia.
Qed.

Lemma v_range (i N : Z) : 0 <= i < N -> 0 <= v i N <= 255.
Proof.
  intros Hi.
  destruct (Z.le_gt_cases N 1) as [H1 | H1].
  - unfold v. destruct (Z.leb_spec N 1); lia.
  - split.
    + rewrite <- (v_zero N) by lia. apply v_mono; lia.
    + rewrite <- (v_last N) by lia. apply v_mono; lia.
Qed.

(** C8. For every N >= 2 the quantization sends index 0 to 0 and index
    N-1 to 255, and for every N it is monotonically non-decreasing in the
    index on [0, N). *)
Theorem v_endpoints_monotone :
  (forall N, 2 <= N -> v 0 N = 0 /\ v (N - 1) N = 255) /\
  (forall N i j, 0 <= i -> i <= j -> j < N -> v i N <= v j N).
Proof.
  split.
  - intros N HN. split; [apply v_zero | apply v_last]; assumption.
  - intros N i j _ Hij _. apply v_mono; assumption.
Qed.

Lemma v_endpoints_monotone_witness :
  (v 0 4 = 0 /\ v (4 - 1) 4 = 255) /\ v 1 4 <= v 2 4.
Proof.
  split.
  - apply (proj1 v_endpoints_monotone 4). lia.
  - apply (proj2 v_endpoints_monotone 4 1 2); lia.
Defined.

(** ** Tile addressing *)

Lemma tileIndexToRGB_decompose (t N : Z) :
  1 <= N -> 0 <= t < N * N * N ->
  inLattice N (tileIndexToRGB t N) /\
  rgbToTileIndex (tileIndexToRGB t N) N = t.
Proof.
  intros HN Ht.
  unfold inLattice, rgbToTileIndex, tileIndexToRGB, JS.floorDiv. simpl.
  assert (Hq : 0 <= t / N) by (apply Z.div_pos; lia).
  rewrite !rem_nonneg by lia.
  rewrite <- Z.div_div by lia.
  pose proof (Z.mod_pos_bound t N ltac:(lia)) as Hr.
  pose proof (Z.mod_pos_bound (t / N) N ltac:(lia)) as Hg.
  pose proof (Z.div_mod t N ltac:(lia)) as E1.
  pose proof (Z.div_mod (t / N) N ltac:(lia)) as E2.
  assert (Hb : 0 <= t / N / N) by (apply Z.div_pos; lia).
  assert (Hb' : t / N / N < N).
  { apply Z.div_lt_upper_bound; [lia |].
    apply Z.div_lt_upper_bound; [lia |]. lia. }
  repeat split; try lia.
Qed.

Lemma tileIndexToRGB_recompose (c : RGB) (N : Z) :
  1 <= N -> inLattice N c ->
  0 <= rgbToTileIndex c N < N * N * N /\
  tileIndexToRGB (rgbToTileIndex c N) N = c.
Proof.
  intros HN (Hr & Hg & Hb). destruct c as [cr cg cb]. simpl in *.
  unfold rgbToTileIndex. simpl.
  assert (Ht : 0 <= cr + cg * N + cb * (N * N) < N * N * N) by nia.
  split; [exact Ht |].
  unfold tileIndexToRGB, JS.floorDiv.
  assert (Hdiv : (cr + cg * N + cb * (N * N)) / N = cg + cb * N).
  { replace (cr + cg * N + cb * (N * N)) with (cr + (cg + cb * N) * N) by ring.
    rewrite Z.div_add by lia. rewrite Z.div_small by lia. lia. }
  rewrite <- Z.div_div by lia.
  rewrite Hdiv.
  rewrite !rem_nonneg by nia.
  f_equal.
  - replace (cr + cg * N + cb * (N * N)) with (cr + (cg + cb * N) * N) by ring.
    rewrite Z.mod_add by lia. apply Z.mod_small; lia.
  - rewrite Z.mod_add by lia. apply Z.mod_small; lia.
  - rewrite Z.div_add by lia. rewrite Z.div_small by lia. lia.
Qed.

Lemma tileIndexToRGB_inj (N t1 t2 : Z) :
  1 <= N -> 0 <= t1 < N * N * N -> 0 <= t2 < N * N * N ->
  tileIndexToRGB t1 N = tileIndexToRGB t2 N -> t1 = t2.
Proof.
  intros HN H1 H2 Heq.
  destruct (tileIndexToRGB_decompose t1 N HN H1) as [_ E1].
  destruct (tileIndexToRGB_decompose t2 N HN H2) as [_ E2].
  rewrite <- E1, <- E2, Heq. reflexivity.
Qed.

(** C3. For every N >= 2, [tileIndexToRGB] restricted to [0, N^3) has no
    duplicates and covers [0,N)^3: it is a bijection onto the lattice
    whose inverse is t = r + g*N + b*N^2. *)
Theorem tileIndexToRGB_bijection (N : Z) :
  2 <= N ->
  (forall t, 0 <= t < N * N * N ->
     inLattice N (tileIndexToRGB t N) /\
     r (tileIndexToRGB t N) + g (tileIndexToRGB t N) * N
       + b (tileIndexToRGB t N) * (N * N) = t) /\
  (forall t1 t2, 0 <= t1 < N * N * N -> 0 <= t2 < N * N * N ->
     tileIndexToRGB t1 N = tileIndexToRGB t2 N -> t1 = t2) /\
  (forall cr cg cb, 0 <= cr < N -> 0 <= cg < N -> 0 <= cb < N ->
     0 <= cr + cg * N + cb * (N * N) < N * N * N /\
     tileIndexToRGB (cr + cg * N + cb * (N * N)) N = mkRGB cr cg cb).
Proof.
  intros HN. split; [| split].
  - intros t Ht. apply (tileIndexToRGB_decompose t N); lia.
  - intros t1 t2 H1 H2. apply tileIndexToRGB_inj; lia.
  - intros cr cg cb Hr Hg Hb.
    apply (tileIndexToRGB_recompose (mkRGB cr cg cb) N); [lia |].
    repeat split; simpl; lia.
Qed.

Lemma tileIndexToRGB_bijection_witness :
  tileIndexToRGB 63 4 = mkRGB 3 3 3 /\
  tileIndexToRGB (1 + 2 * 4 + 3 * (4 * 4)) 4 = mkRGB 1 2 3.
Proof.
  pose proof (tileIndexToRGB_bijection 4 ltac:(lia)) as (_ & _ & H).
  split.
  - apply (H 3 3 3); lia.
  - apply (H 1 2 3); lia.
Defined.

(** ** Geometry detection *)

Ltac bool_to_prop :=
  repeat match goal with
  | E : (_ && _)%bool = true |- _ => apply andb_prop in E; destruct E
  | E : (_ <? _) = true |- _ => apply Z.ltb_lt in E
  | E : (_ <=? _) = true |- _ => apply Z.leb_le in E
  | E : (_ =? _) = true |- _ => apply Z.eqb_eq in E
  | E : (_ <? _) = false |- _ => apply Z.ltb_ge in E
  | E : (_ <=? _) = false |- _ => apply Z.leb_gt in E
  | E : (_ =? _) = false |- _ => apply Z.eqb_neq in E
  end.

Lemma tryWide_sound (w h : Z) (geom : Geometry) :
  tryWide w h = Some geom ->
  2 <= geomN geom <= 256 /\ 1 <= geomM geom /\ geomLayout geom = wide /\
  w = geomN geom * geomN geom * geomM geom /\ h = geomN geom * geomM geom.
Proof.
  unfold tryWide. intros H.
  repeat match type of H with
  | (if ?c then _ else _) = _ => destruct c eqn:?; [| discriminate]
  end.
  injection H as <-. simpl.
  bool_to_prop. simpl. repeat split; first [reflexivity | lia].
Qed.

Lemma tryTall_sound (w h : Z) (geom : Geometry) :
  tryTall w h = Some geom ->
  2 <= geomN geom <= 256 /\ 1 <= geomM geom /\ geomLayout geom = tall /\
  w = geomN geom * geomM geom /\ h = geomN geom * geomN geom * geomM geom.
Proof.
  unfold tryTall. intros H.
  repeat match type of H with
  | (if ?c then _ else _) = _ => destruct c eqn:?; [| discriminate]
  end.
  injection H as <-. simpl.
  bool_to_prop. simpl. repeat split; first [reflexivity | lia].
Qed.

Lemma exactDiv_mul (a d : Z) : d <> 0 -> JS.exactDiv (a * d) d = a.
Proof. intros Hd. unfold JS.exactDiv. apply Z.quot_mul; assumption. Qed.

Lemma rem_mul (a d : Z) : d <> 0 -> JS.rem (a * d) d = 0.
Proof. intros Hd. unfold JS.rem. apply Z.rem_mul; assumption. Qed.

Lemma tryWide_complete (N M : Z) :
  2 <= N <= 256 -> 1 <= M ->
  tryWide (N * N * M) (N * M) = Some (mkGeometry N M wide).
Proof.
  intros HN HM.
  assert (E1 : JS.rem (N * N * M) (N * M) = 0).
  { replace (N * N * M) with (N * (N * M)) by ring. apply rem_mul. nia. }
  assert (E2 : JS.exactDiv (N * N * M) (N * M) = N).
  { replace (N * N * M) with (N * (N * M)) by ring. apply exactDiv_mul. nia. }
  assert (E3 : JS.rem (N * M) N = 0).
  { replace (N * M) with (M * N) by ring. apply rem_mul. lia. }
  assert (E4 : JS.exactDiv (N * M) N = M).
  { replace (N * M) with (M * N) by ring. apply exactDiv_mul. lia. }
  unfold tryWide, JS.isIntegerDiv.
  rewrite E1, E2, E3, E4, !Z.eqb_refl.
  rewrite (proj2 (Z.ltb_lt 0 (N * M))) by nia.
  rewrite (proj2 (Z.leb_le 2 N)), (proj2 (Z.leb_le N 256)),
    (proj2 (Z.leb_le 1 M)) by lia.
  reflexivity.
Qed.

Lemma tryTall_complete (N M : Z) :
  2 <= N <= 256 -> 1 <= M ->
  tryTall (N * M) (N * N * M) = Some (mkGeometry N M tall).
Proof.
  intros HN HM.
  assert (E1 : JS.rem (N * N * M) (N * M) = 0).
  { replace (N * N * M) with (N * (N * M)) by ring. apply rem_mul. nia. }
  assert (E2 : JS.exactDiv (N * N * M) (N * M) = N).
  { replace (N * N * M) with (N * (N * M)) by ring. apply exactDiv_mul. nia. }
  assert (E3 : JS.rem (N * M) N = 0).
  { replace (N * M) with (M * N) by ring. apply rem_mul. lia. }
  assert (E4 : JS.exactDiv (N * M) N = M).
  { replace (N * M) with (M * N) by ring. apply exactDiv_mul. lia. }
  unfold tryTall, JS.isIntegerDiv.
  rewrite E1, E2, E3, E4, !Z.eqb_refl.
  rewrite (proj2 (Z.ltb_lt 0 (N * M))) by nia.
  rewrite (proj2 (Z.leb_le 2 N)), (proj2 (Z.leb_le N 256)),
    (proj2 (Z.leb_le 1 M)) by lia.
  reflexivity.
Qed.

(** A tall image is never read as a wide one: its height exceeds its
    width, so the first test of the wide hypothesis already fails. *)
Lemma tryWide_rejects_tall (N M : Z) :
  2 <= N -> 1 <= M -> tryWide (N * M) (N * N * M) = None.
Proof.
  intros HN HM.
  destruct (tryWide (N * M) (N * N * M)) as [geom |] eqn:E; [| reflexivity].
  apply tryWide_sound in E. nia.
Qed.

Lemma tryWide_tryTall_exclusive (w h : Z) (gw gt : Geometry) :
  tryWide w h = Some gw -> tryTall w h = Some gt -> False.
Proof.
  intros Hw Ht.
  apply tryWide_sound in Hw. apply tryTall_sound in Ht. nia.
Qed.

Lemma detectGeometry_computeDims (N M : Z) (layout : Layout) :
  2 <= N <= 256 -> 1 <= M ->
  detectGeometry (width (computeDims N M layout))
                 (height (computeDims N M layout))
  = Detected (mkGeometry N M layout).
Proof.
  intros HN HM. unfold detectGeometry, computeDims.
  destruct layout; simpl.
  - rewrite tryWide_rejects_tall by lia.
    rewrite tryTall_complete by lia. reflexivity.
  - rewrite tryWide_complete by lia. reflexivity.
Qed.

(** C1 (as stated, refuted).  The round trip fails from N = 257 on: the
    detector only accepts lattice sizes up to 256. *)
Lemma detectGeometry_roundtrip_counterexample :
  2 <= 257 /\ 1 <= 1 /\
  detectGeometry (width (computeDims 257 1 wide))
                 (height (computeDims 257 1 wide))
  = DetectError undetectableMessage.
Proof. repeat split; try lia. Qed.

(** C1 (amended).  For every 2 <= N <= 256, M >= 1 and layout,
    [detectGeometry] applied to the width and height of
    [computeDims N M layout] returns exactly N, M and layout; in particular
    16 x 4 (N = 4, M = 1, wide) is detected as wide. *)
Theorem detectGeometry_roundtrip (N M : Z) (layout : Layout) :
  2 <= N <= 256 -> 1 <= M ->
  detectGeometry (width (computeDims N M layout))
                 (height (computeDims N M layout))
  = Detected (mkGeometry N M layout) /\
  detectGeometry 16 4 = Detected (mkGeometry 4 1 wide).
Proof.
  intros HN HM. split.
  - apply detectGeometry_computeDims; assumption.
  - reflexivity.
Qed.

Lemma detectGeometry_roundtrip_witness :
  detectGeometry (width (computeDims 4 2 wide)) (height (computeDims 4 2 wide))
  = Detected (mkGeometry 4 2 wide) /\
  detectGeometry 16 4 = Detected (mkGeometry 4 1 wide).
Proof. apply (detectGeometry_roundtrip 4 2 wide); lia. Defined.

(** C9. The wide and the tall hypothesis never both validate for the same
    (width, height), so [detectGeometry] gives the same answer when the
    tall hypothesis is tried first. *)
Theorem detectGeometry_hypotheses_exclusive (w h : Z) :
  ~ (is_Some (tryWide w h) /\ is_Some (tryTall w h)) /\
  detectGeometry w h =
    match tryTall w h with
    | Some geom => Detected geom
    | None =>
      match tryWide w h with
      | Some geom => Detected geom
      | None => DetectError undetectableMessage
      end
    end.
Proof.
  split.
  - intros [[gw Hw] [gt Ht]].
    exact (tryWide_tryTall_exclusive w h gw gt Hw Ht).
  - unfold detectGeometry.
    destruct (tryWide w h) as [gw |] eqn:Hw;
      destruct (tryTall w h) as [gt |] eqn:Ht; try reflexivity.
    exfalso. exact (tryWide_tryTall_exclusive w h gw gt Hw Ht).
Qed.

(** ** Loops *)

Section Loops.

Context {S : Type}.

Lemma forZ_first_err (n : nat) (i : Z) (body : Z -> S -> Result S) (s : S) (e : Error) :
  (0 < n)%nat -> body i s = Err e -> forZ n i body s = Err e.
Proof.
  intros Hn Hb. destruct n as [| n']; [lia |].
  simpl. rewrite Hb. reflexivity.
Qed.

Lemma forUpTo_first_err (bound : Z) (body : Z -> S -> Result S) (s : S) (e : Error) :
  1 <= bound -> body 0 s = Err e -> forUpTo bound body s = Err e.
Proof.
  intros Hb He. unfold forUpTo. apply forZ_first_err; [lia | assumption].
Qed.

(** A loop that throws does so from one of its iterations, entered with
    the invariant. *)
Lemma forZ_err_inv (I : Z -> S -> Prop) (body : Z -> S -> Result S) :
  forall (n : nat) (i : Z) (s : S) (e : Error),
    I i s ->
    (forall j st st', i <= j < i + Z.of_nat n ->
       I j st -> body j st = Ok st' -> I (j + 1) st') ->
    forZ n i body s = Err e ->
    exists j st, i <= j < i + Z.of_nat n /\ I j st /\ body j st = Err e.
Proof.
  induction n as [| n IH]; intros i s e Hi Hstep Hrun; simpl in Hrun.
  - discriminate.
  - destruct (body i s) as [s1 |] eqn:Hb.
    + destruct (IH (i + 1) s1 e) as (j & st & Hj & HI & Hbj).
      * apply (Hstep i s s1); [lia | assumption | assumption].
      * intros j st st' Hj. apply Hstep. lia.
      * exact Hrun.
      * exists j, st. split; [lia | split; assumption].
    + injection Hrun as <-. exists i, s. split; [lia | split; assumption].
Qed.

Lemma forUpTo_err_inv (I : Z -> S -> Prop) (body : Z -> S -> Result S)
    (bound : Z) (s : S) (e : Error) :
  I 0 s ->
  (forall j st st', 0 <= j < bound -> I j st -> body j st = Ok st' -> I (j + 1) st') ->
  forUpTo bound body s = Err e ->
  exists j st, 0 <= j < bound /\ I j st /\ body j st = Err e.
Proof.
  intros Hi Hstep Hrun. unfold forUpTo in Hrun.
  destruct (forZ_err_inv I body (Z.to_nat bound) 0 s e) as (j & st & Hj & HI & Hbj);
    try assumption.
  - intros j st st' Hj. apply Hstep. lia.
  - exists j, st. split; [lia | split; assumption].
Qed.

Lemma iterZ_inv (I : Z -> S -> Prop) (body : Z -> S -> S) :
  forall (n : nat) (i : Z) (s : S),
    I i s ->
    (forall j st, i <= j < i + Z.of_nat n -> I j st -> I (j + 1) (body j st)) ->
    I (i + Z.of_nat n) (iterZ n i body s).
Proof.
  induction n as [| n IH]; intros i s Hi Hstep; simpl.
  - replace (i + Z.of_nat 0) with i by lia. exact Hi.
  - replace (i + Z.of_nat (Datatypes.S n)) with ((i + 1) + Z.of_nat n) by lia.
    apply IH.
    + apply Hstep; [lia | exact Hi].
    + intros j st Hj. apply Hstep. lia.
Qed.

Lemma iterUpTo_inv (I : Z -> S -> Prop) (body : Z -> S -> S) (bound : Z) (s : S) :
  0 <= bound ->
  I 0 s ->
  (forall j st, 0 <= j < bound -> I j st -> I (j + 1) (body j st)) ->
  I bound (iterUpTo bound body s).
Proof.
  intros Hb Hi Hstep. unfold iterUpTo.
  replace bound with (0 + Z.of_nat (Z.to_nat bound)) at 1 by lia.
  apply iterZ_inv; [exact Hi |].
  intros j st Hj. apply Hstep. lia.
Qed.

(** A loop whose body, under the invariant, either completes keeping the
    invariant or fails in an allowed way, does the same as a whole. *)
Lemma forZ_outcome (I : Z -> S -> Prop) (F : Error -> Prop)
    (body : Z -> S -> Result S) :
  forall (n : nat) (i : Z) (s : S),
    I i s ->
    (forall j st, i <= j < i + Z.of_nat n -> I j st ->
       (exists st', body j st = Ok st' /\ I (j + 1) st') \/
       (exists e, body j st = Err e /\ F e)) ->
    (exists s', forZ n i body s = Ok s' /\ I (i + Z.of_nat n) s') \/
    (exists e, forZ n i body s = Err e /\ F e).
Proof.
  induction n as [| n IH]; intros i s Hi Hstep; simpl.
  - left. exists s. split; [reflexivity |].
    replace (i + Z.of_nat 0) with i by lia. exact Hi.
  - destruct (Hstep i s ltac:(lia) Hi) as [(s1 & Hb & H1) | (e & Hb & He)];
      rewrite Hb.
    + replace (i + Z.of_nat (Datatypes.S n)) with ((i + 1) + Z.of_nat n) by lia.
      apply IH; [exact H1 |].
      intros j st Hj. apply Hstep. lia.
    + right. exists e. split; [reflexivity | exact He].
Qed.

Lemma forUpTo_outcome (I : Z -> S -> Prop) (F : Error -> Prop)
    (body : Z -> S -> Result S) (bound : Z) (s : S) :
  0 <= bound ->
  I 0 s ->
  (forall j st, 0 <= j < bound -> I j st ->
     (exists st', body j st = Ok st' /\ I (j + 1) st') \/
     (exists e, body j st = Err e /\ F e)) ->
  (exists s', forUpTo bound body s = Ok s' /\ I bound s') \/
  (exists e, forUpTo bound body s = Err e /\ F e).
Proof.
  intros Hb Hi Hstep. unfold forUpTo.
  destruct (forZ_outcome I F body (Z.to_nat bound) 0 s Hi) as [(s' & Hrun & HI) | Herr].
  - intros j st Hj. apply Hstep. lia.
  - left. exists s'. split; [exact Hrun |].
    replace bound with (0 + Z.of_nat (Z.to_nat bound)) by lia. exact HI.
  - right. exact Herr.
Qed.

End Loops.

(** ** Pattern generation: the dimension limit *)

Lemma paintTile_err (N M : Z) (layout : Layout) (cancelRef : CancelRef)
    (total t : Z) (st : PatternState) (e : Error) :
  paintTile N M layout cancelRef total t st = Err e -> e = Cancelled.
Proof.
  unfold paintTile. intros H.
  destruct (cancelled cancelRef (suspensions (pRun st))).
  - congruence.
  - destruct (tileIndexToRGB t N), (tileCoords t N layout).
    destruct (JS.rem t yieldEvery =? 0); discriminate.
Qed.

Lemma paintLoop_err (N M : Z) (layout : Layout) (cancelRef : CancelRef)
    (total bound : Z) (st : PatternState) (e : Error) :
  forUpTo bound (paintTile N M layout cancelRef total) st = Err e -> e = Cancelled.
Proof.
  intros H.
  destruct (forUpTo_err_inv (fun _ _ => True)
              (paintTile N M layout cancelRef total) bound st e I)
    as (j & s & _ & _ & Hb); [tauto | exact H |].
  eapply paintTile_err; eassumption.
Qed.

(** Past the precondition, generation fails only by cancellation, for
    want of a 2D context, or in the encoder. *)
Lemma generateStep1Pattern_errors (host : Host) (N M : Z) (layout : Layout)
    (cancelRef : CancelRef) (e : Error) :
  width (computeDims N M layout) <= CANVAS_MAX_DIM host ->
  height (computeDims N M layout) <= CANVAS_MAX_DIM host ->
  generateStep1Pattern host N M layout cancelRef = Err e ->
  e = NoContext2D \/ e = Cancelled \/ e = EncodingFailure.
Proof.
  intros Hw Hh. unfold generateStep1Pattern.
  unfold computeDims in *. simpl in *.
  rewrite (proj2 (Z.ltb_ge _ _) Hw), (proj2 (Z.ltb_ge _ _) Hh). simpl.
  destruct (hasContext2D host); simpl; [| intros [= <-]; auto].
  match goal with
  | |- context [forUpTo ?bd ?body ?st] => destruct (forUpTo bd body st) as [st' | e'] eqn:Hrun
  end.
  - unfold canvasToPngBlob. destruct (encodesPng host); [discriminate |].
    intros [= <-]. auto.
  - intros [= <-]. apply paintLoop_err in Hrun. auto.
Qed.

(** C5 (as stated, refuted).  With N = 65 and a canvas limit of 4096 the
    error suggests M <= 1, whereas floor(maxDim / N^2) is 0. *)
Lemma dimension_limit_counterexample :
  generateStep1Pattern (mkHost 4096 true true) 65 1 wide (mkCancelRef (fun _ => false))
    = Err (DimensionLimitExceeded 4225 65 4096 65 1) /\
  JS.floorDiv 4096 (65 * 65) = 0.
Proof. split; reflexivity. Qed.

(** C5 (amended).  Pattern generation fails with DimensionLimitExceeded
    exactly when the computed width or height exceeds the capability
    value; the error carries the two dimensions, the limit, N and the
    suggested bound max(1, floor(maxDim / N^2)), which is the largest M
    that fits whenever N^2 <= maxDim; within the limit no such error is
    raised. *)
Theorem generateStep1Pattern_dimension_limit (host : Host) (N M : Z)
    (layout : Layout) (cancelRef : CancelRef) :
  let maxDim := CANVAS_MAX_DIM host in
  let dims := computeDims N M layout in
  (maxDim < width dims \/ maxDim < height dims ->
   generateStep1Pattern host N M layout cancelRef
   = Err (DimensionLimitExceeded (width dims) (height dims) maxDim N
            (Z.max 1 (JS.floorDiv maxDim (N * N))))) /\
  (width dims <= maxDim -> height dims <= maxDim ->
   forall w h m n s,
     generateStep1Pattern host N M layout cancelRef
     <> Err (DimensionLimitExceeded w h m n s)) /\
  (1 <= N -> N * N <= maxDim ->
   let mMax := Z.max 1 (JS.floorDiv maxDim (N * N)) in
   mMax = JS.floorDiv maxDim (N * N) /\
   N * N * mMax <= maxDim < N * N * (mMax + 1)).
Proof.
  intros maxDim dims. split; [| split].
  - intros Hbig. unfold generateStep1Pattern. fold dims.
    destruct dims as [tw th w h] eqn:Hd. simpl in *.
    assert (Hc : ((maxDim <? w) || (maxDim <? h))%bool = true).
    { apply orb_true_iff.
      destruct Hbig; [left | right]; apply Z.ltb_lt; assumption. }
    unfold maxDim in *. rewrite Hc. reflexivity.
  - intros Hw Hh w h m n s Herr.
    destruct (generateStep1Pattern_errors host N M layout cancelRef _ Hw Hh Herr)
      as [H | [H | H]]; discriminate.
  - intros HN Hfit mMax. unfold mMax, JS.floorDiv.
    assert (Hq : 1 <= maxDim / (N * N)).
    { apply Z.div_le_lower_bound; nia. }
    rewrite Z.max_r by lia. split; [reflexivity |].
    pose proof (Z.mul_div_le maxDim (N * N) ltac:(nia)).
    pose proof (Z.mul_succ_div_gt maxDim (N * N) ltac:(nia)).
    lia.
Qed.

Lemma generateStep1Pattern_dimension_limit_witness :
  generateStep1Pattern (mkHost 100 true true) 4 10 wide (mkCancelRef (fun _ => false))
    = Err (DimensionLimitExceeded 160 40 100 4 6) /\
  generateStep1Pattern (mkHost 100 true true) 2 1 tall (mkCancelRef (fun _ => false))
    <> Err (DimensionLimitExceeded 2 4 100 2 25) /\
  4 * 4 * 6 <= 100 < 4 * 4 * (6 + 1).
Proof.
  pose proof (generateStep1Pattern_dimension_limit
                (mkHost 100 true true) 4 10 wide (mkCancelRef (fun _ => false)))
    as (H1 & _ & H3).
  pose proof (generateStep1Pattern_dimension_limit
                (mkHost 100 true true) 2 1 tall (mkCancelRef (fun _ => false)))
    as (_ & H2 & _).
  split; [| split].
  - apply H1. simpl. lia.
  - apply H2; simpl; lia.
  - apply H3; simpl; lia.
Defined.

(** ** Cancellation on entry *)

Lemma generateStep1Pattern_cancelled_on_entry (host : Host) (N M : Z)
    (layout : Layout) (cancelRef : CancelRef) :
  1 <= N ->
  cancelled cancelRef 0 = true ->
  width (computeDims N M layout) <= CANVAS_MAX_DIM host ->
  height (computeDims N M layout) <= CANVAS_MAX_DIM host ->
  hasContext2D host = true ->
  generateStep1Pattern host N M layout cancelRef = Err Cancelled.
Proof.
  intros HN Hc Hw Hh Hctx. unfold generateStep1Pattern.
  unfold computeDims in *. simpl in *.
  rewrite (proj2 (Z.ltb_ge _ _) Hw), (proj2 (Z.ltb_ge _ _) Hh), Hctx. simpl.
  rewrite (forUpTo_first_err _ _ _ Cancelled); [reflexivity | nia |].
  unfold paintTile. simpl. rewrite Hc. reflexivity.
Qed.

Lemma generateStep1Pattern_cancelled_no_blob (host : Host) (N M : Z)
    (layout : Layout) (cancelRef : CancelRef) (png : Png) :
  1 <= N ->
  cancelled cancelRef 0 = true ->
  generateStep1Pattern host N M layout cancelRef <> Ok png.
Proof.
  intros HN Hc.
  destruct (Z.lt_ge_cases (CANVAS_MAX_DIM host) (width (computeDims N M layout)))
    as [Hw | Hw];
  [| destruct (Z.lt_ge_cases (CANVAS_MAX_DIM host) (height (computeDims N M layout)))
       as [Hh | Hh]].
  - unfold generateStep1Pattern, computeDims in *. simpl in *.
    rewrite (proj2 (Z.ltb_lt _ _) Hw). discriminate.
  - unfold generateStep1Pattern, computeDims in *. simpl in *.
    rewrite (proj2 (Z.ltb_lt _ _) Hh), orb_true_r. discriminate.
  - destruct (hasContext2D host) eqn:Hctx.
    + rewrite generateStep1Pattern_cancelled_on_entry by assumption. discriminate.
    + unfold generateStep1Pattern, computeDims in *. simpl in *.
      rewrite (proj2 (Z.ltb_ge _ _) Hw), (proj2 (Z.ltb_ge _ _) Hh), Hctx.
      discriminate.
Qed.

Lemma applyStep2Filter_cancelled_on_entry (img : ImageData) (width height : Z)
    (filterFn : PixelFilter) (cancelRef : CancelRef) :
  1 <= height ->
  cancelled cancelRef 0 = true ->
  applyStep2Filter img width height filterFn cancelRef = Err Cancelled.
Proof.
  intros Hh Hc. unfold applyStep2Filter.
  rewrite (forUpTo_first_err _ _ _ Cancelled); [reflexivity | lia |].
  unfold filterRow. simpl. rewrite Hc. reflexivity.
Qed.

Lemma generateCubeLut_cancelled_on_entry (img : ImageData) (geom : Geometry)
    (cancelRef : CancelRef) :
  1 <= geomN geom ->
  cancelled cancelRef 0 = true ->
  generateCubeLut img geom cancelRef = Err Cancelled.
Proof.
  intros HN Hc. destruct geom as [N M layout]. simpl in HN.
  unfold generateCubeLut.
  rewrite (forUpTo_first_err _ _ _ Cancelled); [reflexivity | lia |].
  apply forUpTo_first_err; [lia |].
  apply forUpTo_first_err; [lia |].
  unfold sampleCell. simpl. rewrite Hc. reflexivity.
Qed.

(** C7 (as stated, refuted).  With the flag set on entry, a pattern whose
    dimensions exceed the canvas limit fails with DimensionLimitExceeded,
    not with Cancelled. *)
Lemma cancellation_counterexample :
  cancelled (mkCancelRef (fun _ => true)) 0 = true /\
  generateStep1Pattern (mkHost 4096 true true) 65 1 wide (mkCancelRef (fun _ => true))
    = Err (DimensionLimitExceeded 4225 65 4096 65 1) /\
  Err (A := Png) (DimensionLimitExceeded 4225 65 4096 65 1) <> Err Cancelled.
Proof. split; [reflexivity | split; [reflexivity | discriminate]]. Qed.

(** C7 (amended).  With the cancellation flag set on entry: pixel
    filtering (of an image with at least one row) and LUT sampling raise
    Cancelled; pattern generation (N >= 2) returns no blob, and raises
    Cancelled when its dimensions pass the limit check and the host gives
    a 2D context. *)
Theorem cancelled_on_entry (cancelRef : CancelRef) :
  cancelled cancelRef 0 = true ->
  (forall host N M layout,
     2 <= N ->
     (forall png, generateStep1Pattern host N M layout cancelRef <> Ok png) /\
     (width (computeDims N M layout) <= CANVAS_MAX_DIM host ->
      height (computeDims N M layout) <= CANVAS_MAX_DIM host ->
      hasContext2D host = true ->
      generateStep1Pattern host N M layout cancelRef = Err Cancelled)) /\
  (forall img width height filterFn,
     1 <= height ->
     applyStep2Filter img width height filterFn cancelRef = Err Cancelled) /\
  (forall img geom,
     2 <= geomN geom ->
     generateCubeLut img geom cancelRef = Err Cancelled).
Proof.
  intros Hc. split; [| split].
  - intros host N M layout HN. split.
    + intros png. apply generateStep1Pattern_cancelled_no_blob; [lia | assumption].
    + intros Hw Hh Hctx.
      apply generateStep1Pattern_cancelled_on_entry; try assumption. lia.
  - intros img width height filterFn Hh.
    apply applyStep2Filter_cancelled_on_entry; assumption.
  - intros img geom HN.
    apply generateCubeLut_cancelled_on_entry; [lia | assumption].
Qed.

Lemma cancelled_on_entry_witness :
  generateStep1Pattern (mkHost 16384 true true) 4 2 wide (mkCancelRef (fun _ => true))
    = Err Cancelled /\
  applyStep2Filter (mkImageData [1; 2; 3; 255] 1 1) 1 1
    (compilePixelFilter (fun R G B _ _ _ _ => Returns (mkScriptVars R G B)))
    (mkCancelRef (fun _ => true)) = Err Cancelled /\
  generateCubeLut (mkImageData [1; 2; 3; 255] 1 1) (mkGeometry 2 1 wide)
    (mkCancelRef (fun _ => true)) = Err Cancelled.
Proof.
  pose proof (cancelled_on_entry (mkCancelRef (fun _ => true)) eq_refl)
    as (Hgen & Hfil & Hcube).
  split; [| split].
  - apply (Hgen (mkHost 16384 true true) 4 2 wide); simpl; first [lia | reflexivity].
  - apply Hfil. lia.
  - apply Hcube. simpl. lia.
Defined.

(** ** Typed arrays *)

Lemma readByte_byteAt (data : list Z) (i byte : Z) :
  byteAt data i = Some byte -> readByte data i = JS.ofZ byte.
Proof.
  unfold byteAt, readByte. destruct (i <? 0); [discriminate |].
  intros ->. reflexivity.
Qed.

Lemma length_writeByte (data : list Z) (i value : Z) :
  length (writeByte data i value) = length data.
Proof.
  unfold writeByte. destruct (i <? 0); [reflexivity | apply length_insert].
Qed.

Lemma byteAt_writeByte_same (data : list Z) (i value : Z) :
  0 <= i < Z.of_nat (length data) -> 0 <= value <= 255 ->
  byteAt (writeByte data i value) i = Some value.
Proof.
  intros Hi Hv. unfold byteAt, writeByte.
  destruct (Z.ltb_spec i 0); [lia |].
  rewrite list_lookup_insert_eq by lia.
  f_equal. lia.
Qed.

Lemma byteAt_writeByte_other (data : list Z) (i j value : Z) :
  i <> j -> byteAt (writeByte data i value) j = byteAt data j.
Proof.
  intros Hij. unfold byteAt, writeByte.
  destruct (Z.ltb_spec j 0); [reflexivity |].
  destruct (Z.ltb_spec i 0); [reflexivity |].
  apply list_lookup_insert_ne. lia.
Qed.

Lemma byteAt_in_range (data : list Z) (i : Z) :
  0 <= i < Z.of_nat (length data) -> exists byte, byteAt data i = Some byte.
Proof.
  intros Hi. unfold byteAt. destruct (Z.ltb_spec i 0); [lia |].
  destruct (lookup_lt_is_Some_2 data (Z.to_nat i) ltac:(lia)) as [byte Hb].
  exists byte. exact Hb.
Qed.

Lemma byteAt_is_byte (data : list Z) (i byte : Z) :
  Forall (fun byte => 0 <= byte <= 255) data ->
  byteAt data i = Some byte -> 0 <= byte <= 255.
Proof.
  intros Hall. unfold byteAt. destruct (i <? 0); [discriminate |].
  intros Hl. rewrite Forall_forall in Hall. apply Hall.
  eapply list_elem_of_lookup_2. exact Hl.
Qed.

Lemma byteAt_bound (data : list Z) (i byte : Z) :
  byteAt data i = Some byte -> 0 <= i < Z.of_nat (length data).
Proof.
  unfold byteAt. destruct (Z.ltb_spec i 0); [discriminate |].
  intros Hl. apply lookup_lt_Some in Hl. lia.
Qed.

(** ** Packing and unpacking a colour *)

Lemma byte_high_bits (x n : Z) : 0 <= x < 256 -> 8 <= n -> Z.testbit x n = false.
Proof.
  intros Hx Hn. apply Z.testbit_false; [lia |].
  rewrite Z.div_small; [reflexivity |].
  split; [lia |].
  apply Z.lt_le_trans with (2 ^ 8); [lia |].
  apply Z.pow_le_mono_r; lia.
Qed.

Lemma testbit_255 (n : Z) : 0 <= n -> Z.testbit 255 n = (n <? 8).
Proof.
  intros Hn. change 255 with (Z.ones 8).
  destruct (Z.ltb_spec n 8).
  - apply Z.ones_spec_low. lia.
  - apply Z.ones_spec_high. lia.
Qed.

Lemma band_255_range (x : Z) : 0 <= JSNum.band x 255 <= 255.
Proof.
  unfold JSNum.band. change 255 with (Z.ones 8) at 1 2.
  rewrite Z.land_ones by lia.
  pose proof (Z.mod_pos_bound x (2 ^ 8) ltac:(lia)). lia.
Qed.

Lemma unpack_pack (R G B : Z) :
  0 <= R < 256 -> 0 <= G < 256 -> 0 <= B < 256 ->
  let packed := Z.lor (Z.lor (Z.shiftl R 16) (Z.shiftl G 8)) B in
  unpackR packed = R /\ unpackG packed = G /\ unpackB packed = B.
Proof.
  intros HR HG HB packed.
  unfold unpackR, unpackG, unpackB, JSNum.band, JSNum.sar, packed.
  repeat split; apply Z.bits_inj'; intros n Hn;
    rewrite Z.land_spec, testbit_255 by lia;
    rewrite ?Z.shiftr_spec by lia;
    rewrite !Z.lor_spec, !Z.shiftl_spec by lia;
    destruct (Z.ltb_spec n 8).
  - replace (n + 16 - 16) with n by lia.
    rewrite (byte_high_bits G (n + 16 - 8)), (byte_high_bits B (n + 16)) by lia.
    rewrite !orb_false_r, andb_true_r. reflexivity.
  - rewrite andb_false_r. symmetry. apply byte_high_bits; lia.
  - replace (n + 8 - 8) with n by lia.
    rewrite (Z.testbit_neg_r R (n + 8 - 16)), (byte_high_bits B (n + 8)) by lia.
    rewrite !orb_false_r, andb_true_r. reflexivity.
  - rewrite andb_false_r. symmetry. apply byte_high_bits; lia.
  - rewrite (Z.testbit_neg_r R (n - 16)), (Z.testbit_neg_r G (n - 8)) by lia.
    rewrite andb_true_r. reflexivity.
  - rewrite andb_false_r. symmetry. apply byte_high_bits; lia.
Qed.

Lemma wrap32_small (z : Z) : - 2 ^ 31 <= z < 2 ^ 31 -> JSNum.wrap32 z = z.
Proof.
  intros Hz. unfold JSNum.wrap32.
  rewrite Z.mod_small; lia.
Qed.

Lemma toInt32_ofZ (z : Z) : - 2 ^ 31 <= z < 2 ^ 31 -> JSNum.toInt32 (JS.ofZ z) = z.
Proof.
  intros Hz. unfold JSNum.toInt32, JS.ofZ. simpl.
  rewrite Z.quot_1_r. apply wrap32_small. exact Hz.
Qed.

Lemma shl_ofZ_byte (z k : Z) :
  0 <= z < 256 -> 0 <= k <= 16 -> JSNum.shl (JS.ofZ z) k = Z.shiftl z k.
Proof.
  intros Hz Hk. unfold JSNum.shl.
  rewrite toInt32_ofZ by lia.
  apply wrap32_small.
  rewrite Z.shiftl_mul_pow2 by lia.
  assert (0 < 2 ^ k <= 2 ^ 16).
  { split; [apply Z.pow_pos_nonneg; lia | apply Z.pow_le_mono_r; lia]. }
  nia.
Qed.

(** ** Rounding and clamping a channel *)

Lemma round_inject_Z (z : Z) : JS.round (inject_Z z) = z.
Proof.
  transitivity (JS.round (inject_Z z / inject_Z 1)).
  - unfold JS.round. apply Qfloor_comp. field.
  - rewrite round_div by lia.
    replace (2 * z + 1) with (z * 2 + 1) by ring.
    replace (2 * 1) with 2 by ring.
    rewrite Z.div_add_l by lia. rewrite Z.div_small by lia. lia.
Qed.

Lemma Qle_bool_inject_Z (a b : Z) : Qle_bool (inject_Z a) (inject_Z b) = (a <=? b).
Proof. unfold Qle_bool. simpl. rewrite !Z.mul_1_r. reflexivity. Qed.

Lemma clamp_ofZ (z : Z) :
  JSNum.Math_max (JS.ofZ 0) (JSNum.Math_min (JS.ofZ 255) (JS.ofZ z))
  = JS.ofZ (Z.max 0 (Z.min 255 z)).
Proof.
  unfold JSNum.Math_max, JSNum.Math_min, JS.ofZ.
  rewrite Qle_bool_inject_Z.
  destruct (Z.leb_spec 255 z).
  - rewrite Qle_bool_inject_Z. simpl. rewrite Z.min_l by lia. reflexivity.
  - rewrite Qle_bool_inject_Z.
    destruct (Z.leb_spec 0 z).
    + rewrite Z.min_r, Z.max_r by lia. reflexivity.
    + rewrite Z.min_r, Z.max_l by lia. reflexivity.
Qed.

Lemma clampByte_finalized (n : JS.jsnum) (before : Z) :
  finalized n before (clampByte n before).
Proof.
  unfold finalized, clampByte. split.
  - intros ->. reflexivity.
  - intros q ->. simpl.
    destruct (Z.ltb_spec (JS.round q) 0); [lia |].
    destruct (Z.ltb_spec 255 (JS.round q)); lia.
Qed.

(** The channel the compiled wrapper computes for a script value and the
    channel's value on entry. *)
Lemma wrapper_channel (n : JS.jsnum) (before : Z) :
  0 <= before <= 255 ->
  JSNum.Math_max (JS.ofZ 0)
    (JSNum.Math_min (JS.ofZ 255)
       (JSNum.Math_round (if negb (JS.isFinite n) then JS.ofZ before else n)))
  = JS.ofZ (clampByte n before) /\
  0 <= clampByte n before <= 255.
Proof.
  intros Hb.
  assert (Hfallback :
    JSNum.Math_max (JS.ofZ 0)
      (JSNum.Math_min (JS.ofZ 255) (JSNum.Math_round (JS.ofZ before)))
    = JS.ofZ before).
  { unfold JSNum.Math_round, JS.ofZ at 3. rewrite round_inject_Z, clamp_ofZ.
    f_equal. lia. }
  destruct n as [q | | |]; cbn [JS.isFinite negb clampByte];
    try (split; [exact Hfallback | exact Hb]).
  unfold JSNum.Math_round. rewrite clamp_ofZ.
  destruct (Z.ltb_spec (JS.round q) 0);
    [| destruct (Z.ltb_spec 255 (JS.round q))];
    (split; [f_equal |]; lia).
Qed.

(** What the compiled filter returns, for a pixel of bytes. *)
Lemma compilePixelFilter_spec (userCode : UserCode) (r0 g0 b0 X Y W H : Z) :
  0 <= r0 <= 255 -> 0 <= g0 <= 255 -> 0 <= b0 <= 255 ->
  match userCode (JS.ofZ r0) (JS.ofZ g0) (JS.ofZ b0) X Y W H with
  | Throws msg =>
    compilePixelFilter userCode (JS.ofZ r0) (JS.ofZ g0) (JS.ofZ b0) X Y W H
    = Throws msg
  | Returns vars =>
    exists packed,
      compilePixelFilter userCode (JS.ofZ r0) (JS.ofZ g0) (JS.ofZ b0) X Y W H
      = Returns packed /\
      unpackR packed = clampByte (varR vars) r0 /\
      unpackG packed = clampByte (varG vars) g0 /\
      unpackB packed = clampByte (varB vars) b0
  end.
Proof.
  intros Hr Hg Hb. unfold compilePixelFilter.
  destruct (userCode (JS.ofZ r0) (JS.ofZ g0) (JS.ofZ b0) X Y W H) as [vars | msg];
    [| reflexivity].
  destruct (wrapper_channel (varR vars) r0 Hr) as [ER HR].
  destruct (wrapper_channel (varG vars) g0 Hg) as [EG HG].
  destruct (wrapper_channel (varB vars) b0 Hb) as [EB HB].
  eexists. split; [reflexivity |].
  cbv zeta. rewrite ER, EG, EB.
  rewrite !shl_ofZ_byte, toInt32_ofZ by lia.
  apply unpack_pack; lia.
Qed.

(** ** The filter pass *)

Lemma linear_index_inj (w x y x' y' : Z) :
  0 <= x < w -> 0 <= x' < w -> y' * w + x' = y * w + x -> x' = x /\ y' = y.
Proof.
  intros Hx Hx' Heq.
  destruct (Z.lt_trichotomy y y') as [Hlt | [-> | Hgt]].
  - exfalso. nia.
  - split; [lia | reflexivity].
  - exfalso. nia.
Qed.

(** Storing three channels at [i], [i+1], [i+2]. *)
Lemma store_channels (data : list Z) (i R G B : Z) :
  0 <= i -> i + 3 < Z.of_nat (length data) ->
  0 <= R <= 255 -> 0 <= G <= 255 -> 0 <= B <= 255 ->
  let data' := writeByte (writeByte (writeByte data i R) (i + 1) G) (i + 2) B in
  length data' = length data /\
  byteAt data' i = Some R /\
  byteAt data' (i + 1) = Some G /\
  byteAt data' (i + 2) = Some B /\
  (forall j, j < i \/ i + 3 <= j -> byteAt data' j = byteAt data j).
Proof.
  intros Hi Hlen HR HG HB data'. unfold data'.
  repeat split.
  - rewrite !length_writeByte. reflexivity.
  - rewrite !byteAt_writeByte_other by lia.
    apply byteAt_writeByte_same; lia.
  - rewrite byteAt_writeByte_other by lia.
    apply byteAt_writeByte_same; [rewrite length_writeByte |]; lia.
  - apply byteAt_writeByte_same; [rewrite !length_writeByte |]; lia.
  - intros j Hj. rewrite !byteAt_writeByte_other by lia. reflexivity.
Qed.

Section FilterPass.

Variables (data0 : list Z) (w h : Z).
Variables (filterFn : PixelFilter) (cancelRef : CancelRef).
Hypothesis Hwf : wellFormedData data0 w h.

Let filtered := filteredUpTo data0 w h filterFn.
Let failure := filterFailure data0 w h filterFn cancelRef.

Lemma original_pixel (x y : Z) :
  0 <= x < w -> 0 <= y < h ->
  exists before,
    getPixel data0 w x y = Some before /\
    0 <= red before <= 255 /\ 0 <= green before <= 255 /\
    0 <= blue before <= 255.
Proof.
  intros Hx Hy. destruct Hwf as (Hw & Hh & Hlen & Hbytes).
  assert (Hk : 0 <= y * w + x < w * h) by nia.
  unfold getPixel.
  destruct (byteAt_in_range data0 ((y * w + x) * 4) ltac:(lia)) as [r0 Hr].
  destruct (byteAt_in_range data0 ((y * w + x) * 4 + 1) ltac:(lia)) as [g0 Hg].
  destruct (byteAt_in_range data0 ((y * w + x) * 4 + 2) ltac:(lia)) as [b0 Hb].
  destruct (byteAt_in_range data0 ((y * w + x) * 4 + 3) ltac:(lia)) as [a0 Ha].
  rewrite Hr, Hg, Hb, Ha.
  exists (mkPixel r0 g0 b0 a0). simpl.
  split; [reflexivity |].
  repeat split; eapply byteAt_is_byte; eassumption.
Qed.

Lemma getPixel_bytes (data : list Z) (x y : Z) (p : Pixel) :
  getPixel data w x y = Some p ->
  byteAt data ((y * w + x) * 4) = Some (red p) /\
  byteAt data ((y * w + x) * 4 + 1) = Some (green p) /\
  byteAt data ((y * w + x) * 4 + 2) = Some (blue p) /\
  byteAt data ((y * w + x) * 4 + 3) = Some (alpha p).
Proof.
  unfold getPixel.
  destruct (byteAt data ((y * w + x) * 4)); [| discriminate].
  destruct (byteAt data ((y * w + x) * 4 + 1)); [| discriminate].
  destruct (byteAt data ((y * w + x) * 4 + 2)); [| discriminate].
  destruct (byteAt data ((y * w + x) * 4 + 3)); [| discriminate].
  intros [= <-]. simpl. repeat split.
Qed.

Lemma getPixel_ext (data data' : list Z) (x y : Z) :
  (forall c, 0 <= c < 4 ->
     byteAt data' ((y * w + x) * 4 + c) = byteAt data ((y * w + x) * 4 + c)) ->
  getPixel data' w x y = getPixel data w x y.
Proof.
  intros H. unfold getPixel.
  pose proof (H 0 ltac:(lia)) as H0. rewrite Z.add_0_r in H0.
  rewrite H0, (H 1), (H 2), (H 3) by lia. reflexivity.
Qed.

(** One pixel: the body of the inner loop. *)
Lemma filterPixel_outcome (y x : Z) (st : FilterState) :
  0 <= x < w -> 0 <= y < h ->
  filtered (y * w + x) st ->
  (exists st', filterPixel filterFn w h cancelRef y x st = Ok st' /\
               filtered (y * w + (x + 1)) st') \/
  (exists e, filterPixel filterFn w h cancelRef y x st = Err e /\ failure e).
Proof.
  intros Hx Hy (Hlen & Hrest & Hdone).
  destruct (original_pixel x y Hx Hy) as (before & Hbefore & Hr & Hg & Hb).
  destruct (getPixel_bytes data0 x y before Hbefore) as (Br & Bg & Bb & Ba).
  destruct Hwf as (Hw & Hh & Hlen0 & Hbytes).
  assert (Hk : 0 <= y * w + x < w * h) by nia.
  set (i := (y * w + x) * 4) in *.
  unfold filterPixel. cbv zeta. fold i.
  rewrite (readByte_byteAt (fData st) i (red before))
    by (rewrite Hrest by lia; exact Br).
  rewrite (readByte_byteAt (fData st) (i + 1) (green before))
    by (rewrite Hrest by lia; exact Bg).
  rewrite (readByte_byteAt (fData st) (i + 2) (blue before))
    by (rewrite Hrest by lia; exact Bb).
  destruct (filterFn (JS.ofZ (red before)) (JS.ofZ (green before))
                     (JS.ofZ (blue before)) x y w h) as [packed | msg] eqn:Hfn.
  2:{ right. eexists. split; [reflexivity |].
      right. exists x, y, before, msg.
      split; [exact Hx |]. split; [exact Hy |]. split; [exact Hbefore |].
      split; [exact Hfn |]. split; [| reflexivity].
      intros x' y' Hx' Hy' Hlt.
      destruct (Hdone x' y' Hx' Hy' Hlt) as (before' & packed' & Hb' & Hf' & _).
      exists before', packed'. split; assumption. }
  fold (unpackR packed). fold (unpackG packed). fold (unpackB packed).
  destruct (store_channels (fData st) i (unpackR packed) (unpackG packed)
              (unpackB packed))
    as (Hlen' & Sr & Sg & Sb & Sother);
    try apply band_255_range; try lia.
  set (data' := writeByte (writeByte (writeByte (fData st) i (unpackR packed))
                             (i + 1) (unpackG packed)) (i + 2) (unpackB packed)) in *.
  assert (Hnext : forall processed run,
            filtered (y * w + (x + 1)) (mkFilterState data' processed run)).
  { intros processed run. unfold filtered, filteredUpTo. simpl.
    split; [congruence |]. split.
    - intros j Hj. rewrite Sother by lia. apply Hrest. lia.
    - intros x' y' Hx' Hy' Hlt.
      destruct (Z.eq_dec (y' * w + x') (y * w + x)) as [Heq | Hne].
      + destruct (linear_index_inj w x y x' y' Hx Hx' Heq) as [-> ->].
        exists before, packed. split; [exact Hbefore |]. split; [exact Hfn |].
        unfold getPixel. fold i.
        rewrite Sr, Sg, Sb, Sother, Hrest, Ba by lia. reflexivity.
      + destruct (Hdone x' y' Hx' Hy' ltac:(lia)) as (before' & packed' & Hb' & Hf' & Hp').
        exists before', packed'. split; [exact Hb' |]. split; [exact Hf' |].
        rewrite <- Hp'. apply getPixel_ext.
        intros c Hc. apply Sother. lia. }
  destruct (JS.rem (fProcessed st + 1) chunkPixels =? 0).
  - match goal with
    | |- context [cancelled cancelRef ?n] => destruct (cancelled cancelRef n) eqn:Hc
    end.
    + right. eexists. split; [reflexivity |].
      left. split; [reflexivity |]. eexists. exact Hc.
    + left. eexists. split; [reflexivity |]. apply Hnext.
  - left. eexists. split; [reflexivity |]. apply Hnext.
Qed.

(** One row: the body of the outer loop. *)
Lemma filterRow_outcome (y : Z) (st : FilterState) :
  0 <= y < h ->
  filtered (y * w) st ->
  (exists st', filterRow filterFn w h cancelRef y st = Ok st' /\
               filtered ((y + 1) * w) st') \/
  (exists e, filterRow filterFn w h cancelRef y st = Err e /\ failure e).
Proof.
  intros Hy Hst. unfold filterRow.
  destruct (cancelled cancelRef (suspensions (fRun st))) eqn:Hc.
  - right. eexists. split; [reflexivity |].
    left. split; [reflexivity |]. eexists. exact Hc.
  - destruct Hwf as (Hw & _).
    destruct (forUpTo_outcome (fun x s => filtered (y * w + x) s) failure
                (filterPixel filterFn w h cancelRef y) w st Hw)
      as [(st' & Hrun & Hst') | Herr].
    + rewrite Z.add_0_r. exact Hst.
    + intros x s Hx Hs. apply filterPixel_outcome; assumption.
    + left. exists st'. split; [exact Hrun |].
      replace ((y + 1) * w) with (y * w + w) by ring. exact Hst'.
    + right. exact Herr.
Qed.

(** The whole pass. *)
Lemma applyStep2Filter_outcome (img : ImageData) :
  imgData img = data0 ->
  (exists out, applyStep2Filter img w h filterFn cancelRef = Ok out /\
     forall x y, 0 <= x < w -> 0 <= y < h ->
       exists before packed,
         getPixel data0 w x y = Some before /\
         filterFn (JS.ofZ (red before)) (JS.ofZ (green before))
                  (JS.ofZ (blue before)) x y w h = Returns packed /\
         getPixel (imgData out) w x y
         = Some (mkPixel (unpackR packed) (unpackG packed) (unpackB packed)
                         (alpha before))) \/
  (exists e, applyStep2Filter img w h filterFn cancelRef = Err e /\ failure e).
Proof.
  intros Himg. unfold applyStep2Filter. rewrite Himg.
  destruct Hwf as (Hw & Hh & _).
  destruct (forUpTo_outcome (fun y s => filtered (y * w) s) failure
              (filterRow filterFn w h cancelRef) h
              (mkFilterState data0 0 startRun) Hh)
    as [(st' & Hrun & (_ & _ & Hdone)) | (e & Hrun & He)].
  - unfold filtered, filteredUpTo. simpl.
    split; [reflexivity |]. split; [reflexivity |].
    intros x y Hx Hy Hlt. exfalso. nia.
  - intros y s Hy Hs. apply filterRow_outcome; assumption.
  - left. rewrite Hrun. eexists. split; [reflexivity |]. simpl.
    intros x y Hx Hy. apply Hdone; [lia | lia | nia].
  - right. rewrite Hrun. exists e. split; [reflexivity | exact He].
Qed.

End FilterPass.

(** C4. In the buffer a filter pass returns, every channel of every pixel
    is the finalization of what the script left in it: the channel's
    value before the filter when the script left it non-finite, else the
    script's value rounded to the nearest integer and clamped to [0,255];
    alpha is unchanged.  A script assigning R = 999 gives red 255, one
    assigning R = -50 gives red 0. *)
Theorem applyStep2Filter_finalizes_channels
    (img : ImageData) (w h : Z) (cancelRef : CancelRef) :
  wellFormedData (imgData img) w h ->
  (forall userCode out,
     applyStep2Filter img w h (compilePixelFilter userCode) cancelRef = Ok out ->
     forall x y, 0 <= x < w -> 0 <= y < h ->
       exists before after vars,
         getPixel (imgData img) w x y = Some before /\
         getPixel (imgData out) w x y = Some after /\
         userCode (JS.ofZ (red before)) (JS.ofZ (green before))
                  (JS.ofZ (blue before)) x y w h = Returns vars /\
         finalized (varR vars) (red before) (red after) /\
         finalized (varG vars) (green before) (green after) /\
         finalized (varB vars) (blue before) (blue after) /\
         alpha after = alpha before) /\
  (forall out,
     applyStep2Filter img w h (compilePixelFilter (assignR 999)) cancelRef = Ok out ->
     forall x y, 0 <= x < w -> 0 <= y < h ->
       exists after, getPixel (imgData out) w x y = Some after /\ red after = 255) /\
  (forall out,
     applyStep2Filter img w h (compilePixelFilter (assignR (-50))) cancelRef = Ok out ->
     forall x y, 0 <= x < w -> 0 <= y < h ->
       exists after, getPixel (imgData out) w x y = Some after /\ red after = 0).
Proof.
  intros Hwf.
  assert (General : forall userCode out,
     applyStep2Filter img w h (compilePixelFilter userCode) cancelRef = Ok out ->
     forall x y, 0 <= x < w -> 0 <= y < h ->
       exists before after vars,
         getPixel (imgData img) w x y = Some before /\
         getPixel (imgData out) w x y = Some after /\
         userCode (JS.ofZ (red before)) (JS.ofZ (green before))
                  (JS.ofZ (blue before)) x y w h = Returns vars /\
         finalized (varR vars) (red before) (red after) /\
         finalized (varG vars) (green before) (green after) /\
         finalized (varB vars) (blue before) (blue after) /\
         alpha after = alpha before).
  { intros userCode out Hrun x y Hx Hy.
    destruct (applyStep2Filter_outcome (imgData img) w h
                (compilePixelFilter userCode) cancelRef Hwf img eq_refl)
      as [(out' & Hrun' & Hpix) | (e & Hrun' & _)]; [| congruence].
    assert (out' = out) as -> by congruence.
    destruct (Hpix x y Hx Hy) as (before & packed & Hbefore & Hfn & Hafter).
    destruct (original_pixel (imgData img) w h Hwf x y Hx Hy)
      as (before' & Hbefore' & Hr & Hg & Hb).
    assert (before' = before) as -> by congruence.
    pose proof (compilePixelFilter_spec userCode (red before) (green before)
                  (blue before) x y w h Hr Hg Hb) as Hspec.
    destruct (userCode (JS.ofZ (red before)) (JS.ofZ (green before))
                       (JS.ofZ (blue before)) x y w h) as [vars | msg] eqn:Hcode.
    - destruct Hspec as (packed' & Hfn' & ER & EG & EB).
      assert (packed' = packed) as -> by congruence.
      exists before. eexists. exists vars.
      split; [exact Hbefore |]. split; [exact Hafter |].
      split; [exact Hcode |]. simpl.
      rewrite ER, EG, EB.
      repeat split; try apply clampByte_finalized.
    - congruence. }
  split; [exact General |].
  split; intros out Hrun x y Hx Hy;
    destruct (General _ out Hrun x y Hx Hy)
      as (before & after & vars & _ & Hafter & Hcode & (_ & HR) & _);
    exists after; (split; [exact Hafter |]);
    unfold assignR in Hcode; injection Hcode as <-; simpl in HR;
    rewrite (HR _ eq_refl), round_inject_Z; reflexivity.
Qed.

Lemma applyStep2Filter_finalizes_channels_witness :
  (exists after,
     getPixel [255; 20; 30; 255; 255; 50; 60; 255] 2 1 0 = Some after /\
     red after = 255) /\
  (exists after,
     getPixel [0; 20; 30; 255; 0; 50; 60; 255] 2 0 0 = Some after /\
     red after = 0).
Proof.
  destruct (applyStep2Filter_finalizes_channels
              (mkImageData [10; 20; 30; 255; 40; 50; 60; 255] 2 1) 2 1
              (mkCancelRef (fun _ => false)))
    as (_ & H999 & H50).
  - repeat split; simpl; try lia. repeat constructor; lia.
  - split.
    + apply (H999 (mkImageData [255; 20; 30; 255; 255; 50; 60; 255] 2 1));
        [vm_compute; reflexivity | lia | lia].
    + apply (H50 (mkImageData [0; 20; 30; 255; 0; 50; 60; 255] 2 1));
        [vm_compute; reflexivity | lia | lia].
Defined.

(** C6. If the filter throws on some pixel of the image, the pass returns
    no buffer: it raises an error, which either is Cancelled (the flag was
    read set before the pass got to a throwing pixel) or names the first
    pixel (x, y), in row-major order, on which the filter throws, with
    the message thrown there; when the flag is never set it is the
    latter.  No pixel is skipped to continue with the next. *)
Theorem applyStep2Filter_filter_throws
    (img : ImageData) (w h : Z) (filterFn : PixelFilter) (cancelRef : CancelRef)
    (x y : Z) (before : Pixel) (msg : string) :
  wellFormedData (imgData img) w h ->
  0 <= x < w -> 0 <= y < h ->
  getPixel (imgData img) w x y = Some before ->
  filterFn (JS.ofZ (red before)) (JS.ofZ (green before)) (JS.ofZ (blue before))
           x y w h = Throws msg ->
  exists e,
    applyStep2Filter img w h filterFn cancelRef = Err e /\
    filterFailure (imgData img) w h filterFn cancelRef e /\
    ((forall n, cancelled cancelRef n = false) ->
     exists x' y' before' msg',
       0 <= x' < w /\ 0 <= y' < h /\
       getPixel (imgData img) w x' y' = Some before' /\
       filterFn (JS.ofZ (red before')) (JS.ofZ (green before'))
                (JS.ofZ (blue before')) x' y' w h = Throws msg' /\
       returnsBefore (imgData img) w h filterFn x' y' /\
       e = FilterRuntimeError x' y' msg').
Proof.
  intros Hwf Hx Hy Hbefore Hthrows.
  destruct (applyStep2Filter_outcome (imgData img) w h filterFn cancelRef Hwf
              img eq_refl)
    as [(out & Hrun & Hpix) | (e & Hrun & He)].
  - exfalso.
    destruct (Hpix x y Hx Hy) as (before' & packed & Hbefore' & Hfn & _).
    congruence.
  - exists e. split; [exact Hrun |]. split; [exact He |].
    intros Hnever.
    destruct He as [(_ & n & Hn) | Hthrown].
    + rewrite Hnever in Hn. discriminate.
    + exact Hthrown.
Qed.

Lemma applyStep2Filter_filter_throws_witness :
  exists e,
    applyStep2Filter (mkImageData [10; 20; 30; 255; 40; 50; 60; 255] 2 1) 2 1
      (fun R G B X Y W H => if X =? 1 then Throws "boom" else Returns 0)
      (mkCancelRef (fun _ => false)) = Err e /\
    e = FilterRuntimeError 1 0 "boom".
Proof.
  destruct (applyStep2Filter_filter_throws
              (mkImageData [10; 20; 30; 255; 40; 50; 60; 255] 2 1) 2 1
              (fun R G B X Y W H => if X =? 1 then Throws "boom" else Returns 0)
              (mkCancelRef (fun _ => false))
              1 0 (mkPixel 40 50 60 255) "boom")
    as (e & Hrun & _ & _).
  - repeat split; simpl; try lia. repeat constructor; lia.
  - lia.
  - lia.
  - reflexivity.
  - reflexivity.
  - exists e. split; [exact Hrun |].
    vm_compute in Hrun. injection Hrun as <-. reflexivity.
Defined.

(** ** The tile sampler *)

Lemma sampleCoord_range (dim origin k : Z) (step : Q) :
  1 <= dim -> 0 <= sampleCoord dim origin k step <= dim - 1.
Proof. intros Hd. unfold sampleCoord. lia. Qed.

Lemma samplesPerAxis_range (M : Z) : 1 <= samplesPerAxis M <= 8.
Proof. unfold samplesPerAxis. lia. Qed.

Lemma sampleSums_unfold (data : list Z) (imgW imgH tileX tileY M : Z) :
  sampleSums data imgW imgH tileX tileY M
  = iterUpTo (samplesPerAxis M)
      (fun yy acc =>
         iterUpTo (samplesPerAxis M)
           (fun xx acc =>
              let idx := (sampleY imgH tileY M yy * imgW + sampleX imgW tileX M xx) * 4 in
              mkSums (JSNum.add (sumR acc) (readByte data idx))
                     (JSNum.add (sumG acc) (readByte data (idx + 1)))
                     (JSNum.add (sumB acc) (readByte data (idx + 2)))
                     (count acc + 1))
           acc)
      (mkSums (JS.ofZ 0) (JS.ofZ 0) (JS.ofZ 0) 0).
Proof. reflexivity. Qed.

Lemma channelSum_zero (lo hi : Z) : channelSum lo hi 0 (JS.ofZ 0).
Proof.
  exists (inject_Z 0), 0. split; [reflexivity |]. split; [reflexivity | lia].
Qed.

Lemma channelSum_add (lo hi n : Z) (sum : JS.jsnum) (data : list Z) (i byte : Z) :
  channelSum lo hi n sum ->
  byteAt data i = Some byte -> lo <= byte <= hi ->
  channelSum lo hi (n + 1) (JSNum.add sum (readByte data i)).
Proof.
  intros (q & z & -> & Hq & Hz) Hbyte Hrange.
  rewrite (readByte_byteAt data i byte Hbyte).
  exists (q + inject_Z byte)%Q, (z + byte). split; [reflexivity |]. split.
  - rewrite inject_Z_plus, Hq. reflexivity.
  - lia.
Qed.

Lemma channelSum_average (lo hi n : Z) (sum : JS.jsnum) :
  1 <= n -> channelSum lo hi n sum ->
  channelWithin lo hi (JSNum.divByCount sum n).
Proof.
  intros Hn (q & z & -> & Hq & Hz). unfold JSNum.divByCount.
  destruct (Z.eqb_spec n 0); [lia |].
  exists (q / inject_Z n)%Q. split; [reflexivity |].
  assert (Hpos : (0 < inject_Z n)%Q).
  { change 0%Q with (inject_Z 0). rewrite <- Zlt_Qlt. lia. }
  split.
  - apply Qle_shift_div_l; [exact Hpos |].
    rewrite Hq, <- inject_Z_mult, <- Zle_Qle. lia.
  - apply Qle_shift_div_r; [exact Hpos |].
    rewrite Hq, <- inject_Z_mult, <- Zle_Qle. lia.
Qed.

Section SampleLoops.

Variables (data : list Z) (imgW imgH tileX tileY M : Z).
Variables (loR hiR loG hiG loB hiB : Z).

(** Every sample of the tile reads a pixel whose channels lie within the
    given bounds. *)
Hypothesis Hsamples :
  forall yy xx,
    0 <= yy < samplesPerAxis M -> 0 <= xx < samplesPerAxis M ->
    exists p,
      getPixel data imgW (sampleX imgW tileX M xx) (sampleY imgH tileY M yy) = Some p /\
      loR <= red p <= hiR /\ loG <= green p <= hiG /\ loB <= blue p <= hiB.

Let summed (n : Z) (acc : Sums) : Prop :=
  count acc = n /\
  channelSum loR hiR n (sumR acc) /\
  channelSum loG hiG n (sumG acc) /\
  channelSum loB hiB n (sumB acc).

Lemma sampleSums_summed :
  summed (samplesPerAxis M * samplesPerAxis M)
         (sampleSums data imgW imgH tileX tileY M).
Proof.
  rewrite sampleSums_unfold.
  pose proof (samplesPerAxis_range M) as Hs.
  set (s := samplesPerAxis M) in *.
  apply (iterUpTo_inv (fun yy acc => summed (yy * s) acc)); [lia | |].
  - unfold summed. simpl. repeat split; apply channelSum_zero.
  - intros yy acc Hyy Hacc.
    replace ((yy + 1) * s) with (yy * s + s) by ring.
    apply (iterUpTo_inv (fun xx acc => summed (yy * s + xx) acc)); [lia | |].
    + rewrite Z.add_0_r. exact Hacc.
    + intros xx acc' Hxx (Hcount & HR & HG & HB).
      destruct (Hsamples yy xx Hyy Hxx) as (p & Hp & HpR & HpG & HpB).
      destruct (getPixel_bytes imgW data _ _ p Hp) as (Br & Bg & Bb & _).
      unfold summed. cbv zeta. simpl.
      replace (yy * s + (xx + 1)) with (yy * s + xx + 1) by ring.
      split; [lia |].
      split; [| split]; eapply channelSum_add; eassumption.
Qed.

Lemma sampleTileColor_within :
  1 <= count (sampleSums data imgW imgH tileX tileY M) /\
  channelWithin loR hiR (colorR (sampleTileColor data imgW imgH tileX tileY M)) /\
  channelWithin loG hiG (colorG (sampleTileColor data imgW imgH tileX tileY M)) /\
  channelWithin loB hiB (colorB (sampleTileColor data imgW imgH tileX tileY M)).
Proof.
  destruct sampleSums_summed as (Hcount & HR & HG & HB).
  pose proof (samplesPerAxis_range M) as Hs.
  assert (Hn : 1 <= samplesPerAxis M * samplesPerAxis M) by nia.
  unfold sampleTileColor. simpl. rewrite Hcount.
  split; [exact Hn |].
  split; [| split]; apply channelSum_average; assumption.
Qed.

End SampleLoops.

(** C10. For a buffer of width >= 1 and height >= 1, any tile position and
    any M >= 1, every sample coordinate of [sampleTileColor] is clamped
    into [0, width-1] x [0, height-1], where the buffer has a pixel; the
    sample count is at least 1; and each returned average lies in
    [0, 255]. *)
Theorem sampleTileColor_bounds_safe
    (data : list Z) (imgW imgH tileX tileY M : Z) :
  1 <= imgW -> 1 <= imgH -> 1 <= M ->
  wellFormedData data imgW imgH ->
  (forall yy xx,
     0 <= sampleX imgW tileX M xx <= imgW - 1 /\
     0 <= sampleY imgH tileY M yy <= imgH - 1 /\
     exists p,
       getPixel data imgW (sampleX imgW tileX M xx) (sampleY imgH tileY M yy)
       = Some p) /\
  1 <= count (sampleSums data imgW imgH tileX tileY M) /\
  channelWithin 0 255 (colorR (sampleTileColor data imgW imgH tileX tileY M)) /\
  channelWithin 0 255 (colorG (sampleTileColor data imgW imgH tileX tileY M)) /\
  channelWithin 0 255 (colorB (sampleTileColor data imgW imgH tileX tileY M)).
Proof.
  intros HW HH HM Hwf.
  assert (Hpix : forall yy xx,
            0 <= sampleX imgW tileX M xx <= imgW - 1 /\
            0 <= sampleY imgH tileY M yy <= imgH - 1 /\
            exists p,
              getPixel data imgW (sampleX imgW tileX M xx) (sampleY imgH tileY M yy)
              = Some p /\
              0 <= red p <= 255 /\ 0 <= green p <= 255 /\ 0 <= blue p <= 255).
  { intros yy xx.
    pose proof (sampleCoord_range imgW (tileX * M + sampleMargin M) xx (sampleStep M) HW) as Hx.
    pose proof (sampleCoord_range imgH (tileY * M + sampleMargin M) yy (sampleStep M) HH) as Hy.
    fold (sampleX imgW tileX M xx) in Hx. fold (sampleY imgH tileY M yy) in Hy.
    split; [exact Hx |]. split; [exact Hy |].
    apply (original_pixel data imgW imgH Hwf); lia. }
  split.
  - intros yy xx. destruct (Hpix yy xx) as (Hx & Hy & p & Hp & _).
    split; [exact Hx |]. split; [exact Hy |]. exists p. exact Hp.
  - apply sampleTileColor_within.
    intros yy xx _ _. destruct (Hpix yy xx) as (_ & _ & Hp). exact Hp.
Qed.

Lemma sampleTileColor_bounds_safe_witness :
  1 <= count (sampleSums [10; 20; 30; 255; 40; 50; 60; 255] 2 1 5 5 3) /\
  channelWithin 0 255
    (colorR (sampleTileColor [10; 20; 30; 255; 40; 50; 60; 255] 2 1 5 5 3)).
Proof.
  destruct (sampleTileColor_bounds_safe [10; 20; 30; 255; 40; 50; 60; 255] 2 1 5 5 3)
    as (_ & Hcount & HR & _).
  - lia.
  - lia.
  - lia.
  - repeat split; simpl; try lia. repeat constructor; lia.
  - split; [exact Hcount | exact HR].
Defined.

(** ** The identity pattern *)

Lemma tileCoords_cellPos (t N : Z) (layout : Layout) :
  tileCoords t N layout = cellPos N layout (tileIndexToRGB t N).
Proof.
  unfold tileCoords, cellPos.
  destruct (tileIndexToRGB t N) as [cr cg cb]. reflexivity.
Qed.

Lemma cellPos_inj (N : Z) (layout : Layout) (c c' : RGB) :
  inLattice N c -> inLattice N c' ->
  cellPos N layout c = cellPos N layout c' -> c = c'.
Proof.
  intros (Hr & Hg & Hb) (Hr' & Hg' & Hb').
  destruct c as [cr cg cb], c' as [cr' cg' cb']. simpl in *.
  unfold cellPos. destruct layout; simpl; intros [= H1 H2].
  - subst cr'.
    assert (E : cb' * N + cg' = cb * N + cg) by lia.
    destruct (linear_index_inj N cg cb cg' cb' Hg Hg' E) as [-> ->].
    reflexivity.
  - subst cb'.
    assert (E : cg' * N + cr' = cg * N + cr) by lia.
    destruct (linear_index_inj N cr cg cr' cg' Hr Hr' E) as [-> ->].
    reflexivity.
Qed.

Lemma tileCoords_inj (N : Z) (layout : Layout) (t t' : Z) :
  1 <= N -> 0 <= t < N * N * N -> 0 <= t' < N * N * N ->
  tileCoords t N layout = tileCoords t' N layout -> t = t'.
Proof.
  intros HN Ht Ht'. rewrite !tileCoords_cellPos. intros Heq.
  apply (tileIndexToRGB_inj N t t' HN Ht Ht').
  apply (cellPos_inj N layout).
  - apply tileIndexToRGB_decompose; assumption.
  - apply tileIndexToRGB_decompose; assumption.
  - exact Heq.
Qed.

Lemma inBlock_same_tile (pos pos' : TilePos) (M px py : Z) :
  1 <= M -> inBlock pos M px py -> inBlock pos' M px py -> pos = pos'.
Proof.
  intros HM [Hx Hy] [Hx' Hy'].
  destruct pos as [x1 y1], pos' as [x2 y2]. simpl in *.
  f_equal; nia.
Qed.

Lemma cssByte_v (i N : Z) : 0 <= i < N -> cssByte (v i N) = v i N.
Proof.
  intros Hi. pose proof (v_range i N Hi). unfold cssByte. lia.
Qed.

Section PatternLoop.

Variables (N M : Z) (layout : Layout) (cancelRef : CancelRef).
Variables (W H : Z).
Hypothesis HN : 1 <= N.
Hypothesis HM : 1 <= M.

(** One tile: the body of the generator's loop. *)
Lemma paintTile_outcome (t : Z) (st : PatternState) :
  0 <= t < N * N * N ->
  painted N M layout W H t st ->
  (exists st', paintTile N M layout cancelRef (N * N * N) t st = Ok st' /\
               painted N M layout W H (t + 1) st') \/
  (exists e, paintTile N M layout cancelRef (N * N * N) t st = Err e /\
             e = Cancelled /\ exists n, cancelled cancelRef n = true).
Proof.
  intros Ht (HW & HH & Hdone). unfold paintTile.
  destruct (cancelled cancelRef (suspensions (pRun st))) eqn:Hc.
  { right. eexists. split; [reflexivity |]. split; [reflexivity |].
    eexists. exact Hc. }
  left.
  destruct (tileIndexToRGB_decompose t N HN Ht) as [(Hr & Hg & Hb) _].
  destruct (tileIndexToRGB t N) as [cr cg cb] eqn:Hcell. simpl in Hr, Hg, Hb.
  destruct (tileCoords t N layout) as [xT yT] eqn:Hpos.
  assert (Hnext : forall run,
    painted N M layout W H (t + 1)
      (mkPatternState
         (fillRect (pCanvas st) (v cr N) (v cg N) (v cb N) (xT * M) (yT * M) M M)
         run)).
  { intros run. unfold painted. simpl.
    split; [exact HW |]. split; [exact HH |].
    intros t' Ht' px py Hin.
    destruct (Z.eq_dec t' t) as [-> | Hne].
    - rewrite Hpos in Hin. destruct Hin as [Hx Hy]. simpl in Hx, Hy.
      rewrite Hcell.
      rewrite (proj2 (Z.leb_le _ _)), (proj2 (Z.ltb_lt _ _)),
        (proj2 (Z.leb_le _ _)), (proj2 (Z.ltb_lt _ _)) by lia.
      simpl. unfold tileColor. simpl.
      rewrite !cssByte_v by lia. reflexivity.
    - destruct ((xT * M <=? px) && (px <? xT * M + M)
                && (yT * M <=? py) && (py <? yT * M + M))%bool eqn:Hfill.
      + exfalso. apply Hne.
        apply (tileCoords_inj N layout t' t HN); [lia | lia |].
        rewrite Hpos.
        apply (inBlock_same_tile _ _ M px py HM Hin).
        bool_to_prop. split; simpl; lia.
      + apply Hdone; [lia | exact Hin]. }
  destruct (JS.rem t yieldEvery =? 0);
    eexists; (split; [reflexivity | apply Hnext]).
Qed.

Lemma paintLoop_outcome :
  (exists st',
     forUpTo (N * N * N) (paintTile N M layout cancelRef (N * N * N))
             (mkPatternState (createCanvas W H) startRun) = Ok st' /\
     painted N M layout W H (N * N * N) st') \/
  (exists e,
     forUpTo (N * N * N) (paintTile N M layout cancelRef (N * N * N))
             (mkPatternState (createCanvas W H) startRun) = Err e /\
     e = Cancelled /\ exists n, cancelled cancelRef n = true).
Proof.
  apply (forUpTo_outcome (painted N M layout W H)
           (fun e => e = Cancelled /\ exists n, cancelled cancelRef n = true)).
  - nia.
  - unfold painted. simpl. split; [reflexivity |]. split; [reflexivity |].
    intros t Ht. lia.
  - intros t st Ht Hst. apply paintTile_outcome; assumption.
Qed.

End PatternLoop.

(** ** The bytes of a canvas *)

Lemma lookup_flat_map_chunks {A : Type} (f : Z -> list A) (L : nat) :
  (forall i, length (f i) = L) ->
  forall (n start i j : nat),
    (i < n)%nat -> (j < L)%nat ->
    flat_map f (map Z.of_nat (seq start n)) !! (i * L + j)%nat
    = f (Z.of_nat (start + i)) !! j.
Proof.
  intros Hlen. induction n as [| n IH]; intros start i j Hi Hj; [lia |].
  simpl. destruct i as [| i].
  - rewrite lookup_app_l by (rewrite Hlen; lia).
    rewrite Nat.add_0_r. reflexivity.
  - rewrite lookup_app_r by (rewrite Hlen; simpl; lia).
    rewrite Hlen.
    replace (Datatypes.S i * L + j - L)%nat with (i * L + j)%nat by (simpl; lia).
    rewrite IH by lia.
    replace (Datatypes.S start + i)%nat with (start + Datatypes.S i)%nat by lia.
    reflexivity.
Qed.

Lemma length_flat_map_chunks {A : Type} (f : Z -> list A) (L : nat) (l : list Z) :
  (forall i, length (f i) = L) ->
  length (flat_map f l) = (length l * L)%nat.
Proof.
  intros Hlen. induction l as [| x l IH]; [reflexivity |].
  simpl. rewrite length_app, Hlen, IH. reflexivity.
Qed.

Lemma length_upTo (n : Z) : length (upTo n) = Z.to_nat n.
Proof. unfold upTo. rewrite length_map, length_seq. reflexivity. Qed.

Lemma canvasBytes_byteAt (canvas : Canvas) (px py c : Z) :
  0 <= px < canvasWidth canvas -> 0 <= py < canvasHeight canvas -> 0 <= c < 4 ->
  byteAt (canvasBytes canvas) ((py * canvasWidth canvas + px) * 4 + c)
  = pixelBytes (canvasPixel canvas px py) !! Z.to_nat c.
Proof.
  intros Hx Hy Hc. unfold byteAt, canvasBytes.
  set (w := canvasWidth canvas) in *. set (h := canvasHeight canvas) in *.
  destruct (Z.ltb_spec ((py * w + px) * 4 + c) 0); [nia |].
  set (row := fun y =>
    flat_map (fun x => pixelBytes (canvasPixel canvas x y)) (upTo w)).
  assert (Hrow : forall y, length (row y) = (Z.to_nat w * 4)%nat).
  { intros y. unfold row.
    rewrite (length_flat_map_chunks _ 4%nat) by reflexivity.
    rewrite length_upTo. reflexivity. }
  replace (Z.to_nat ((py * w + px) * 4 + c))
    with (Z.to_nat py * (Z.to_nat w * 4) + (Z.to_nat px * 4 + Z.to_nat c))%nat
    by nia.
  unfold upTo.
  rewrite (lookup_flat_map_chunks row (Z.to_nat w * 4) Hrow) by nia.
  unfold row, upTo.
  rewrite (lookup_flat_map_chunks _ 4%nat) by (first [reflexivity | lia]).
  simpl. rewrite !Z2Nat.id by lia. reflexivity.
Qed.

Lemma canvasBytes_getPixel (canvas : Canvas) (px py : Z) :
  0 <= px < canvasWidth canvas -> 0 <= py < canvasHeight canvas ->
  getPixel (canvasBytes canvas) (canvasWidth canvas) px py
  = Some (canvasPixel canvas px py).
Proof.
  intros Hx Hy. unfold getPixel.
  pose proof (canvasBytes_byteAt canvas px py 0 Hx Hy ltac:(lia)) as H0.
  rewrite Z.add_0_r in H0.
  rewrite H0, !canvasBytes_byteAt by lia.
  destruct (canvasPixel canvas px py). reflexivity.
Qed.

(** ** Where the samples of a tile fall *)

Lemma sampleMargin_region (M : Z) :
  1 <= M -> 0 <= sampleMargin M /\ 1 <= sampleRegion M.
Proof.
  intros HM. unfold sampleRegion, sampleMargin, JS.floorDiv.
  set (m := Z.max 1 (JS.floor (inject_Z M * (2 # 10)))).
  assert (Hm : 1 <= m) by (unfold m; lia).
  destruct (Z.leb_spec M (m * 2)).
  - pose proof (Z.div_pos M 4 ltac:(lia) ltac:(lia)).
    pose proof (Z.mul_div_le M 4 ltac:(lia)).
    rewrite Z.max_r by lia. lia.
  - lia.
Qed.

Lemma sample_floor (origin k region s : Z) :
  0 < s ->
  JS.floor (inject_Z origin + (inject_Z k + (1 # 2)) * (inject_Z region / inject_Z s))
  = origin + ((2 * k + 1) * region) / (2 * s).
Proof.
  intros Hs. unfold JS.floor.
  replace (origin + (2 * k + 1) * region / (2 * s))
    with ((origin * (2 * s) + (2 * k + 1) * region) / (2 * s))
    by (rewrite Z.div_add_l by lia; reflexivity).
  rewrite Zdiv_Qdiv. apply Qfloor_comp.
  rewrite !inject_Z_plus, !inject_Z_mult, !inject_Z_plus, !inject_Z_mult.
  field. apply inject_Z_pos_neq0; assumption.
Qed.

Lemma sampleCoord_in_tile (dim tile M k : Z) :
  1 <= M -> 0 <= tile -> (tile + 1) * M <= dim ->
  0 <= k < samplesPerAxis M ->
  tile * M <= sampleCoord dim (tile * M + sampleMargin M) k (sampleStep M)
           < tile * M + M.
Proof.
  intros HM Ht Hfit Hk.
  destruct (sampleMargin_region M HM) as [Hmargin Hregion].
  pose proof (samplesPerAxis_range M) as Hs.
  unfold sampleCoord, sampleStep.
  rewrite sample_floor by lia.
  set (s := samplesPerAxis M) in *.
  set (region := sampleRegion M) in *.
  assert (Hlo : 0 <= (2 * k + 1) * region / (2 * s)).
  { apply Z.div_pos; nia. }
  assert (Hhi : (2 * k + 1) * region / (2 * s) < region).
  { apply Z.div_lt_upper_bound; nia. }
  assert (Hsum : sampleMargin M * 2 + region = M) by (unfold region, sampleRegion; lia).
  nia.
Qed.

(** ** The value of an entry *)

Lemma channelWithin_exact (V : Z) (value : JS.jsnum) :
  0 <= V <= 255 -> channelWithin V V value -> clampByte value 0 = V.
Proof.
  intros HV (q & -> & Hlo & Hhi). unfold clampByte. simpl.
  assert (Hq : (q == inject_Z V)%Q) by (apply Qle_antisym; assumption).
  assert (Hround : JS.round q = V).
  { rewrite <- (round_inject_Z V). unfold JS.round.
    apply Qfloor_comp. rewrite Hq. reflexivity. }
  rewrite Hround.
  destruct (Z.ltb_spec V 0); [lia |].
  destruct (Z.ltb_spec 255 V); lia.
Qed.

Lemma toFixed6_byte (V : Z) :
  0 <= V ->
  toFixed6 (inject_Z V / inject_Z 255) = (2 * (V * 1000000) + 255) / (2 * 255).
Proof.
  intros HV. unfold toFixed6.
  assert (Hnonneg : Qle_bool 0 (inject_Z V / inject_Z 255) = true).
  { apply Qle_bool_iff. apply Qle_shift_div_l; [reflexivity |].
    rewrite Qmult_0_l. change 0%Q with (inject_Z 0). rewrite <- Zle_Qle. lia. }
  rewrite Hnonneg.
  rewrite <- (round_div (V * 1000000) 255) by lia.
  unfold JS.round. apply Qfloor_comp.
  rewrite inject_Z_mult. field.
Qed.

Lemma frac_le (a b c d : Z) :
  0 < b -> 0 < d -> a * d <= c * b ->
  (inject_Z a / inject_Z b <= inject_Z c / inject_Z d)%Q.
Proof.
  intros Hb Hd Hle.
  assert (Hb' : (0 < inject_Z b)%Q)
    by (change 0%Q with (inject_Z 0); rewrite <- Zlt_Qlt; lia).
  assert (Hd' : (0 < inject_Z d)%Q)
    by (change 0%Q with (inject_Z 0); rewrite <- Zlt_Qlt; lia).
  apply Qle_shift_div_l; [exact Hd' |].
  assert (E : (inject_Z a / inject_Z b * inject_Z d
               == inject_Z (a * d) / inject_Z b)%Q)
    by (rewrite inject_Z_mult; field; apply inject_Z_pos_neq0; lia).
  rewrite E.
  apply Qle_shift_div_r; [exact Hb' |].
  rewrite <- inject_Z_mult, <- Zle_Qle. exact Hle.
Qed.

Lemma frac_sub (a b c d : Z) :
  0 < b -> 0 < d ->
  (inject_Z a / inject_Z b - inject_Z c / inject_Z d
   == inject_Z (a * d - c * b) / inject_Z (b * d))%Q.
Proof.
  intros Hb Hd. unfold Z.sub.
  rewrite inject_Z_plus, inject_Z_opp, !inject_Z_mult.
  field. split; apply inject_Z_pos_neq0; assumption.
Qed.

Lemma frac_add (a b c d : Z) :
  0 < b -> 0 < d ->
  (inject_Z a / inject_Z b + inject_Z c / inject_Z d
   == inject_Z (a * d + c * b) / inject_Z (b * d))%Q.
Proof.
  intros Hb Hd.
  rewrite inject_Z_plus, !inject_Z_mult.
  field. split; apply inject_Z_pos_neq0; assumption.
Qed.

(** The printed quantized colour of index [i] is within 1/255 of
    i / (N - 1). *)
Lemma entry_tolerance (i N : Z) :
  2 <= N -> 0 <= i < N ->
  withinTolerance (entryValue (toFixed6 (inject_Z (v i N) / inject_Z 255)))
                  (inject_Z i / inject_Z (N - 1)).
Proof.
  intros HN Hi.
  pose proof (v_range i N Hi) as HV.
  rewrite toFixed6_byte by lia.
  rewrite v_as_div in * by lia.
  set (d := N - 1) in *.
  assert (Hd : 0 < d) by (unfold d; lia).
  assert (Hid : i <= d) by (unfold d; lia).
  clearbody d.
  set (V := (2 * (i * 255) + d) / (2 * d)) in *.
  set (m := (2 * (V * 1000000) + 255) / (2 * 255)).
  assert (HV1 : 2 * d * V <= 2 * (i * 255) + d < 2 * d * V + 2 * d).
  { unfold V. split.
    - apply Z.mul_div_le. lia.
    - pose proof (Z.mul_succ_div_gt (2 * (i * 255) + d) (2 * d) ltac:(lia)).
      lia. }
  assert (Hm1 : 2 * 255 * m <= 2 * (V * 1000000) + 255 < 2 * 255 * m + 2 * 255).
  { unfold m. split.
    - apply Z.mul_div_le. lia.
    - pose proof (Z.mul_succ_div_gt (2 * (V * 1000000) + 255) (2 * 255) ltac:(lia)).
      lia. }
  clearbody V m.
  unfold withinTolerance, entryValue.
  change (1 # 255)%Q with (inject_Z 1 / inject_Z 255)%Q.
  split.
  - rewrite frac_sub by lia. apply frac_le; nia.
  - rewrite frac_add by lia. apply frac_le; nia.
Qed.

(** ** The sampler's loops *)

Lemma upTo_succ (k : Z) : 0 <= k -> upTo (k + 1) = upTo k ++ [k].
Proof.
  intros Hk. unfold upTo.
  replace (Z.to_nat (k + 1)) with (Datatypes.S (Z.to_nat k)) by lia.
  rewrite seq_S, map_app. simpl. rewrite Z2Nat.id by lia. reflexivity.
Qed.

Lemma upTo_lookup (k t : Z) : 0 <= t < k -> upTo k !! Z.to_nat t = Some t.
Proof.
  intros Ht. unfold upTo.
  rewrite list_lookup_fmap.
  assert (Hseq : seq 0 (Z.to_nat k) !! Z.to_nat t = Some (Z.to_nat t)).
  { apply lookup_seq. split; [reflexivity | lia]. }
  replace (map Z.of_nat (seq 0 (Z.to_nat k)) !! Z.to_nat t)
    with (Z.of_nat <$> seq 0 (Z.to_nat k) !! Z.to_nat t)
    by (symmetry; apply list_lookup_fmap).
  rewrite Hseq. simpl. rewrite Z2Nat.id by lia. reflexivity.
Qed.

Section CubeLoops.

Variables (img : ImageData) (N M : Z) (layout : Layout) (cancelRef : CancelRef).
Hypothesis HN : 1 <= N.

Let cancelledOnly (e : Error) : Prop :=
  e = Cancelled /\ exists n, cancelled cancelRef n = true.

(** One cell: the body of the innermost loop. *)
Lemma sampleCell_outcome (cb cg cr : Z) (st : CubeState) :
  0 <= cr < N -> 0 <= cg < N -> 0 <= cb < N ->
  written img N M layout (cr + cg * N + cb * (N * N)) st ->
  (exists st',
     sampleCell img N M layout cancelRef (N * N * N) cb cg cr st = Ok st' /\
     written img N M layout (cr + 1 + cg * N + cb * (N * N)) st') \/
  (exists e,
     sampleCell img N M layout cancelRef (N * N * N) cb cg cr st = Err e /\
     cancelledOnly e).
Proof.
  intros Hr Hg Hb Hst. unfold sampleCell.
  destruct (cancelled cancelRef (suspensions (cRun st))) eqn:Hc.
  { right. eexists. split; [reflexivity |]. split; [reflexivity |].
    eexists. exact Hc. }
  left.
  destruct (tileIndexToRGB_recompose (mkRGB cr cg cb) N HN) as [Hidx Hcell].
  { repeat split; simpl; lia. }
  unfold rgbToTileIndex in Hidx, Hcell. simpl in Hidx, Hcell.
  assert (Hnext : forall done run,
    written img N M layout (cr + 1 + cg * N + cb * (N * N))
      (mkCubeState
         (cLines st ++ [cellEntry img N M layout (mkRGB cr cg cb)]) done run)).
  { intros done run. unfold written in *. simpl.
    replace (cr + 1 + cg * N + cb * (N * N))
      with (cr + cg * N + cb * (N * N) + 1) by ring.
    rewrite upTo_succ, map_app by lia. simpl.
    rewrite Hcell, Hst, <- app_assoc. reflexivity. }
  assert (Hentry :
    Entry
      (toFixed6 (inject_Z (clampByte (colorR (sampleTileColor (imgData img)
         (imgWidth img) (imgHeight img)
         (if Layout_eqb layout wide then cr + cg * N else cr)
         (if Layout_eqb layout wide then cb else cg + cb * N) M)) 0) / inject_Z 255))
      (toFixed6 (inject_Z (clampByte (colorG (sampleTileColor (imgData img)
         (imgWidth img) (imgHeight img)
         (if Layout_eqb layout wide then cr + cg * N else cr)
         (if Layout_eqb layout wide then cb else cg + cb * N) M)) 0) / inject_Z 255))
      (toFixed6 (inject_Z (clampByte (colorB (sampleTileColor (imgData img)
         (imgWidth img) (imgHeight img)
         (if Layout_eqb layout wide then cr + cg * N else cr)
         (if Layout_eqb layout wide then cb else cg + cb * N) M)) 0) / inject_Z 255))
    = cellEntry img N M layout (mkRGB cr cg cb)).
  { unfold cellEntry, cellPos. destruct layout; reflexivity. }
  cbv zeta. rewrite Hentry.
  destruct (JS.rem (cDone st + 1) yieldEvery =? 0);
    eexists; (split; [reflexivity | apply Hnext]).
Qed.

Lemma cubeLoops_outcome :
  (exists st',
     forUpTo N
       (fun b => forUpTo N
          (fun g => forUpTo N
             (fun r => sampleCell img N M layout cancelRef (N * N * N) b g r)))
       (mkCubeState (cubeHeader N M layout) 0 startRun) = Ok st' /\
     written img N M layout (N * N * N) st') \/
  (exists e,
     forUpTo N
       (fun b => forUpTo N
          (fun g => forUpTo N
             (fun r => sampleCell img N M layout cancelRef (N * N * N) b g r)))
       (mkCubeState (cubeHeader N M layout) 0 startRun) = Err e /\
     cancelledOnly e).
Proof.
  set (body := fun b => forUpTo N
          (fun g => forUpTo N
             (fun r => sampleCell img N M layout cancelRef (N * N * N) b g r))).
  destruct (forUpTo_outcome
              (fun cb st => written img N M layout (cb * (N * N)) st)
              cancelledOnly body N
              (mkCubeState (cubeHeader N M layout) 0 startRun))
    as [(st' & Hrun & Hst') | Herr].
  - lia.
  - unfold written. simpl. reflexivity.
  - intros cb st Hb Hst. unfold body.
    replace ((cb + 1) * (N * N)) with (N * N + cb * (N * N)) by ring.
    apply (forUpTo_outcome
             (fun cg st => written img N M layout (cg * N + cb * (N * N)) st)
             cancelledOnly); [lia | |].
    + rewrite Z.mul_0_l, Z.add_0_l. exact Hst.
    + intros cg st1 Hg Hst1.
      replace ((cg + 1) * N + cb * (N * N)) with (N + cg * N + cb * (N * N)) by ring.
      apply (forUpTo_outcome
               (fun cr st => written img N M layout (cr + cg * N + cb * (N * N)) st)
               cancelledOnly); [lia | |].
      * rewrite Z.add_0_l. exact Hst1.
      * intros cr st2 Hr Hst2.
        apply sampleCell_outcome; assumption.
  - left. exists st'. split; [exact Hrun |].
    replace (N * N * N) with (N * (N * N)) by ring. exact Hst'.
  - right. exact Herr.
Qed.

Lemma generateCubeLut_outcome :
  (exists lut,
     generateCubeLut img (mkGeometry N M layout) cancelRef = Ok lut /\
     cubeLines lut
     = cubeHeader N M layout
       ++ map (fun t => cellEntry img N M layout (tileIndexToRGB t N))
              (upTo (N * N * N))) \/
  (exists e,
     generateCubeLut img (mkGeometry N M layout) cancelRef = Err e /\
     cancelledOnly e).
Proof.
  unfold generateCubeLut. fold (cubeHeader N M layout).
  destruct cubeLoops_outcome as [(st' & Hrun & Hst') | (e & Hrun & He)];
    rewrite Hrun.
  - left. eexists. split; [reflexivity |]. exact Hst'.
  - right. exists e. split; [reflexivity | exact He].
Qed.

Lemma written_lookup (lines : list CubeLine) (c : RGB) :
  lines
  = cubeHeader N M layout
    ++ map (fun t => cellEntry img N M layout (tileIndexToRGB t N))
           (upTo (N * N * N)) ->
  inLattice N c ->
  length lines = Z.to_nat (5 + N * N * N) /\
  lines !! Z.to_nat (5 + rgbToTileIndex c N) = Some (cellEntry img N M layout c).
Proof.
  intros -> Hc.
  destruct (tileIndexToRGB_recompose c N HN Hc) as [Hidx Hcell].
  split.
  - rewrite length_app, length_map, length_upTo. simpl. nia.
  - rewrite lookup_app_r by (simpl; lia).
    replace (Z.to_nat (5 + rgbToTileIndex c N) - length (cubeHeader N M layout))%nat
      with (Z.to_nat (rgbToTileIndex c N)) by (simpl; lia).
    replace (map (fun t => cellEntry img N M layout (tileIndexToRGB t N))
                 (upTo (N * N * N)) !! Z.to_nat (rgbToTileIndex c N))
      with ((fun t => cellEntry img N M layout (tileIndexToRGB t N))
              <$> upTo (N * N * N) !! Z.to_nat (rgbToTileIndex c N))
      by (symmetry; apply list_lookup_fmap).
    rewrite upTo_lookup by lia. simpl. rewrite Hcell. reflexivity.
Qed.

End CubeLoops.

(** ** Sampling the identity pattern *)

Lemma cellPos_fits (N M : Z) (layout : Layout) (c : RGB) :
  1 <= N -> 1 <= M -> inLattice N c ->
  0 <= xTile (cellPos N layout c) /\
  (xTile (cellPos N layout c) + 1) * M <= width (computeDims N M layout) /\
  0 <= yTile (cellPos N layout c) /\
  (yTile (cellPos N layout c) + 1) * M <= height (computeDims N M layout).
Proof.
  intros HN HM (Hr & Hg & Hb).
  assert (Hrg : r c + g c * N + 1 <= N * N) by nia.
  assert (Hgb : g c + b c * N + 1 <= N * N) by nia.
  unfold cellPos, computeDims.
  destruct layout; simpl; repeat split;
    first [lia | nia | apply Z.mul_le_mono_nonneg_r; lia].
Qed.

Section PatternSampling.

Variables (N M : Z) (layout : Layout) (st : PatternState).
Hypothesis HN : 1 <= N.
Hypothesis HM : 1 <= M.

Let W := width (computeDims N M layout).
Let H := height (computeDims N M layout).
Let img := mkImageData (canvasBytes (pCanvas st)) W H.

Hypothesis Hpainted : painted N M layout W H (N * N * N) st.

Lemma pattern_samples (c : RGB) (yy xx : Z) :
  inLattice N c ->
  0 <= yy < samplesPerAxis M -> 0 <= xx < samplesPerAxis M ->
  getPixel (imgData img) (imgWidth img)
    (sampleX (imgWidth img) (xTile (cellPos N layout c)) M xx)
    (sampleY (imgHeight img) (yTile (cellPos N layout c)) M yy)
  = Some (tileColor N c).
Proof.
  intros Hc Hyy Hxx. simpl.
  destruct Hpainted as (HW & HH & Hdone).
  destruct (cellPos_fits N M layout c HN HM Hc) as (Hx0 & Hx1 & Hy0 & Hy1).
  fold W in Hx1. fold H in Hy1.
  pose proof (sampleCoord_in_tile W (xTile (cellPos N layout c)) M xx
                HM Hx0 Hx1 Hxx) as Hx.
  pose proof (sampleCoord_in_tile H (yTile (cellPos N layout c)) M yy
                HM Hy0 Hy1 Hyy) as Hy.
  fold (sampleX W (xTile (cellPos N layout c)) M xx) in Hx.
  fold (sampleY H (yTile (cellPos N layout c)) M yy) in Hy.
  destruct (tileIndexToRGB_recompose c N HN Hc) as [Hidx Hcell].
  rewrite <- HW at 1.
  rewrite canvasBytes_getPixel by nia.
  f_equal. rewrite <- Hcell.
  apply Hdone; [exact Hidx |].
  rewrite tileCoords_cellPos, Hcell.
  split; assumption.
Qed.

Lemma pattern_cellEntry (c : RGB) :
  inLattice N c ->
  cellEntry img N M layout c
  = Entry (toFixed6 (inject_Z (v (r c) N) / inject_Z 255))
          (toFixed6 (inject_Z (v (g c) N) / inject_Z 255))
          (toFixed6 (inject_Z (v (b c) N) / inject_Z 255)).
Proof.
  intros Hc. pose proof Hc as (Hr & Hg & Hb).
  destruct (sampleTileColor_within (imgData img) (imgWidth img) (imgHeight img)
              (xTile (cellPos N layout c)) (yTile (cellPos N layout c)) M
              (v (r c) N) (v (r c) N) (v (g c) N) (v (g c) N)
              (v (b c) N) (v (b c) N))
    as (_ & HR & HG & HB).
  { intros yy xx Hyy Hxx. exists (tileColor N c).
    split; [apply pattern_samples; assumption |].
    unfold tileColor. simpl. lia. }
  unfold cellEntry. cbv zeta.
  rewrite (channelWithin_exact _ _ (v_range _ _ Hr) HR).
  rewrite (channelWithin_exact _ _ (v_range _ _ Hg) HG).
  rewrite (channelWithin_exact _ _ (v_range _ _ Hb) HB).
  reflexivity.
Qed.

End PatternSampling.

(** What a successful generation returns. *)
Lemma generateStep1Pattern_outcome (host : Host) (N M : Z) (layout : Layout)
    (cancelRef : CancelRef) :
  1 <= N -> 1 <= M ->
  let W := width (computeDims N M layout) in
  let H := height (computeDims N M layout) in
  W <= CANVAS_MAX_DIM host -> H <= CANVAS_MAX_DIM host ->
  (exists st,
     generateStep1Pattern host N M layout cancelRef
     = Ok (mkPng (mkImageData (canvasBytes (pCanvas st)) W H)) /\
     painted N M layout W H (N * N * N) st) \/
  (exists e,
     generateStep1Pattern host N M layout cancelRef = Err e /\
     patternFailure host cancelRef e).
Proof.
  intros HN HM W H HW HH. unfold generateStep1Pattern.
  unfold W, H, computeDims in *. simpl in *.
  rewrite (proj2 (Z.ltb_ge _ _) HW), (proj2 (Z.ltb_ge _ _) HH). simpl.
  destruct (hasContext2D host) eqn:Hctx; simpl.
  2:{ right. eexists. split; [reflexivity |]. left. split; [reflexivity | exact Hctx]. }
  match goal with
  | |- context [createCanvas ?w ?h] =>
    destruct (paintLoop_outcome N M layout cancelRef w h HN HM)
      as [(st & Hrun & Hst) | (e & Hrun & He)]
  end; rewrite Hrun.
  - unfold canvasToPngBlob. destruct (encodesPng host) eqn:Henc.
    + left. exists st. destruct Hst as (Hw & Hh & Hdone).
      rewrite Hw, Hh. split; [reflexivity |].
      split; [exact Hw |]. split; [exact Hh | exact Hdone].
    + right. eexists. split; [reflexivity |].
      right. left. split; [reflexivity | exact Henc].
  - right. exists e. split; [reflexivity |]. right. right. exact He.
Qed.

Lemma generateStep1Pattern_within_limit (host : Host) (N M : Z) (layout : Layout)
    (cancelRef : CancelRef) (png : Png) :
  generateStep1Pattern host N M layout cancelRef = Ok png ->
  width (computeDims N M layout) <= CANVAS_MAX_DIM host /\
  height (computeDims N M layout) <= CANVAS_MAX_DIM host.
Proof.
  unfold generateStep1Pattern, computeDims. simpl.
  match goal with
  | |- context [(?a || ?b)%bool] => destruct a eqn:Ha; destruct b eqn:Hb
  end; simpl; try discriminate.
  intros _. bool_to_prop. lia.
Qed.

(** C2. Generating the identity pattern with (N, M, layout), N >= 2,
    M >= 1, and sampling the untransformed buffer with the same geometry
    gives a .cube whose line for the lattice cell (r, g, b), at position
    r + g*N + b*N^2 after the five header lines, holds three values each
    within 1/255 of r/(N-1), g/(N-1), b/(N-1); and on a host that takes the
    dimensions, with neither operation cancelled, both operations do
    return. *)
Theorem identity_roundtrip (host : Host) (N M : Z) (layout : Layout)
    (cancelGen cancelLut : CancelRef) :
  2 <= N -> 1 <= M ->
  (forall png lut,
     generateStep1Pattern host N M layout cancelGen = Ok png ->
     generateCubeLut (loadPngToImageData png) (mkGeometry N M layout) cancelLut
     = Ok lut ->
     length (cubeLines lut) = Z.to_nat (5 + N * N * N) /\
     forall cr cg cb, 0 <= cr < N -> 0 <= cg < N -> 0 <= cb < N ->
       exists rr gg bb,
         cubeLines lut !! Z.to_nat (5 + (cr + cg * N + cb * (N * N)))
         = Some (Entry rr gg bb) /\
         withinTolerance (entryValue rr) (inject_Z cr / inject_Z (N - 1)) /\
         withinTolerance (entryValue gg) (inject_Z cg / inject_Z (N - 1)) /\
         withinTolerance (entryValue bb) (inject_Z cb / inject_Z (N - 1))) /\
  (width (computeDims N M layout) <= CANVAS_MAX_DIM host ->
   height (computeDims N M layout) <= CANVAS_MAX_DIM host ->
   hasContext2D host = true -> encodesPng host = true ->
   (forall n, cancelled cancelGen n = false) ->
   (forall n, cancelled cancelLut n = false) ->
   exists png lut,
     generateStep1Pattern host N M layout cancelGen = Ok png /\
     generateCubeLut (loadPngToImageData png) (mkGeometry N M layout) cancelLut
     = Ok lut).
Proof.
  intros HN HM. split.
  - intros png lut Hgen Hlut.
    destruct (generateStep1Pattern_within_limit host N M layout cancelGen png Hgen)
      as [HW HH].
    destruct (generateStep1Pattern_outcome host N M layout cancelGen
                ltac:(lia) HM HW HH)
      as [(st & Hgen' & Hpainted) | (e & Hgen' & _)]; [| congruence].
    assert (Hpng : png = mkPng (mkImageData (canvasBytes (pCanvas st))
                                  (width (computeDims N M layout))
                                  (height (computeDims N M layout))))
      by congruence.
    subst png. unfold loadPngToImageData in Hlut. cbn [pngImage] in Hlut.
    set (img := mkImageData (canvasBytes (pCanvas st))
                  (width (computeDims N M layout))
                  (height (computeDims N M layout))) in *.
    destruct (generateCubeLut_outcome img N M layout cancelLut ltac:(lia))
      as [(lut' & Hlut' & Hlines) | (e & Hlut' & _)];
      [| rewrite Hlut in Hlut'; discriminate].
    rewrite Hlut in Hlut'. injection Hlut' as <-.
    split.
    + apply (written_lookup img N M layout ltac:(lia) _ (mkRGB 0 0 0) Hlines).
      repeat split; simpl; lia.
    + intros cr cg cb Hr Hg Hb.
      assert (Hc : inLattice N (mkRGB cr cg cb)) by (repeat split; simpl; lia).
      destruct (written_lookup img N M layout ltac:(lia) _ _ Hlines Hc) as [_ Hentry].
      unfold img in Hentry.
      rewrite (pattern_cellEntry N M layout st ltac:(lia) HM Hpainted _ Hc) in Hentry.
      unfold rgbToTileIndex in Hentry. simpl in Hentry.
      eexists _, _, _. split; [exact Hentry |].
      repeat split; apply entry_tolerance; lia.
  - intros HW HH Hctx Henc HcancelGen HcancelLut.
    destruct (generateStep1Pattern_outcome host N M layout cancelGen
                ltac:(lia) HM HW HH)
      as [(st & Hgen & _) | (e & _ & [(_ & Hf) | [(_ & Hf) | (_ & n & Hf)]])];
      try congruence; try (rewrite HcancelGen in Hf; discriminate).
    eexists.
    destruct (generateCubeLut_outcome
                (mkImageData (canvasBytes (pCanvas st))
                   (width (computeDims N M layout))
                   (height (computeDims N M layout)))
                N M layout cancelLut ltac:(lia))
      as [(lut & Hlut & _) | (e & _ & _ & n & Hf)].
    + exists lut. split; [exact Hgen | exact Hlut].
    + rewrite HcancelLut in Hf. discriminate.
Qed.

Lemma identity_roundtrip_witness :
  exists png lut,
    generateStep1Pattern (mkHost 16384 true true) 3 2 wide
      (mkCancelRef (fun _ => false)) = Ok png /\
    generateCubeLut (loadPngToImageData png) (mkGeometry 3 2 wide)
      (mkCancelRef (fun _ => false)) = Ok lut.
Proof.
  apply (proj2 (identity_roundtrip (mkHost 16384 true true) 3 2 wide
                  (mkCancelRef (fun _ => false)) (mkCancelRef (fun _ => false))
                  ltac:(lia) ltac:(lia)));
    simpl; first [lia | reflexivity | intros; reflexivity].
Defined.

(** * Further properties of the tool *)

(** ** The canvas limit probe *)

Lemma sar_1 (a : Z) : JSNum.sar a 1 = a / 2.
Proof. unfold JSNum.sar. rewrite Z.shiftr_div_pow2 by lia. reflexivity. Qed.

(** With enough rounds the search ends, on [best] or on a dimension of
    the interval that the canvas keeps. *)
Lemma maxForLoop_result (accepts : Z -> bool) :
  forall (fuel : nat) (lo hi best : Z),
    hi - lo + 1 < 2 ^ Z.of_nat fuel ->
    exists found,
      maxForLoop fuel accepts lo hi best = Some found /\
      (found = best \/ (lo <= found <= hi /\ accepts found = true)).
Proof.
  induction fuel as [| fuel IH]; intros lo hi best Hsize; simpl.
  - destruct (Z.ltb_spec hi lo); [| simpl in Hsize; lia].
    exists best. split; [reflexivity | left; reflexivity].
  - destruct (Z.ltb_spec hi lo).
    { exists best. split; [reflexivity | left; reflexivity]. }
    rewrite sar_1.
    rewrite Nat2Z.inj_succ, Z.pow_succ_r in Hsize by lia.
    pose proof (Z.div_mod (lo + hi) 2 ltac:(lia)) as Hdm.
    pose proof (Z.mod_pos_bound (lo + hi) 2 ltac:(lia)) as Hm.
    set (mid := (lo + hi) / 2) in *.
    destruct (accepts mid) eqn:Hacc.
    + destruct (IH (mid + 1) hi mid ltac:(lia)) as (found & Hrun & Hfound).
      exists found. split; [exact Hrun |]. right.
      destruct Hfound as [-> | [Hr Ha]]; (split; [lia | assumption]).
    + destruct (IH lo (mid - 1) best ltac:(lia)) as (found & Hrun & Hfound).
      exists found. split; [exact Hrun |].
      destruct Hfound as [-> | [Hr Ha]]; [left; reflexivity | right].
      split; [lia | assumption].
Qed.

(** On a canvas that keeps exactly the dimensions up to [limit], the
    search ends on the limit, cut to the probed range. *)
Lemma maxForLoop_threshold (accepts : Z -> bool) (limit : Z) :
  (forall d, 1 <= d <= CANVAS_DIM_PROBE_MAX -> accepts d = (d <=? limit)) ->
  forall (fuel : nat) (lo hi best : Z),
    hi - lo + 1 < 2 ^ Z.of_nat fuel ->
    1 <= lo -> hi <= CANVAS_DIM_PROBE_MAX -> lo <= hi + 1 ->
    best = Z.max 1 (lo - 1) ->
    (lo = 1 \/ lo - 1 <= limit) ->
    (hi = CANVAS_DIM_PROBE_MAX \/ limit <= hi) ->
    maxForLoop fuel accepts lo hi best
    = Some (Z.max 1 (Z.min limit CANVAS_DIM_PROBE_MAX)).
Proof.
  intros Hacc. unfold CANVAS_DIM_PROBE_MAX in *.
  induction fuel as [| fuel IH]; intros lo hi best Hsize Hlo Hhi Hle Hbest Hbelow Habove;
    simpl.
  - destruct (Z.ltb_spec hi lo); [| simpl in Hsize; lia].
    f_equal. lia.
  - destruct (Z.ltb_spec hi lo).
    { f_equal. lia. }
    rewrite sar_1.
    rewrite Nat2Z.inj_succ, Z.pow_succ_r in Hsize by lia.
    pose proof (Z.div_mod (lo + hi) 2 ltac:(lia)) as Hdm.
    pose proof (Z.mod_pos_bound (lo + hi) 2 ltac:(lia)) as Hm.
    set (mid := (lo + hi) / 2) in *.
    rewrite (Hacc mid) by lia.
    destruct (Z.leb_spec mid limit).
    + apply IH; lia.
    + apply IH; lia.
Qed.

Lemma probe_rounds (fuel : nat) :
  (17 <= fuel)%nat -> CANVAS_DIM_PROBE_MAX - 1 + 1 < 2 ^ Z.of_nat fuel.
Proof.
  intros Hfuel. unfold CANVAS_DIM_PROBE_MAX.
  apply Z.lt_le_trans with (2 ^ 17); [lia |].
  apply Z.pow_le_mono_r; lia.
Qed.

Lemma maxFor_result (fuel : nat) (accepts : Z -> bool) :
  (17 <= fuel)%nat ->
  exists best,
    maxFor fuel accepts = Some best /\
    1 <= best <= CANVAS_DIM_PROBE_MAX /\
    (best = 1 \/ accepts best = true).
Proof.
  intros Hfuel.
  destruct (maxForLoop_result accepts fuel 1 CANVAS_DIM_PROBE_MAX 1
              (probe_rounds fuel Hfuel))
    as (found & Hrun & Hfound).
  exists found. split; [exact Hrun |].
  unfold CANVAS_DIM_PROBE_MAX in *.
  destruct Hfound as [-> | [Hr Ha]]; (split; [lia |]); auto.
Qed.

Lemma maxFor_threshold (fuel : nat) (accepts : Z -> bool) (limit : Z) :
  (17 <= fuel)%nat ->
  (forall d, 1 <= d <= CANVAS_DIM_PROBE_MAX -> accepts d = (d <=? limit)) ->
  maxFor fuel accepts = Some (Z.max 1 (Z.min limit CANVAS_DIM_PROBE_MAX)).
Proof.
  intros Hfuel Hacc. unfold maxFor.
  apply (maxForLoop_threshold accepts limit Hacc).
  - apply probe_rounds. exact Hfuel.
  - lia.
  - lia.
  - unfold CANVAS_DIM_PROBE_MAX. lia.
  - reflexivity.
  - left. reflexivity.
  - left. reflexivity.
Qed.

(** X1. [maxFor], given at least 17 rounds, always ends, on a dimension
    between 1 and 65536 that is 1 or one the canvas keeps; and when the
    canvas keeps exactly the dimensions up to some limit, it returns that
    limit, cut to the range 1..65536. *)
Theorem maxFor_finds_limit (fuel : nat) (accepts : Z -> bool) :
  (17 <= fuel)%nat ->
  (exists best,
     maxFor fuel accepts = Some best /\
     1 <= best <= CANVAS_DIM_PROBE_MAX /\
     (best = 1 \/ accepts best = true)) /\
  (forall limit,
     (forall d, 1 <= d <= CANVAS_DIM_PROBE_MAX -> accepts d = (d <=? limit)) ->
     maxFor fuel accepts = Some (Z.max 1 (Z.min limit CANVAS_DIM_PROBE_MAX))).
Proof.
  intros Hfuel. split.
  - apply maxFor_result. exact Hfuel.
  - intros limit Hacc. apply maxFor_threshold; assumption.
Qed.

Lemma maxFor_finds_limit_witness :
  maxFor 17 (fun d => d <=? 16384) = Some (Z.max 1 (Z.min 16384 CANVAS_DIM_PROBE_MAX)).
Proof.
  apply (proj2 (maxFor_finds_limit 17 (fun d => d <=? 16384) ltac:(lia)) 16384).
  intros d _. reflexivity.
Defined.

(** X2. On a host whose canvas keeps exactly the widths up to one limit
    and the heights up to another (both at least 1), the probed value is
    the smaller limit, cut to 65536, and every width and height from 1 up
    to the probed value is one the canvas keeps. *)
Theorem detectCanvasMaxDimension_sound (fuel : nat) (c : CanvasProbe)
    (limitW limitH : Z) :
  (17 <= fuel)%nat ->
  1 <= limitW -> 1 <= limitH ->
  (forall d, 1 <= d <= CANVAS_DIM_PROBE_MAX -> keepsWidth c d = (d <=? limitW)) ->
  (forall d, 1 <= d <= CANVAS_DIM_PROBE_MAX -> keepsHeight c d = (d <=? limitH)) ->
  detectCanvasMaxDimension fuel c
  = Some (Z.min (Z.min limitW limitH) CANVAS_DIM_PROBE_MAX) /\
  forall w h,
    1 <= w <= Z.min (Z.min limitW limitH) CANVAS_DIM_PROBE_MAX ->
    1 <= h <= Z.min (Z.min limitW limitH) CANVAS_DIM_PROBE_MAX ->
    keepsWidth c w = true /\ keepsHeight c h = true.
Proof.
  intros Hfuel HW HH HkW HkH. split.
  - unfold detectCanvasMaxDimension.
    rewrite (maxFor_threshold fuel (keepsWidth c) limitW Hfuel HkW).
    rewrite (maxFor_threshold fuel (keepsHeight c) limitH Hfuel HkH).
    f_equal. unfold CANVAS_DIM_PROBE_MAX. lia.
  - intros w h Hw Hh. unfold CANVAS_DIM_PROBE_MAX in *.
    rewrite HkW, HkH by lia.
    split; apply Z.leb_le; lia.
Qed.

Lemma detectCanvasMaxDimension_sound_witness :
  detectCanvasMaxDimension 17
    (mkCanvasProbe (fun d => d <=? 32767) (fun d => d <=? 16384))
  = Some (Z.min (Z.min 32767 16384) CANVAS_DIM_PROBE_MAX).
Proof.
  apply (detectCanvasMaxDimension_sound 17
           (mkCanvasProbe (fun d => d <=? 32767) (fun d => d <=? 16384))
           32767 16384);
    first [lia | intros d _; reflexivity].
Defined.

(** ** Hexadecimal bytes *)

Lemma clampByte_range (n : JS.jsnum) (fallback : Z) :
  0 <= fallback <= 255 -> 0 <= clampByte n fallback <= 255.
Proof.
  intros Hf. unfold clampByte.
  destruct n as [q | | |]; simpl; try exact Hf.
  destruct (Z.ltb_spec (JS.round q) 0); [lia |].
  destruct (Z.ltb_spec 255 (JS.round q)); lia.
Qed.

Lemma clampByte_byte (z fallback : Z) :
  0 <= z <= 255 -> clampByte (JS.ofZ z) fallback = z.
Proof.
  intros Hz. unfold clampByte, JS.ofZ. simpl. rewrite round_inject_Z.
  destruct (Z.ltb_spec z 0); [lia |].
  destruct (Z.ltb_spec 255 z); lia.
Qed.

Lemma upTo_In (n z : Z) : 0 <= z < n -> In z (upTo n).
Proof.
  intros Hz. unfold upTo. apply in_map_iff.
  exists (Z.to_nat z). split; [lia |]. apply in_seq. lia.
Qed.

(** Every byte is written as its two digits, and read back. *)
Lemma hex_bytes_checked :
  forallb
    (fun byte =>
       String.eqb (toHex2 (JS.ofZ byte))
                  (String (hexDigitUpper (byte / 16))
                     (String (hexDigitUpper (byte mod 16)) EmptyString))
       && match parseHex2 (toHex2 (JS.ofZ byte)) with
          | Some value => value =? byte
          | None => false
          end)
    (upTo 256)
  = true.
Proof. vm_compute. reflexivity. Qed.

Lemma toHex2_byte (byte : Z) :
  0 <= byte <= 255 ->
  toHex2 (JS.ofZ byte)
  = String (hexDigitUpper (byte / 16))
      (String (hexDigitUpper (byte mod 16)) EmptyString) /\
  parseHex2 (toHex2 (JS.ofZ byte)) = Some byte.
Proof.
  intros Hb.
  pose proof (proj1 (forallb_forall _ _) hex_bytes_checked byte
                (upTo_In 256 byte ltac:(lia))) as Hcheck.
  apply andb_prop in Hcheck. destruct Hcheck as [Hs Hp].
  apply String.eqb_eq in Hs. split; [exact Hs |].
  destruct (parseHex2 (toHex2 (JS.ofZ byte))) as [value |]; [| discriminate].
  apply Z.eqb_eq in Hp. congruence.
Qed.

Lemma toHex2_clamped (n : JS.jsnum) :
  toHex2 n = toHex2 (JS.ofZ (clampByte n 0)).
Proof.
  unfold toHex2.
  rewrite (clampByte_byte (clampByte n 0) 0) by (apply clampByte_range; lia).
  reflexivity.
Qed.

(** X3. Whatever number it is given, NaN and the infinities included,
    [toHex2] writes exactly two characters, and [parseHex2] reads them
    back as the number rounded and clamped to a byte. *)
Theorem parseHex2_toHex2 (n : JS.jsnum) :
  String.length (toHex2 n) = 2%nat /\
  parseHex2 (toHex2 n) = Some (clampByte n 0).
Proof.
  rewrite toHex2_clamped.
  destruct (toHex2_byte (clampByte n 0)) as [Hs Hp].
  - apply clampByte_range. lia.
  - rewrite Hp. rewrite Hs. split; reflexivity.
Qed.

Lemma hexValue_digit (c : ascii) (d : Z) :
  hexValue c = Some d -> 0 <= d <= 15 /\ hexDigitUpper d = upperLetter c.
Proof.
  destruct c as [[] [] [] [] [] [] [] []]; intros H; vm_compute in H;
    try discriminate; injection H as <-; (split; [lia | reflexivity]).
Qed.

(** X4. A string [parseHex2] accepts is, once trimmed, two characters
    long; the value read is a byte, and [toHex2] writes it back as the
    trimmed string in upper case. *)
Theorem toHex2_parseHex2 (s : string) (value : Z) :
  parseHex2 s = Some value ->
  String.length (trim s) = 2%nat /\
  0 <= value <= 255 /\
  toHex2 (JS.ofZ value) = upperLetters (trim s).
Proof.
  unfold parseHex2. cbv zeta.
  destruct (trim s) as [| hi [| lo [| c rest]]]; simpl; try discriminate.
  destruct (hexValue hi) as [dh |] eqn:Hh; [| discriminate].
  destruct (hexValue lo) as [dl |] eqn:Hl; [| discriminate].
  simpl. intros [= <-].
  destruct (hexValue_digit hi dh Hh) as [Rh Uh].
  destruct (hexValue_digit lo dl Hl) as [Rl Ul].
  split; [reflexivity |]. split; [lia |].
  destruct (toHex2_byte (16 * (16 * 0 + dh) + dl) ltac:(lia)) as [Hs _].
  rewrite Hs, <- Uh, <- Ul.
  replace ((16 * (16 * 0 + dh) + dl) / 16) with dh
    by (apply Z.div_unique with dl; lia).
  replace ((16 * (16 * 0 + dh) + dl) mod 16) with dl
    by (apply Z.mod_unique with dh; lia).
  reflexivity.
Qed.

Lemma toHex2_parseHex2_witness :
  String.length (trim " fF ") = 2%nat /\
  0 <= 255 <= 255 /\
  toHex2 (JS.ofZ 255) = upperLetters (trim " fF ").
Proof. apply (toHex2_parseHex2 " fF " 255). reflexivity. Defined.

(** ** Rounding to a byte *)

Lemma round_mono (p q : Q) : (p <= q)%Q -> JS.round p <= JS.round q.
Proof.
  intros Hpq. unfold JS.round. apply Qfloor_resp_le.
  apply Qplus_le_l. exact Hpq.
Qed.

Lemma clampByte_mono (p q : Q) (fallback : Z) :
  (p <= q)%Q -> clampByte (JS.Num p) fallback <= clampByte (JS.Num q) fallback.
Proof.
  intros Hpq. pose proof (round_mono p q Hpq) as Hr.
  unfold clampByte. simpl.
  destruct (Z.ltb_spec (JS.round p) 0); destruct (Z.ltb_spec (JS.round q) 0);
    destruct (Z.ltb_spec 255 (JS.round p)); destruct (Z.ltb_spec 255 (JS.round q));
    lia.
Qed.

Lemma clampByte_near (q : Q) (fallback : Z) :
  (0 <= q)%Q -> (q <= 255)%Q ->
  (q - (1 # 2) < inject_Z (clampByte (JS.Num q) fallback))%Q /\
  (inject_Z (clampByte (JS.Num q) fallback) <= q + (1 # 2))%Q.
Proof.
  intros H0 H255.
  assert (Hlo : 0 <= JS.round q).
  { rewrite <- (round_inject_Z 0). apply round_mono. exact H0. }
  assert (Hhi : JS.round q <= 255).
  { rewrite <- (round_inject_Z 255). apply round_mono. exact H255. }
  unfold clampByte. simpl.
  destruct (Z.ltb_spec (JS.round q) 0); [lia |].
  destruct (Z.ltb_spec 255 (JS.round q)); [lia |].
  apply round_nearest.
Qed.

(** X5. [clampByte] always yields a byte when its fallback is one, leaves
    bytes as they are, is monotone on finite numbers, and on a finite
    number between 0 and 255 yields a byte at most 1/2 away from it. *)
Theorem clampByte_is_nearest_byte (fallback : Z) :
  0 <= fallback <= 255 ->
  (forall n, 0 <= clampByte n fallback <= 255) /\
  (forall z, 0 <= z <= 255 -> clampByte (JS.ofZ z) fallback = z) /\
  (forall p q, (p <= q)%Q ->
     clampByte (JS.Num p) fallback <= clampByte (JS.Num q) fallback) /\
  (forall q, (0 <= q)%Q -> (q <= 255)%Q ->
     (q - (1 # 2) < inject_Z (clampByte (JS.Num q) fallback))%Q /\
     (inject_Z (clampByte (JS.Num q) fallback) <= q + (1 # 2))%Q).
Proof.
  intros Hf. split; [| split; [| split]].
  - intros n. apply clampByte_range. exact Hf.
  - intros z Hz. apply clampByte_byte. exact Hz.
  - intros p q Hpq. apply clampByte_mono. exact Hpq.
  - intros q H0 H255. apply clampByte_near; assumption.
Qed.

Lemma clampByte_is_nearest_byte_witness :
  clampByte (JS.ofZ 200) 0 = 200 /\
  clampByte (JS.Num (1 # 3)) 0 <= clampByte (JS.Num (5 # 2)) 0.
Proof.
  destruct (clampByte_is_nearest_byte 0 ltac:(lia)) as (_ & Hid & Hmono & _).
  split.
  - apply Hid. lia.
  - apply Hmono. unfold Qle. simpl. lia.
Defined.

(** ** Quantization, further *)

Lemma v_step (i N : Z) : 2 <= N <= 256 -> v i N < v (i + 1) N.
Proof.
  intros HN. rewrite !v_as_div by lia.
  set (d := N - 1). assert (Hd : 1 <= d <= 255) by (unfold d; lia).
  apply Z.lt_le_trans with ((2 * (i * 255) + d + 1 * (2 * d)) / (2 * d)).
  - rewrite Z.div_add by lia. lia.
  - apply Z.div_le_mono; lia.
Qed.

Lemma v_strict_or_tie (N k : Z) :
  0 <= k ->
  (forall i, 0 <= i < k -> v i N < v (i + 1) N) \/
  (exists i, 0 <= i < k /\ v i N = v (i + 1) N).
Proof.
  intros Hk. pattern k. apply natlike_ind; [| | exact Hk].
  - left. intros i Hi. lia.
  - intros x Hx [Hall | (i & Hi & Htie)].
    + pose proof (v_mono N x (x + 1) ltac:(lia)) as Hle.
      destruct (Z.eq_dec (v x N) (v (x + 1) N)) as [Heq | Hne].
      * right. exists x. split; [lia | exact Heq].
      * left. intros i Hi.
        destruct (Z.eq_dec i x) as [-> | Hix]; [lia | apply Hall; lia].
    + right. exists i. split; [lia | exact Htie].
Qed.

Lemma v_strict_lower (N k : Z) :
  2 <= N -> 0 <= k ->
  (forall i, 0 <= i < k -> v i N < v (i + 1) N) -> k <= v k N.
Proof.
  intros HN Hk. pattern k. apply natlike_ind; [| | exact Hk].
  - intros _. rewrite v_zero by lia. lia.
  - intros x Hx IH Hall. unfold Z.succ in *.
    pose proof (IH ltac:(intros i Hi; apply Hall; lia)).
    pose proof (Hall x ltac:(lia)). lia.
Qed.

(** X6. For a lattice of 2 to 256 levels the quantization is strictly
    increasing, so distinct levels get distinct bytes; from 257 levels on
    two neighbouring levels share a byte. *)
Theorem v_strict_up_to_256 (N : Z) :
  (2 <= N <= 256 ->
   forall i j, 0 <= i -> i < j -> j < N -> v i N < v j N) /\
  (257 <= N -> exists i, 0 <= i < N - 1 /\ v i N = v (i + 1) N).
Proof.
  split.
  - intros HN i j Hi Hij Hj.
    apply Z.lt_le_trans with (v (i + 1) N).
    + apply v_step. exact HN.
    + apply v_mono. lia.
  - intros HN.
    destruct (v_strict_or_tie N (N - 1) ltac:(lia)) as [Hall | Htie];
      [| exact Htie].
    exfalso.
    pose proof (v_strict_lower N (N - 1) ltac:(lia) ltac:(lia) Hall) as Hlow.
    rewrite v_last in Hlow by lia. lia.
Qed.

Lemma v_strict_up_to_256_witness :
  v 100 256 < v 101 256 /\ exists i, 0 <= i < 300 - 1 /\ v i 300 = v (i + 1) 300.
Proof.
  split.
  - apply (proj1 (v_strict_up_to_256 256) ltac:(lia) 100 101); lia.
  - apply (proj2 (v_strict_up_to_256 300)). lia.
Defined.

(** ** Validation of N and M *)

Lemma isInteger_iff (q : Q) :
  JSTest.isInteger (JS.Num q) = true <-> exists z, (q == inject_Z z)%Q.
Proof.
  unfold JSTest.isInteger. rewrite Qeq_bool_iff. split.
  - intros H. exists (Qfloor q). symmetry. exact H.
  - intros [z Hz].
    rewrite (Qfloor_comp q (inject_Z z) Hz), Qfloor_Z. symmetry. exact Hz.
Qed.

Lemma lt_ofZ (q : Q) (z bound : Z) :
  (q == inject_Z z)%Q ->
  JSTest.lt (JS.Num q) (JS.ofZ bound) = (z <? bound) /\
  JSTest.lt (JS.ofZ bound) (JS.Num q) = (bound <? z).
Proof.
  intros Hq. unfold JSTest.lt, JS.ofZ. split.
  - destruct (Z.ltb_spec z bound) as [Hlt | Hge].
    + apply negb_true_iff. apply not_true_is_false. intros Hle.
      apply Qle_bool_iff in Hle. rewrite Hq, <- Zle_Qle in Hle. lia.
    + apply negb_false_iff. apply Qle_bool_iff.
      rewrite Hq, <- Zle_Qle. exact Hge.
  - destruct (Z.ltb_spec bound z) as [Hlt | Hge].
    + apply negb_true_iff. apply not_true_is_false. intros Hle.
      apply Qle_bool_iff in Hle. rewrite Hq, <- Zle_Qle in Hle. lia.
    + apply negb_false_iff. apply Qle_bool_iff.
      rewrite Hq, <- Zle_Qle. exact Hge.
Qed.

Lemma validateN_accepts (N : JS.jsnum) :
  validateN N = None <->
  exists q z, N = JS.Num q /\ (q == inject_Z z)%Q /\ 2 <= z <= 65.
Proof.
  unfold validateN. split.
  - destruct N as [q | | |]; cbn [JS.isFinite negb orb]; try discriminate.
    destruct (JSTest.isInteger (JS.Num q)) eqn:Hint; cbn [negb]; [| discriminate].
    apply isInteger_iff in Hint. destruct Hint as [z Hz].
    destruct (lt_ofZ q z 2 Hz) as [E2 _]. destruct (lt_ofZ q z 65 Hz) as [_ E65].
    rewrite E2, E65.
    destruct (Z.ltb_spec z 2); [discriminate |].
    destruct (Z.ltb_spec 65 z); [discriminate |].
    intros _. exists q, z. split; [reflexivity |]. split; [exact Hz | lia].
  - intros (q & z & -> & Hz & Hr). cbn [JS.isFinite negb orb].
    rewrite (proj2 (isInteger_iff q) (ex_intro _ z Hz)). cbn [negb].
    destruct (lt_ofZ q z 2 Hz) as [E2 _]. destruct (lt_ofZ q z 65 Hz) as [_ E65].
    rewrite E2, E65.
    destruct (Z.ltb_spec z 2); [lia |].
    destruct (Z.ltb_spec 65 z); [lia | reflexivity].
Qed.

Lemma validateM_accepts (M : JS.jsnum) :
  validateM M = None <->
  exists q z, M = JS.Num q /\ (q == inject_Z z)%Q /\ 1 <= z <= 512.
Proof.
  unfold validateM. split.
  - destruct M as [q | | |]; cbn [JS.isFinite negb orb]; try discriminate.
    destruct (JSTest.isInteger (JS.Num q)) eqn:Hint; cbn [negb]; [| discriminate].
    apply isInteger_iff in Hint. destruct Hint as [z Hz].
    destruct (lt_ofZ q z 1 Hz) as [E1 _]. destruct (lt_ofZ q z 512 Hz) as [_ E512].
    rewrite E1, E512.
    destruct (Z.ltb_spec z 1); [discriminate |].
    destruct (Z.ltb_spec 512 z); [discriminate |].
    intros _. exists q, z. split; [reflexivity |]. split; [exact Hz | lia].
  - intros (q & z & -> & Hz & Hr). cbn [JS.isFinite negb orb].
    rewrite (proj2 (isInteger_iff q) (ex_intro _ z Hz)). cbn [negb].
    destruct (lt_ofZ q z 1 Hz) as [E1 _]. destruct (lt_ofZ q z 512 Hz) as [_ E512].
    rewrite E1, E512.
    destruct (Z.ltb_spec z 1); [lia |].
    destruct (Z.ltb_spec 512 z); [lia | reflexivity].
Qed.

Lemma inject_Z_eq (a b : Z) : (inject_Z a == inject_Z b)%Q -> a = b.
Proof. unfold Qeq. simpl. lia. Qed.

(** X7. [validateN] passes exactly the integers from 2 to 65 and
    [validateM] exactly those from 1 to 512 (NaN, the infinities and
    fractions are refused); and for every N and M they pass, the pattern
    has at most 274625 tiles, is at most 2163200 pixels wide and high, and
    its dimensions are detected back as (N, M, layout). *)
Theorem validated_patterns_are_detected :
  (forall N, validateN N = None <->
     exists q z, N = JS.Num q /\ (q == inject_Z z)%Q /\ 2 <= z <= 65) /\
  (forall M, validateM M = None <->
     exists q z, M = JS.Num q /\ (q == inject_Z z)%Q /\ 1 <= z <= 512) /\
  (forall N M layout,
     validateN (JS.ofZ N) = None -> validateM (JS.ofZ M) = None ->
     computeTileCount N <= 274625 /\
     1 <= width (computeDims N M layout) <= 2163200 /\
     1 <= height (computeDims N M layout) <= 2163200 /\
     detectGeometry (width (computeDims N M layout))
                    (height (computeDims N M layout))
     = Detected (mkGeometry N M layout)).
Proof.
  split; [exact validateN_accepts |]. split; [exact validateM_accepts |].
  intros N M layout HN HM.
  apply validateN_accepts in HN. destruct HN as (q & z & Eq & Hz & Hr).
  injection Eq as <-. apply inject_Z_eq in Hz. subst z.
  apply validateM_accepts in HM. destruct HM as (q & z & Eq & Hz & Hm).
  injection Eq as <-. apply inject_Z_eq in Hz. subst z.
  split; [unfold computeTileCount; nia |].
  split; [| split].
  - unfold computeDims. destruct layout; simpl; nia.
  - unfold computeDims. destruct layout; simpl; nia.
  - apply detectGeometry_computeDims; lia.
Qed.

Lemma validated_patterns_are_detected_witness :
  detectGeometry (width (computeDims 65 512 tall)) (height (computeDims 65 512 tall))
  = Detected (mkGeometry 65 512 tall).
Proof.
  apply (proj2 (proj2 validated_patterns_are_detected) 65 512 tall);
    reflexivity.
Defined.

(** ** Tiles and the grid *)

Lemma cellPos_in_grid (N : Z) (layout : Layout) (c : RGB) :
  1 <= N -> inLattice N c ->
  0 <= xTile (cellPos N layout c) < tilesW (computeDims N 1 layout) /\
  0 <= yTile (cellPos N layout c) < tilesH (computeDims N 1 layout).
Proof.
  intros HN (Hr & Hg & Hb).
  unfold cellPos, computeDims. destruct layout; simpl; nia.
Qed.

Lemma grid_cell (N : Z) (layout : Layout) (x y : Z) :
  1 <= N ->
  0 <= x < tilesW (computeDims N 1 layout) ->
  0 <= y < tilesH (computeDims N 1 layout) ->
  exists c, inLattice N c /\ cellPos N layout c = mkTilePos x y.
Proof.
  intros HN Hx Hy. unfold computeDims in Hx, Hy.
  destruct layout; simpl in Hx, Hy.
  - (* tall: x = r, y = g + b * N *)
    exists (mkRGB x (y mod N) (y / N)).
    pose proof (Z.mod_pos_bound y N ltac:(lia)).
    pose proof (Z.div_mod y N ltac:(lia)).
    assert (0 <= y / N) by (apply Z.div_pos; lia).
    assert (y / N < N) by (apply Z.div_lt_upper_bound; lia).
    split; [repeat split; simpl; lia |].
    unfold cellPos. simpl. f_equal. lia.
  - (* wide: x = r + g * N, y = b *)
    exists (mkRGB (x mod N) (x / N) y).
    pose proof (Z.mod_pos_bound x N ltac:(lia)).
    pose proof (Z.div_mod x N ltac:(lia)).
    assert (0 <= x / N) by (apply Z.div_pos; lia).
    assert (x / N < N) by (apply Z.div_lt_upper_bound; lia).
    split; [repeat split; simpl; lia |].
    unfold cellPos. simpl. f_equal. lia.
Qed.

(** X8. For every N >= 1 and layout, [tileCoords] maps the tile indices
    0 .. N^3-1 one-to-one onto the tilesW x tilesH grid of [computeDims]:
    every tile lands inside the grid, no two tiles share a position, and
    every grid position holds a tile. *)
Theorem tileCoords_fills_grid (N : Z) (layout : Layout) :
  1 <= N ->
  (forall t, 0 <= t < N * N * N ->
     0 <= xTile (tileCoords t N layout) < tilesW (computeDims N 1 layout) /\
     0 <= yTile (tileCoords t N layout) < tilesH (computeDims N 1 layout)) /\
  (forall t t', 0 <= t < N * N * N -> 0 <= t' < N * N * N ->
     tileCoords t N layout = tileCoords t' N layout -> t = t') /\
  (forall x y,
     0 <= x < tilesW (computeDims N 1 layout) ->
     0 <= y < tilesH (computeDims N 1 layout) ->
     exists t, 0 <= t < N * N * N /\ tileCoords t N layout = mkTilePos x y).
Proof.
  intros HN. split; [| split].
  - intros t Ht. rewrite tileCoords_cellPos.
    apply cellPos_in_grid; [exact HN |].
    apply tileIndexToRGB_decompose; assumption.
  - intros t t' Ht Ht'. apply tileCoords_inj; assumption.
  - intros x y Hx Hy.
    destruct (grid_cell N layout x y HN Hx Hy) as (c & Hc & Hpos).
    destruct (tileIndexToRGB_recompose c N HN Hc) as [Hidx Hcell].
    exists (rgbToTileIndex c N). split; [exact Hidx |].
    rewrite tileCoords_cellPos, Hcell. exact Hpos.
Qed.

Lemma tileCoords_fills_grid_witness :
  exists t, 0 <= t < 4 * 4 * 4 /\ tileCoords t 4 wide = mkTilePos 11 1.
Proof.
  apply (proj2 (proj2 (tileCoords_fills_grid 4 wide ltac:(lia))) 11 1);
    simpl; lia.
Defined.

(** ** Geometry detection, the other way round *)

(** X9. Whatever [detectGeometry] detects reproduces the given width and
    height exactly through [computeDims], with 2 <= N <= 256 and M >= 1;
    and it reports an error exactly when no such N, M and layout has these
    dimensions. *)
Theorem detectGeometry_sound_complete (w h : Z) :
  (forall geom,
     detectGeometry w h = Detected geom ->
     2 <= geomN geom <= 256 /\ 1 <= geomM geom /\
     width (computeDims (geomN geom) (geomM geom) (geomLayout geom)) = w /\
     height (computeDims (geomN geom) (geomM geom) (geomLayout geom)) = h) /\
  (detectGeometry w h = DetectError undetectableMessage <->
   forall N M layout,
     2 <= N <= 256 -> 1 <= M ->
     ~ (width (computeDims N M layout) = w /\ height (computeDims N M layout) = h)).
Proof.
  assert (Hsound : forall geom,
     detectGeometry w h = Detected geom ->
     2 <= geomN geom <= 256 /\ 1 <= geomM geom /\
     width (computeDims (geomN geom) (geomM geom) (geomLayout geom)) = w /\
     height (computeDims (geomN geom) (geomM geom) (geomLayout geom)) = h).
  { intros geom. unfold detectGeometry.
    destruct (tryWide w h) as [gw |] eqn:Hw.
    - intros [= <-]. apply tryWide_sound in Hw.
      destruct Hw as (HN & HM & HL & EW & EH).
      rewrite HL. unfold computeDims. simpl. repeat split; lia.
    - destruct (tryTall w h) as [gt |] eqn:Ht; [| discriminate].
      intros [= <-]. apply tryTall_sound in Ht.
      destruct Ht as (HN & HM & HL & EW & EH).
      rewrite HL. unfold computeDims. simpl. repeat split; lia. }
  split; [exact Hsound |]. split.
  - intros Herr N M layout HN HM [EW EH].
    pose proof (detectGeometry_computeDims N M layout HN HM) as Hdet.
    rewrite EW, EH in Hdet. congruence.
  - intros Hnone.
    destruct (detectGeometry w h) as [geom | msg] eqn:Hdet.
    + exfalso. destruct (Hsound geom eq_refl) as (HN & HM & EW & EH).
      exact (Hnone _ _ _ HN HM (conj EW EH)).
    + unfold detectGeometry in Hdet.
      destruct (tryWide w h); [discriminate |].
      destruct (tryTall w h); [discriminate |].
      congruence.
Qed.

Lemma detectGeometry_sound_complete_witness :
  2 <= 4 <= 256 /\ 1 <= 2 /\
  width (computeDims 4 2 wide) = 32 /\ height (computeDims 4 2 wide) = 8.
Proof.
  apply (proj1 (detectGeometry_sound_complete 32 8) (mkGeometry 4 2 wide)).
  reflexivity.
Defined.

(** ** The inset of the samples *)

Lemma floor_fifth (M : Z) : JS.floor (inject_Z M * (2 # 10)) = M / 5.
Proof.
  unfold JS.floor. rewrite Zdiv_Qdiv. apply Qfloor_comp. field.
Qed.

Lemma sampleMargin_closed (M : Z) :
  1 <= M -> sampleMargin M = if M <? 3 then 0 else Z.max 1 (M / 5).
Proof.
  intros HM. unfold sampleMargin, JS.floorDiv. rewrite floor_fifth.
  pose proof (Z.div_mod M 5 ltac:(lia)).
  pose proof (Z.mod_pos_bound M 5 ltac:(lia)).
  pose proof (Z.div_mod M 4 ltac:(lia)).
  pose proof (Z.mod_pos_bound M 4 ltac:(lia)).
  destruct (Z.ltb_spec M 3); destruct (Z.leb_spec M (Z.max 1 (M / 5) * 2)); lia.
Qed.

Lemma sample_offset_step (k region s : Z) :
  0 < s -> s <= region -> 0 <= k ->
  (2 * k + 1) * region / (2 * s) < (2 * (k + 1) + 1) * region / (2 * s).
Proof.
  intros Hs Hr Hk.
  apply Z.lt_le_trans with (((2 * k + 1) * region + 1 * (2 * s)) / (2 * s)).
  - rewrite Z.div_add by lia. lia.
  - apply Z.div_le_mono; nia.
Qed.

(** X10. For a tile of size M >= 1 the inset margin is 0 when M < 3 and
    max(1, floor(M / 5)) otherwise, and the tile is sampled on
    min(8, M - 2 margin) points per axis.  For a tile that lies inside the
    image, every sample coordinate stays inside the inset region, at
    least the margin away from both edges of the tile, and successive
    samples fall on different pixels. *)
Theorem samples_stay_in_inset (M : Z) :
  1 <= M ->
  sampleMargin M = (if M <? 3 then 0 else Z.max 1 (M / 5)) /\
  samplesPerAxis M = Z.min 8 (M - 2 * sampleMargin M) /\
  forall dim tile k,
    0 <= tile -> (tile + 1) * M <= dim -> 0 <= k < samplesPerAxis M ->
    tile * M + sampleMargin M
      <= sampleCoord dim (tile * M + sampleMargin M) k (sampleStep M)
      <= tile * M + M - 1 - sampleMargin M /\
    (k + 1 < samplesPerAxis M ->
     sampleCoord dim (tile * M + sampleMargin M) k (sampleStep M)
     < sampleCoord dim (tile * M + sampleMargin M) (k + 1) (sampleStep M)).
Proof.
  intros HM.
  destruct (sampleMargin_region M HM) as [Hmargin Hregion].
  split; [apply sampleMargin_closed; exact HM |].
  assert (Hs : samplesPerAxis M = Z.min 8 (M - 2 * sampleMargin M)).
  { unfold samplesPerAxis. unfold sampleRegion in *. lia. }
  split; [exact Hs |].
  intros dim tile k Ht Hfit Hk.
  unfold sampleCoord, sampleStep.
  assert (Hsum : sampleMargin M * 2 + sampleRegion M = M)
    by (unfold sampleRegion; lia).
  assert (Hsr : samplesPerAxis M <= sampleRegion M)
    by (rewrite Hs; unfold sampleRegion; lia).
  rewrite !sample_floor by lia.
  set (s := samplesPerAxis M) in *.
  set (region := sampleRegion M) in *.
  assert (Hbound : forall j, 0 <= j < s ->
            0 <= (2 * j + 1) * region / (2 * s) < region).
  { intros j Hj. split.
    - apply Z.div_pos; nia.
    - apply Z.div_lt_upper_bound; nia. }
  pose proof (Hbound k Hk) as Hk0.
  split; [nia |].
  intros Hk1.
  pose proof (Hbound (k + 1) ltac:(lia)) as Hk2.
  pose proof (sample_offset_step k region s ltac:(lia) Hsr ltac:(lia)).
  nia.
Qed.

Lemma samples_stay_in_inset_witness :
  sampleMargin 10 = (if 10 <? 3 then 0 else Z.max 1 (10 / 5)) /\
  samplesPerAxis 10 = Z.min 8 (10 - 2 * sampleMargin 10).
Proof.
  destruct (samples_stay_in_inset 10 ltac:(lia)) as (Hm & Hs & _).
  split; [exact Hm | exact Hs].
Defined.

(** ** The LUT of any image *)

Lemma toFixed6_byte_range (V : Z) :
  0 <= V <= 255 -> 0 <= toFixed6 (inject_Z V / inject_Z 255) <= 1000000.
Proof.
  intros HV. rewrite toFixed6_byte by lia. split.
  - apply Z.div_pos; lia.
  - apply Z.lt_succ_r. apply Z.div_lt_upper_bound; lia.
Qed.

Lemma cellEntry_in_domain (img : ImageData) (N M : Z) (layout : Layout) (c : RGB) :
  exists rr gg bb,
    cellEntry img N M layout c = Entry rr gg bb /\
    0 <= rr <= 1000000 /\ 0 <= gg <= 1000000 /\ 0 <= bb <= 1000000.
Proof.
  unfold cellEntry. cbv zeta. eexists _, _, _. split; [reflexivity |].
  repeat split; apply toFixed6_byte_range; apply clampByte_range; lia.
Qed.

(** X11. For any image at all, of any size, and any geometry with
    N >= 1, LUT sampling fails only with Cancelled, and only if the flag
    was read set; with the flag never set it returns a blob.  A returned
    blob has the five header lines followed by exactly N^3 entries, each
    of three values between 0 and 1 (0 .. 1000000 millionths). *)
Theorem generateCubeLut_any_image (img : ImageData) (N M : Z) (layout : Layout)
    (cancelRef : CancelRef) :
  1 <= N ->
  (forall e,
     generateCubeLut img (mkGeometry N M layout) cancelRef = Err e ->
     e = Cancelled /\ exists n, cancelled cancelRef n = true) /\
  ((forall n, cancelled cancelRef n = false) ->
   exists lut, generateCubeLut img (mkGeometry N M layout) cancelRef = Ok lut) /\
  (forall lut,
     generateCubeLut img (mkGeometry N M layout) cancelRef = Ok lut ->
     length (cubeLines lut) = Z.to_nat (5 + N * N * N) /\
     take 5 (cubeLines lut)
     = [GeneratedBy; Title N M layout; LutSize N; DomainMin; DomainMax] /\
     forall i, 5 <= i < 5 + N * N * N ->
       exists rr gg bb,
         cubeLines lut !! Z.to_nat i = Some (Entry rr gg bb) /\
         0 <= rr <= 1000000 /\ 0 <= gg <= 1000000 /\ 0 <= bb <= 1000000).
Proof.
  intros HN.
  destruct (generateCubeLut_outcome img N M layout cancelRef HN)
    as [(lut & Hrun & Hlines) | (e & Hrun & He)].
  - split; [intros e He; congruence |].
    split; [intros _; exists lut; exact Hrun |].
    intros lut' Hrun'. assert (lut' = lut) as -> by congruence.
    rewrite Hlines. split; [| split].
    + rewrite length_app, length_map, length_upTo. simpl. nia.
    + reflexivity.
    + intros i Hi.
      rewrite lookup_app_r by (simpl; lia).
      replace (Z.to_nat i - length (cubeHeader N M layout))%nat
        with (Z.to_nat (i - 5)) by (simpl; lia).
      replace (map (fun t => cellEntry img N M layout (tileIndexToRGB t N))
                   (upTo (N * N * N)) !! Z.to_nat (i - 5))
        with ((fun t => cellEntry img N M layout (tileIndexToRGB t N))
                <$> upTo (N * N * N) !! Z.to_nat (i - 5))
        by (symmetry; apply list_lookup_fmap).
      rewrite upTo_lookup by lia. simpl.
      destruct (cellEntry_in_domain img N M layout (tileIndexToRGB (i - 5) N))
        as (rr & gg & bb & -> & Hr).
      exists rr, gg, bb. split; [reflexivity | exact Hr].
  - split; [intros e' He'; assert (e' = e) as -> by congruence; exact He |].
    split.
    + intros Hnever. destruct He as (_ & n & Hn).
      rewrite Hnever in Hn. discriminate.
    + intros lut Hrun'. congruence.
Qed.

Lemma generateCubeLut_any_image_witness :
  exists lut,
    generateCubeLut (mkImageData [] 0 0) (mkGeometry 2 7 tall)
      (mkCancelRef (fun _ => false)) = Ok lut.
Proof.
  apply (proj1 (proj2 (generateCubeLut_any_image (mkImageData [] 0 0) 2 7 tall
                         (mkCancelRef (fun _ => false)) ltac:(lia)))).
  intros n. reflexivity.
Defined.

(** ** Following the advice of the dimension error *)

Lemma generateStep1Pattern_limit_error (host : Host) (N M : Z) (layout : Layout)
    (cancelRef : CancelRef) (w h m n s : Z) :
  generateStep1Pattern host N M layout cancelRef
  = Err (DimensionLimitExceeded w h m n s) ->
  (CANVAS_MAX_DIM host < width (computeDims N M layout) \/
   CANVAS_MAX_DIM host < height (computeDims N M layout)) /\
  s = Z.max 1 (JS.floorDiv (CANVAS_MAX_DIM host) (N * N)).
Proof.
  intros Herr.
  destruct (Z.lt_ge_cases (CANVAS_MAX_DIM host) (width (computeDims N M layout)))
    as [Hw | Hw];
  [| destruct (Z.lt_ge_cases (CANVAS_MAX_DIM host) (height (computeDims N M layout)))
       as [Hh | Hh]].
  - split; [left; exact Hw |].
    unfold generateStep1Pattern, computeDims in *. simpl in *.
    rewrite (proj2 (Z.ltb_lt _ _) Hw) in Herr. simpl in Herr. congruence.
  - split; [right; exact Hh |].
    unfold generateStep1Pattern, computeDims in *. simpl in *.
    rewrite (proj2 (Z.ltb_lt _ _) Hh), orb_true_r in Herr. congruence.
  - exfalso.
    destruct (generateStep1Pattern_errors host N M layout cancelRef _ Hw Hh Herr)
      as [E | [E | E]]; discriminate.
Qed.

(** X12. When generation fails with the dimension error for an N whose
    square fits the canvas limit, the tile size the error suggests is at
    least 1, smaller than the one asked for, and generating with it never
    raises the dimension error again. *)
Theorem dimension_advice_fits (host : Host) (N M : Z) (layout : Layout)
    (cancelRef : CancelRef) (w h m n s : Z) :
  1 <= N -> N * N <= CANVAS_MAX_DIM host ->
  generateStep1Pattern host N M layout cancelRef
  = Err (DimensionLimitExceeded w h m n s) ->
  1 <= s < M /\
  forall cancelRef' w' h' m' n' s',
    generateStep1Pattern host N s layout cancelRef'
    <> Err (DimensionLimitExceeded w' h' m' n' s').
Proof.
  intros HN Hfit Herr.
  destruct (generateStep1Pattern_limit_error _ _ _ _ _ _ _ _ _ _ Herr)
    as [Hbig Hs].
  unfold JS.floorDiv in Hs.
  assert (Hq : 1 <= CANVAS_MAX_DIM host / (N * N))
    by (apply Z.div_le_lower_bound; nia).
  pose proof (Z.mul_div_le (CANVAS_MAX_DIM host) (N * N) ltac:(nia)) as Hle.
  rewrite Z.max_r in Hs by lia. subst s.
  set (q := CANVAS_MAX_DIM host / (N * N)) in *.
  assert (HsM : q < M).
  { unfold computeDims in Hbig. destruct layout; simpl in Hbig; nia. }
  split; [lia |].
  intros cancelRef' w' h' m' n' s' Herr'.
  destruct (generateStep1Pattern_limit_error _ _ _ _ _ _ _ _ _ _ Herr')
    as [Hbig' _].
  unfold computeDims in Hbig'. destruct layout; simpl in Hbig'; nia.
Qed.

Lemma dimension_advice_fits_witness :
  1 <= 6 < 10 /\
  forall cancelRef' w' h' m' n' s',
    generateStep1Pattern (mkHost 100 true true) 4 6 wide cancelRef'
    <> Err (DimensionLimitExceeded w' h' m' n' s').
Proof.
  apply (dimension_advice_fits (mkHost 100 true true) 4 10 wide
           (mkCancelRef (fun _ => false)) 160 40 100 4 6);
    first [simpl; lia | reflexivity].
Defined.

(** ** The generated image *)

Lemma byteAt_of_nat (data : list Z) (i : nat) :
  byteAt data (Z.of_nat i) = data !! i.
Proof.
  unfold byteAt. destruct (Z.ltb_spec (Z.of_nat i) 0); [lia |].
  rewrite Nat2Z.id. reflexivity.
Qed.

Lemma length_canvasBytes (canvas : Canvas) :
  Z.of_nat (length (canvasBytes canvas))
  = 4 * Z.max 0 (canvasWidth canvas) * Z.max 0 (canvasHeight canvas).
Proof.
  unfold canvasBytes.
  rewrite (length_flat_map_chunks _ (Z.to_nat (canvasWidth canvas) * 4)%nat).
  - rewrite length_upTo. lia.
  - intros y. rewrite (length_flat_map_chunks _ 4%nat) by reflexivity.
    rewrite length_upTo. reflexivity.
Qed.

(** An index of an RGBA buffer, as a pixel and a channel. *)
Lemma buffer_index (w h : Z) (i : nat) :
  0 <= w -> 0 <= h -> Z.of_nat i < 4 * w * h ->
  exists x y c,
    0 <= x < w /\ 0 <= y < h /\ 0 <= c < 4 /\
    Z.of_nat i = (y * w + x) * 4 + c.
Proof.
  intros Hw Hh Hi.
  assert (Hw0 : 0 < w) by nia.
  set (p := Z.of_nat i / 4).
  pose proof (Z.div_mod (Z.of_nat i) 4 ltac:(lia)) as E1.
  pose proof (Z.mod_pos_bound (Z.of_nat i) 4 ltac:(lia)) as B1.
  fold p in E1.
  pose proof (Z.div_mod p w ltac:(lia)) as E2.
  pose proof (Z.mod_pos_bound p w ltac:(lia)) as B2.
  assert (Hp : 0 <= p < w * h) by lia.
  assert (Hy0 : 0 <= p / w) by (apply Z.div_pos; lia).
  assert (Hy1 : p / w < h) by (apply Z.div_lt_upper_bound; lia).
  exists (p mod w), (p / w), (Z.of_nat i mod 4).
  repeat split; lia.
Qed.

Lemma canvas_wellFormed (canvas : Canvas) :
  0 <= canvasWidth canvas -> 0 <= canvasHeight canvas ->
  (forall px py,
     0 <= px < canvasWidth canvas -> 0 <= py < canvasHeight canvas ->
     Forall (fun byte => 0 <= byte <= 255)
            (pixelBytes (canvasPixel canvas px py))) ->
  wellFormedData (canvasBytes canvas) (canvasWidth canvas) (canvasHeight canvas).
Proof.
  intros Hw Hh Hpix.
  pose proof (length_canvasBytes canvas) as Hlen.
  rewrite !Z.max_r in Hlen by lia.
  split; [exact Hw |]. split; [exact Hh |]. split; [exact Hlen |].
  apply Forall_lookup. intros i byte Hi.
  pose proof (lookup_lt_Some _ _ _ Hi) as Hlt.
  destruct (buffer_index (canvasWidth canvas) (canvasHeight canvas) i Hw Hh)
    as (x & y & c & Hx & Hy & Hc & Ei); [lia |].
  rewrite <- byteAt_of_nat, Ei, canvasBytes_byteAt in Hi by assumption.
  pose proof (Hpix x y Hx Hy) as Hall.
  rewrite Forall_lookup in Hall. exact (Hall _ _ Hi).
Qed.

Lemma tileColor_bytes (N : Z) (c : RGB) :
  inLattice N c -> Forall (fun byte => 0 <= byte <= 255) (pixelBytes (tileColor N c)).
Proof.
  intros (Hr & Hg & Hb). unfold pixelBytes, tileColor. simpl.
  pose proof (v_range _ _ Hr). pose proof (v_range _ _ Hg).
  pose proof (v_range _ _ Hb).
  repeat constructor; lia.
Qed.

(** On a canvas with all tiles painted, every visible pixel has the colour
    of the cell whose tile it lies in. *)
Lemma painted_pixel (N M : Z) (layout : Layout) (st : PatternState)
    (px py : Z) :
  1 <= N -> 1 <= M ->
  painted N M layout (width (computeDims N M layout))
          (height (computeDims N M layout)) (N * N * N) st ->
  0 <= px < width (computeDims N M layout) ->
  0 <= py < height (computeDims N M layout) ->
  exists c,
    inLattice N c /\
    cellPos N layout c = mkTilePos (px / M) (py / M) /\
    canvasPixel (pCanvas st) px py = tileColor N c.
Proof.
  intros HN HM (HW & HH & Hdone) Hx Hy.
  pose proof (Z.div_mod px M ltac:(lia)) as Ex.
  pose proof (Z.mod_pos_bound px M ltac:(lia)) as Bx.
  pose proof (Z.div_mod py M ltac:(lia)) as Ey.
  pose proof (Z.mod_pos_bound py M ltac:(lia)) as By.
  assert (Hgx : 0 <= px / M < tilesW (computeDims N 1 layout)).
  { split; [apply Z.div_pos; lia |].
    apply Z.div_lt_upper_bound; [lia |].
    unfold computeDims in *. destruct layout; simpl in *; lia. }
  assert (Hgy : 0 <= py / M < tilesH (computeDims N 1 layout)).
  { split; [apply Z.div_pos; lia |].
    apply Z.div_lt_upper_bound; [lia |].
    unfold computeDims in *. destruct layout; simpl in *; lia. }
  destruct (grid_cell N layout (px / M) (py / M) HN Hgx Hgy) as (c & Hc & Hpos).
  destruct (tileIndexToRGB_recompose c N HN Hc) as [Hidx Hcell].
  exists c. split; [exact Hc |]. split; [exact Hpos |].
  rewrite <- Hcell. apply Hdone; [exact Hidx |].
  rewrite tileCoords_cellPos, Hcell, Hpos.
  split; simpl; lia.
Qed.

(** X13. A pattern that generation returns (N >= 1, M >= 1) is a buffer
    of exactly width x height RGBA pixels, all of them bytes; every pixel
    (px, py) is opaque and has the quantized colour of the lattice cell
    whose tile is at (floor(px / M), floor(py / M)): no pixel of the image
    is left unpainted. *)
Theorem generated_pattern_covers_image (host : Host) (N M : Z) (layout : Layout)
    (cancelRef : CancelRef) (png : Png) :
  1 <= N -> 1 <= M ->
  generateStep1Pattern host N M layout cancelRef = Ok png ->
  let img := loadPngToImageData png in
  imgWidth img = width (computeDims N M layout) /\
  imgHeight img = height (computeDims N M layout) /\
  wellFormedData (imgData img) (imgWidth img) (imgHeight img) /\
  forall px py, 0 <= px < imgWidth img -> 0 <= py < imgHeight img ->
    exists c,
      inLattice N c /\
      cellPos N layout c = mkTilePos (px / M) (py / M) /\
      getPixel (imgData img) (imgWidth img) px py
      = Some (mkPixel (v (r c) N) (v (g c) N) (v (b c) N) 255).
Proof.
  intros HN HM Hgen img.
  destruct (generateStep1Pattern_within_limit host N M layout cancelRef png Hgen)
    as [HW HH].
  destruct (generateStep1Pattern_outcome host N M layout cancelRef HN HM HW HH)
    as [(st & Hgen' & Hpainted) | (e & Hgen' & _)]; [| congruence].
  assert (Hpng : png = mkPng (mkImageData (canvasBytes (pCanvas st))
                                (width (computeDims N M layout))
                                (height (computeDims N M layout))))
    by congruence.
  subst png. unfold img, loadPngToImageData. cbn [pngImage imgData imgWidth imgHeight].
  pose proof Hpainted as (Hcw & Hch & _).
  assert (Hw0 : 0 <= width (computeDims N M layout))
    by (unfold computeDims; destruct layout; simpl; nia).
  assert (Hh0 : 0 <= height (computeDims N M layout))
    by (unfold computeDims; destruct layout; simpl; nia).
  split; [reflexivity |]. split; [reflexivity |]. split.
  - rewrite <- Hcw, <- Hch.
    apply canvas_wellFormed; [lia | lia |].
    intros px py Hx Hy. rewrite Hcw in Hx. rewrite Hch in Hy.
    destruct (painted_pixel N M layout st px py HN HM Hpainted Hx Hy)
      as (c & Hc & _ & ->).
    apply tileColor_bytes. exact Hc.
  - intros px py Hx Hy.
    destruct (painted_pixel N M layout st px py HN HM Hpainted Hx Hy)
      as (c & Hc & Hpos & Hcol).
    exists c. split; [exact Hc |]. split; [exact Hpos |].
    rewrite <- Hcw. rewrite canvasBytes_getPixel by lia.
    rewrite Hcol. reflexivity.
Qed.

Lemma generated_pattern_covers_image_witness :
  imgWidth (loadPngToImageData
              (mkPng (mkImageData
                 [0; 0; 0; 255; 255; 0; 0; 255; 0; 255; 0; 255; 255; 255; 0;
                  255; 0; 0; 255; 255; 255; 0; 255; 255; 0; 255; 255; 255;
                  255; 255; 255; 255] 4 2)))
  = width (computeDims 2 1 wide).
Proof.
  apply (generated_pattern_covers_image (mkHost 16384 true true) 2 1 wide
           (mkCancelRef (fun _ => false))
           (mkPng (mkImageData
                 [0; 0; 0; 255; 255; 0; 0; 255; 0; 255; 0; 255; 255; 255; 0;
                  255; 0; 0; 255; 255; 255; 0; 255; 255; 0; 255; 255; 255;
                  255; 255; 255; 255] 4 2)));
    first [lia | vm_compute; reflexivity].
Defined.

(** ** The pass-through filter and the whole pipeline *)

(** The state a filter pass ends in. *)
Lemma applyStep2Filter_final (data0 : list Z) (w h : Z) (filterFn : PixelFilter)
    (cancelRef : CancelRef) (img : ImageData) :
  wellFormedData data0 w h ->
  imgData img = data0 ->
  (exists st,
     applyStep2Filter img w h filterFn cancelRef
     = Ok (mkImageData (fData st) (imgWidth img) (imgHeight img)) /\
     filteredUpTo data0 w h filterFn (h * w) st) \/
  (exists e, applyStep2Filter img w h filterFn cancelRef = Err e /\
             filterFailure data0 w h filterFn cancelRef e).
Proof.
  intros Hwf Himg. unfold applyStep2Filter. rewrite Himg.
  pose proof Hwf as (Hw & Hh & _).
  destruct (forUpTo_outcome (fun y s => filteredUpTo data0 w h filterFn (y * w) s)
              (filterFailure data0 w h filterFn cancelRef)
              (filterRow filterFn w h cancelRef) h
              (mkFilterState data0 0 startRun) Hh)
    as [(st' & Hrun & Hst') | (e & Hrun & He)].
  - unfold filteredUpTo. simpl.
    split; [reflexivity |]. split; [reflexivity |].
    intros x y Hx Hy Hlt. exfalso. nia.
  - intros y s Hy Hs. apply filterRow_outcome; assumption.
  - left. rewrite Hrun. exists st'. split; [reflexivity | exact Hst'].
  - right. rewrite Hrun. exists e. split; [reflexivity | exact He].
Qed.

(** Two buffers of the same size with the same pixels are the same. *)
Lemma pixels_determine_data (d1 d2 : list Z) (w h : Z) :
  0 <= w -> 0 <= h ->
  length d1 = length d2 -> Z.of_nat (length d2) = 4 * w * h ->
  (forall x y, 0 <= x < w -> 0 <= y < h ->
     exists p, getPixel d1 w x y = Some p /\ getPixel d2 w x y = Some p) ->
  d1 = d2.
Proof.
  intros Hw Hh Hlen Hsize Hpix. apply list_eq. intros i.
  destruct (Nat.lt_ge_cases i (length d2)) as [Hi | Hi].
  - destruct (buffer_index w h i Hw Hh ltac:(lia))
      as (x & y & c & Hx & Hy & Hc & Ei).
    destruct (Hpix x y Hx Hy) as (p & H1 & H2).
    apply getPixel_bytes in H1. apply getPixel_bytes in H2.
    destruct H1 as (A0 & A1 & A2 & A3). destruct H2 as (B0 & B1 & B2 & B3).
    rewrite <- !byteAt_of_nat, Ei.
    assert (Hcases : c = 0 \/ c = 1 \/ c = 2 \/ c = 3) by lia.
    destruct Hcases as [-> | [-> | [-> | ->]]];
      rewrite ?Z.add_0_r; congruence.
  - rewrite !lookup_ge_None_2 by lia. reflexivity.
Qed.

Lemma passThrough_pixel_kept (before : Pixel) (x y w h packed : Z) :
  0 <= red before <= 255 -> 0 <= green before <= 255 -> 0 <= blue before <= 255 ->
  compilePixelFilter passThrough (JS.ofZ (red before)) (JS.ofZ (green before))
    (JS.ofZ (blue before)) x y w h = Returns packed ->
  mkPixel (unpackR packed) (unpackG packed) (unpackB packed) (alpha before)
  = before.
Proof.
  intros Hr Hg Hb Hfn.
  pose proof (compilePixelFilter_spec passThrough (red before) (green before)
                (blue before) x y w h Hr Hg Hb) as Hspec.
  unfold passThrough at 1 in Hspec.
  destruct Hspec as (packed' & Hfn' & ER & EG & EB).
  assert (packed' = packed) as -> by congruence.
  simpl in ER, EG, EB.
  rewrite ER, EG, EB, !clampByte_byte by assumption.
  destruct before. reflexivity.
Qed.

Lemma passThrough_never_throws (r0 g0 b0 : JS.jsnum) (x y w h : Z) (msg : string) :
  compilePixelFilter passThrough r0 g0 b0 x y w h <> Throws msg.
Proof. unfold compilePixelFilter, passThrough. discriminate. Qed.

(** X14. A filter pass with a script that assigns nothing returns the
    image it was given, byte for byte, whenever it returns; it never
    raises a filter error, and it does return when the flag is never
    set. *)
Theorem passThrough_leaves_image (img : ImageData) (w h : Z) (cancelRef : CancelRef) :
  wellFormedData (imgData img) w h ->
  (forall out,
     applyStep2Filter img w h (compilePixelFilter passThrough) cancelRef = Ok out ->
     out = img) /\
  (forall x y msg,
     applyStep2Filter img w h (compilePixelFilter passThrough) cancelRef
     <> Err (FilterRuntimeError x y msg)) /\
  ((forall n, cancelled cancelRef n = false) ->
   applyStep2Filter img w h (compilePixelFilter passThrough) cancelRef = Ok img).
Proof.
  intros Hwf.
  assert (Hok : forall out,
     applyStep2Filter img w h (compilePixelFilter passThrough) cancelRef = Ok out ->
     out = img).
  { intros out Hrun.
    destruct (applyStep2Filter_final (imgData img) w h
                (compilePixelFilter passThrough) cancelRef img Hwf eq_refl)
      as [(st & Hrun' & (Hlen & _ & Hdone)) | (e & Hrun' & _)]; [| congruence].
    assert (out = mkImageData (fData st) (imgWidth img) (imgHeight img)) as ->
      by congruence.
    destruct img as [data iw ih]. simpl in *. f_equal.
    destruct Hwf as (Hw & Hh & Hsize & Hbytes).
    apply (pixels_determine_data _ _ w h Hw Hh Hlen Hsize).
    intros x y Hx Hy.
    destruct (Hdone x y ltac:(lia) ltac:(lia) ltac:(nia))
      as (before & packed & Hbefore & Hfn & Hafter).
    destruct (original_pixel data w h (conj Hw (conj Hh (conj Hsize Hbytes)))
                x y Hx Hy) as (before' & Hbefore' & Hr & Hg & Hb).
    assert (before' = before) as -> by congruence.
    exists before. split; [| exact Hbefore].
    rewrite Hafter. f_equal.
    exact (passThrough_pixel_kept before x y w h packed Hr Hg Hb Hfn). }
  assert (Hnothrow : forall x y msg,
     applyStep2Filter img w h (compilePixelFilter passThrough) cancelRef
     <> Err (FilterRuntimeError x y msg)).
  { intros x y msg Hrun.
    destruct (applyStep2Filter_final (imgData img) w h
                (compilePixelFilter passThrough) cancelRef img Hwf eq_refl)
      as [(st & Hrun' & _) | (e & Hrun' & He)]; [congruence |].
    assert (e = FilterRuntimeError x y msg) as -> by congruence.
    destruct He as [(Hc & _) | (x' & y' & before & msg' & _ & _ & _ & Hthrow & _)];
      [discriminate |].
    exact (passThrough_never_throws _ _ _ _ _ _ _ _ Hthrow). }
  split; [exact Hok |]. split; [exact Hnothrow |].
  intros Hnever.
  destruct (applyStep2Filter img w h (compilePixelFilter passThrough) cancelRef)
    as [out | e] eqn:Hrun.
  - f_equal. apply Hok. reflexivity.
  - exfalso.
    destruct (applyStep2Filter_final (imgData img) w h
                (compilePixelFilter passThrough) cancelRef img Hwf eq_refl)
      as [(st & Hrun' & _) | (e' & Hrun' & He)]; [congruence |].
    destruct He as [(_ & n & Hn) | (x' & y' & before & msg' & _ & _ & _ & Hthrow & _)].
    + rewrite Hnever in Hn. discriminate.
    + exact (passThrough_never_throws _ _ _ _ _ _ _ _ Hthrow).
Qed.

Lemma passThrough_leaves_image_witness :
  applyStep2Filter (mkImageData [10; 20; 30; 255; 40; 50; 60; 7] 2 1) 2 1
    (compilePixelFilter passThrough) (mkCancelRef (fun _ => false))
  = Ok (mkImageData [10; 20; 30; 255; 40; 50; 60; 7] 2 1).
Proof.
  apply (proj2 (proj2 (passThrough_leaves_image
                         (mkImageData [10; 20; 30; 255; 40; 50; 60; 7] 2 1) 2 1
                         (mkCancelRef (fun _ => false))
                         ltac:(repeat split; simpl; try lia; repeat constructor; lia)))).
  intros n. reflexivity.
Defined.





(** ** The single-pixel test *)




(** ** The preview *)

Lemma previewScale_range (maxDimTiles : Z) :
  1 <= previewScale maxDimTiles <= 6 /\
  (1 <= maxDimTiles <= 500 -> maxDimTiles * previewScale maxDimTiles <= 500).
Proof.
  unfold previewScale, JS.floorDiv.
  destruct (Z.eqb_spec maxDimTiles 0); [lia |].
  split; [lia |].
  intros Hr.
  pose proof (Z.mul_div_le 500 maxDimTiles ltac:(lia)) as Hle.
  assert (Hq : 1 <= 500 / maxDimTiles) by (apply Z.div_le_lower_bound; lia).
  destruct (Z.eqb_spec (500 / maxDimTiles) 0); [lia |].
  nia.
Qed.

(** Painting the next tile on a canvas that holds the tiles before it. *)
Lemma fillRect_painted (N M : Z) (layout : Layout) (W H t : Z)
    (canvas : Canvas) (run run' : Run) :
  1 <= N -> 1 <= M -> 0 <= t < N * N * N ->
  painted N M layout W H t (mkPatternState canvas run) ->
  painted N M layout W H (t + 1)
    (mkPatternState
       (let '(mkRGB r g b) := tileIndexToRGB t N in
        let rr := v r N in
        let gg := v g N in
        let bb := v b N in
        let '(mkTilePos xTile yTile) := tileCoords t N layout in
        fillRect canvas rr gg bb (xTile * M) (yTile * M) M M)
       run').
Proof.
  intros HN HM Ht (HW & HH & Hdone). simpl in HW, HH, Hdone.
  destruct (tileIndexToRGB_decompose t N HN Ht) as [(Hr & Hg & Hb) _].
  destruct (tileIndexToRGB t N) as [cr cg cb] eqn:Hcell. simpl in Hr, Hg, Hb.
  destruct (tileCoords t N layout) as [xT yT] eqn:Hpos.
  unfold painted. simpl.
  split; [exact HW |]. split; [exact HH |].
  intros t' Ht' px py Hin.
  destruct (Z.eq_dec t' t) as [-> | Hne].
  - rewrite Hpos in Hin. destruct Hin as [Hx Hy]. simpl in Hx, Hy.
    rewrite Hcell.
    rewrite (proj2 (Z.leb_le _ _)), (proj2 (Z.ltb_lt _ _)),
      (proj2 (Z.leb_le _ _)), (proj2 (Z.ltb_lt _ _)) by lia.
    simpl. unfold tileColor. simpl.
    rewrite !cssByte_v by lia. reflexivity.
  - destruct ((xT * M <=? px) && (px <? xT * M + M)
              && (yT * M <=? py) && (py <? yT * M + M))%bool eqn:Hfill.
    + exfalso. apply Hne.
      apply (tileCoords_inj N layout t' t HN); [lia | lia |].
      rewrite Hpos.
      apply (inBlock_same_tile _ _ M px py HM Hin).
      bool_to_prop. split; simpl; lia.
    + apply Hdone; [lia | exact Hin].
Qed.

(** Two canvases of the same size with the same visible pixels have the
    same bytes. *)
Lemma canvasBytes_ext (c1 c2 : Canvas) :
  canvasWidth c1 = canvasWidth c2 -> canvasHeight c1 = canvasHeight c2 ->
  (forall px py, 0 <= px < canvasWidth c1 -> 0 <= py < canvasHeight c1 ->
     canvasPixel c1 px py = canvasPixel c2 px py) ->
  canvasBytes c1 = canvasBytes c2.
Proof.
  intros Hw Hh Hpix. apply list_eq. intros i.
  pose proof (length_canvasBytes c1) as L1.
  pose proof (length_canvasBytes c2) as L2.
  destruct (Z.lt_ge_cases (Z.of_nat i)
              (4 * Z.max 0 (canvasWidth c1) * Z.max 0 (canvasHeight c1)))
    as [Hi | Hi].
  - assert (Hw0 : 0 <= canvasWidth c1) by nia.
    assert (Hh0 : 0 <= canvasHeight c1) by nia.
    rewrite !Z.max_r in Hi by lia.
    destruct (buffer_index _ _ i Hw0 Hh0 Hi) as (x & y & c & Hx & Hy & Hc & Ei).
    rewrite <- !byteAt_of_nat, Ei.
    rewrite canvasBytes_byteAt by assumption.
    rewrite Hw. rewrite canvasBytes_byteAt by lia.
    rewrite Hpix by assumption. reflexivity.
  - rewrite !lookup_ge_None_2 by lia. reflexivity.
Qed.

(** X17. For N >= 1 on a host with a 2D context, the preview is drawn at
    a scale between 1 and 6 on a canvas of tilesW*scale by tilesH*scale
    pixels, which is at most 500 pixels on its longer side whenever the
    tile grid is; and it shows exactly the pattern that generation
    produces for the tile size M = scale, byte for byte. *)
Theorem preview_is_the_pattern (host : Host) (N : Z) (layout : Layout) :
  1 <= N -> hasContext2D host = true ->
  let tilesW := tilesW (computeDims N 1 layout) in
  let tilesH := tilesH (computeDims N 1 layout) in
  let scale := previewScale (Z.max tilesW tilesH) in
  1 <= scale <= 6 /\
  (Z.max tilesW tilesH <= 500 -> Z.max tilesW tilesH * scale <= 500) /\
  exists canvas,
    renderStep1Preview host N layout = Some canvas /\
    canvasWidth canvas = tilesW * scale /\
    canvasHeight canvas = tilesH * scale /\
    forall host' cancelRef png,
      generateStep1Pattern host' N scale layout cancelRef = Ok png ->
      imgData (loadPngToImageData png) = canvasBytes canvas.
Proof.
  intros HN Hctx tw th scale.
  assert (Htw : tw = if Layout_eqb layout wide then N * N else N) by reflexivity.
  assert (Hth : th = if Layout_eqb layout wide then N else N * N) by reflexivity.
  assert (Htiles : 1 <= tw /\ 1 <= th)
    by (rewrite Htw, Hth; destruct layout; simpl; nia).
  destruct (previewScale_range (Z.max tw th)) as [Hscale Hfit].
  fold scale in Hscale, Hfit.
  split; [exact Hscale |]. split; [intros Hle; apply Hfit; lia |].
  assert (HW : width (computeDims N scale layout) = tw * scale) by reflexivity.
  assert (HH : height (computeDims N scale layout) = th * scale) by reflexivity.
  unfold renderStep1Preview. cbv zeta. rewrite <- Htw, <- Hth. fold scale.
  rewrite Hctx. cbn [negb].
  eexists. split; [reflexivity |].
  match goal with
  | |- context [iterUpTo ?bound ?body ?init] =>
    pose proof (iterUpTo_inv
      (fun t canvas => painted N scale layout (tw * scale) (th * scale) t
                         (mkPatternState canvas startRun))
      body bound init) as Hloop
  end.
  cbv beta in Hloop.
  match type of Hloop with
  | _ -> _ -> _ -> ?P => assert (Hpainted : P)
  end.
  { apply Hloop.
    - nia.
    - unfold painted. simpl.
      split; [lia |]. split; [lia |]. intros t Ht. lia.
    - intros t canvas Ht Hc.
      apply (fillRect_painted N scale layout _ _ t canvas startRun startRun);
        first [lia | assumption]. }
  clear Hloop.
  match goal with
  | |- context [iterUpTo ?bound ?body ?init] =>
    set (preview := iterUpTo bound body init) in *
  end.
  pose proof Hpainted as (Hcw & Hch & _). simpl in Hcw, Hch.
  split; [exact Hcw |]. split; [exact Hch |].
  intros host' cancelRef png Hgen.
  destruct (generateStep1Pattern_within_limit host' N scale layout cancelRef png Hgen)
    as [HWl HHl].
  destruct (generateStep1Pattern_outcome host' N scale layout cancelRef
              HN ltac:(lia) HWl HHl)
    as [(st & Hgen' & Hst) | (e & Hgen' & _)]; [| congruence].
  assert (Hpng : png = mkPng (mkImageData (canvasBytes (pCanvas st))
                                (width (computeDims N scale layout))
                                (height (computeDims N scale layout))))
    by congruence.
  subst png. unfold loadPngToImageData. cbn [pngImage imgData].
  pose proof Hst as (Hsw & Hsh & _).
  apply canvasBytes_ext.
  - rewrite Hsw, Hcw. exact HW.
  - rewrite Hsh, Hch. exact HH.
  - intros px py Hx Hy. rewrite Hsw in Hx. rewrite Hsh in Hy.
    destruct (painted_pixel N scale layout st px py HN ltac:(lia) Hst Hx Hy)
      as (c & Hc & Hpos & ->).
    rewrite <- HW, <- HH in Hpainted.
    destruct (painted_pixel N scale layout (mkPatternState preview startRun)
                px py HN ltac:(lia) Hpainted Hx Hy)
      as (c' & Hc' & Hpos' & Hcol).
    simpl in Hcol. rewrite Hcol.
    f_equal. apply (cellPos_inj N layout); try assumption. congruence.
Qed.

Lemma preview_is_the_pattern_witness :
  1 <= previewScale (Z.max (tilesW (computeDims 4 1 wide))
                           (tilesH (computeDims 4 1 wide))) <= 6.
Proof.
  apply (preview_is_the_pattern (mkHost 1 true true) 4 wide);
    first [lia | reflexivity].
Defined.

(** ** When a cancellation is noticed *)

Lemma tilePoll_succ (t : Z) :
  0 <= t ->
  tilePoll (t + 1)
  = if JS.rem t yieldEvery =? 0 then Datatypes.S (tilePoll t) else tilePoll t.
Proof.
  intros Ht. unfold tilePoll, JS.rem, yieldEvery.
  rewrite Z.rem_mod_nonneg by lia.
  pose proof (Z.div_mod t 5000 ltac:(lia)) as Hdm.
  pose proof (Z.mod_pos_bound t 5000 ltac:(lia)) as Hr.
  assert (Hq : 0 <= t / 5000) by (apply Z.div_pos; lia).
  assert (Hnext : (t + 1 + 4999) / 5000 = t / 5000 + 1).
  { symmetry. apply (Z.div_unique _ _ _ (t mod 5000)); lia. }
  rewrite Hnext.
  destruct (Z.eqb_spec (t mod 5000) 0) as [E | E].
  - assert (Hcur : (t + 4999) / 5000 = t / 5000).
    { symmetry. apply (Z.div_unique _ _ _ 4999); lia. }
    rewrite Hcur. lia.
  - assert (Hcur : (t + 4999) / 5000 = t / 5000 + 1).
    { symmetry. apply (Z.div_unique _ _ _ (t mod 5000 - 1)); lia. }
    rewrite Hcur. reflexivity.
Qed.

(** The loop of the generator reads the flag once per tile, at the start
    of tile [t] after [tilePoll t] suspensions. *)
Lemma paintLoop_polls (N M : Z) (layout : Layout) (cancelRef : CancelRef)
    (canvas : Canvas) :
  1 <= N ->
  (exists st,
     forUpTo (N * N * N) (paintTile N M layout cancelRef (N * N * N))
             (mkPatternState canvas startRun) = Ok st /\
     forall t, 0 <= t < N * N * N -> cancelled cancelRef (tilePoll t) = false) \/
  (forUpTo (N * N * N) (paintTile N M layout cancelRef (N * N * N))
           (mkPatternState canvas startRun) = Err Cancelled /\
   exists t, 0 <= t < N * N * N /\ cancelled cancelRef (tilePoll t) = true).
Proof.
  intros HN.
  destruct (forUpTo_outcome
    (fun t st => suspensions (pRun st) = tilePoll t /\
                 forall t', 0 <= t' < t -> cancelled cancelRef (tilePoll t') = false)
    (fun e => e = Cancelled /\
              exists t, 0 <= t < N * N * N /\ cancelled cancelRef (tilePoll t) = true)
    (paintTile N M layout cancelRef (N * N * N)) (N * N * N)
    (mkPatternState canvas startRun))
    as [(st & Hrun & _ & Hall) | (e & Hrun & -> & Hex)].
  - nia.
  - split; [reflexivity |]. intros t' Ht'. lia.
  - intros t st Ht [Hsusp Hbefore].
    unfold paintTile. rewrite Hsusp.
    destruct (cancelled cancelRef (tilePoll t)) eqn:Hpoll.
    + right. exists Cancelled. split; [reflexivity |].
      split; [reflexivity |]. exists t. split; [exact Ht | exact Hpoll].
    + left.
      destruct (tileIndexToRGB t N) as [cr cg cb].
      destruct (tileCoords t N layout) as [xT yT].
      rewrite tilePoll_succ by lia.
      destruct (JS.rem t yieldEvery =? 0); eexists; (split; [reflexivity |]);
        cbn [pRun suspensions nextFrame onProgress];
        (split; [congruence |]);
        intros t' Ht'; (destruct (Z.eq_dec t' t) as [-> | Hne];
                        [exact Hpoll | apply Hbefore; lia]).
  - left. exists st. split; [exact Hrun | exact Hall].
  - right. split; [exact Hrun | exact Hex].
Qed.

(** X18. Generation reads the cancellation flag exactly once per tile: at
    the start of tile t it has been suspended ceil(t / 5000) times.  For
    a pattern within the dimension limit on a host with a 2D context,
    generation is cancelled if and only if the flag is set at one of
    these reads; otherwise every tile is painted and the outcome is that
    of the PNG encoder.  A flag set only during the suspension after the
    last tile is not noticed. *)
Theorem generateStep1Pattern_cancel_polls (host : Host) (N M : Z)
    (layout : Layout) (cancelRef : CancelRef) :
  1 <= N ->
  width (computeDims N M layout) <= CANVAS_MAX_DIM host ->
  height (computeDims N M layout) <= CANVAS_MAX_DIM host ->
  hasContext2D host = true ->
  (generateStep1Pattern host N M layout cancelRef = Err Cancelled <->
   exists t, 0 <= t < N * N * N /\ cancelled cancelRef (tilePoll t) = true) /\
  ((forall t, 0 <= t < N * N * N -> cancelled cancelRef (tilePoll t) = false) ->
   if encodesPng host
   then exists png, generateStep1Pattern host N M layout cancelRef = Ok png
   else generateStep1Pattern host N M layout cancelRef = Err EncodingFailure).
Proof.
  intros HN HW HH Hctx. unfold generateStep1Pattern.
  unfold computeDims in *. simpl in *.
  rewrite (proj2 (Z.ltb_ge _ _) HW), (proj2 (Z.ltb_ge _ _) HH).
  rewrite Hctx. cbn [orb negb].
  match goal with
  | |- context [createCanvas ?w ?h] =>
    destruct (paintLoop_polls N M layout cancelRef (createCanvas w h) HN)
      as [(st & Hrun & Hall) | (Hrun & t & Ht & Hpoll)]
  end; rewrite Hrun.
  - split.
    + split.
      * unfold canvasToPngBlob. destruct (encodesPng host); discriminate.
      * intros (t & Ht & Hpoll). rewrite Hall in Hpoll by exact Ht. discriminate.
    + intros _. unfold canvasToPngBlob.
      destruct (encodesPng host); [eexists |]; reflexivity.
  - split.
    + split; [intros _; exists t; split; assumption | reflexivity].
    + intros Hnone. rewrite Hnone in Hpoll by exact Ht. discriminate.
Qed.

Lemma generateStep1Pattern_cancel_polls_witness :
  generateStep1Pattern (mkHost 4096 true true) 2 2 wide
    (mkCancelRef (fun k => Nat.eqb k 1)) = Err Cancelled <->
  exists t, 0 <= t < 2 * 2 * 2 /\
            cancelled (mkCancelRef (fun k => Nat.eqb k 1)) (tilePoll t) = true.
Proof.
  apply (generateStep1Pattern_cancel_polls (mkHost 4096 true true) 2 2 wide);
    first [reflexivity | simpl; lia].
Defined.

Lemma cellPoll_succ (k : Z) :
  0 <= k ->
  cellPoll (k + 1)
  = if JS.rem (k + 1) yieldEvery =? 0 then Datatypes.S (cellPoll k) else cellPoll k.
Proof.
  intros Hk. unfold cellPoll, JS.rem, yieldEvery.
  rewrite Z.rem_mod_nonneg by lia.
  pose proof (Z.div_mod k 5000 ltac:(lia)) as Hdm.
  pose proof (Z.mod_pos_bound k 5000 ltac:(lia)) as Hr.
  pose proof (Z.div_mod (k + 1) 5000 ltac:(lia)) as Hdm'.
  pose proof (Z.mod_pos_bound (k + 1) 5000 ltac:(lia)) as Hr'.
  assert (Hq : 0 <= k / 5000) by (apply Z.div_pos; lia).
  destruct (Z.eqb_spec ((k + 1) mod 5000) 0) as [E | E].
  - assert (Hnext : (k + 1) / 5000 = k / 5000 + 1) by lia.
    rewrite Hnext. lia.
  - assert (Hnext : (k + 1) / 5000 = k / 5000) by lia.
    rewrite Hnext. reflexivity.
Qed.

Section CubePolls.

Variables (img : ImageData) (N M : Z) (layout : Layout) (cancelRef : CancelRef).
Hypothesis HN : 1 <= N.

(** Before cell [k]: [k] cells are done, and none of their reads of the
    flag found it set. *)
Let polled (k : Z) (st : CubeState) : Prop :=
  cDone st = k /\ suspensions (cRun st) = cellPoll k /\
  forall k', 0 <= k' < k -> cancelled cancelRef (cellPoll k') = false.

Let noticed (e : Error) : Prop :=
  e = Cancelled /\
  exists k, 0 <= k < N * N * N /\ cancelled cancelRef (cellPoll k) = true.

Lemma sampleCell_polls (cb cg cr : Z) (st : CubeState) :
  0 <= cr < N -> 0 <= cg < N -> 0 <= cb < N ->
  polled (cr + cg * N + cb * (N * N)) st ->
  (exists st',
     sampleCell img N M layout cancelRef (N * N * N) cb cg cr st = Ok st' /\
     polled (cr + 1 + cg * N + cb * (N * N)) st') \/
  (exists e,
     sampleCell img N M layout cancelRef (N * N * N) cb cg cr st = Err e /\
     noticed e).
Proof.
  intros Hr Hg Hb (Hdone & Hsusp & Hbefore).
  set (k := cr + cg * N + cb * (N * N)) in *.
  assert (Hk : 0 <= k < N * N * N).
  { unfold k.
    assert (cr + cg * N + 1 <= N * N) by nia.
    assert (cb * (N * N) + N * N <= N * N * N) by nia.
    nia. }
  unfold sampleCell. rewrite Hsusp.
  destruct (cancelled cancelRef (cellPoll k)) eqn:Hpoll.
  - right. exists Cancelled. split; [reflexivity |].
    split; [reflexivity |]. exists k. split; [exact Hk | exact Hpoll].
  - left. cbv zeta. rewrite Hdone.
    replace (cr + 1 + cg * N + cb * (N * N)) with (k + 1) by (unfold k; ring).
    unfold polled. rewrite cellPoll_succ by lia.
    destruct (JS.rem (k + 1) yieldEvery =? 0); eexists; (split; [reflexivity |]);
      cbn [cDone cRun suspensions nextFrame onProgress];
      (split; [reflexivity |]); (split; [congruence |]);
      intros k' Hk'; (destruct (Z.eq_dec k' k) as [-> | Hne];
                      [exact Hpoll | apply Hbefore; lia]).
Qed.

Lemma cubeLoops_polls :
  (exists st',
     forUpTo N
       (fun b => forUpTo N
          (fun g => forUpTo N
             (fun r => sampleCell img N M layout cancelRef (N * N * N) b g r)))
       (mkCubeState (cubeHeader N M layout) 0 startRun) = Ok st' /\
     polled (N * N * N) st') \/
  (exists e,
     forUpTo N
       (fun b => forUpTo N
          (fun g => forUpTo N
             (fun r => sampleCell img N M layout cancelRef (N * N * N) b g r)))
       (mkCubeState (cubeHeader N M layout) 0 startRun) = Err e /\
     noticed e).
Proof.
  set (body := fun b => forUpTo N
          (fun g => forUpTo N
             (fun r => sampleCell img N M layout cancelRef (N * N * N) b g r))).
  destruct (forUpTo_outcome
              (fun cb st => polled (cb * (N * N)) st)
              noticed body N
              (mkCubeState (cubeHeader N M layout) 0 startRun))
    as [(st' & Hrun & Hst') | Herr].
  - lia.
  - unfold polled. simpl. split; [reflexivity |]. split; [reflexivity |].
    intros k' Hk'. lia.
  - intros cb st Hb Hst. unfold body.
    replace ((cb + 1) * (N * N)) with (N * N + cb * (N * N)) by ring.
    apply (forUpTo_outcome
             (fun cg st => polled (cg * N + cb * (N * N)) st)
             noticed); [lia | |].
    + rewrite Z.mul_0_l, Z.add_0_l. exact Hst.
    + intros cg st1 Hg Hst1.
      replace ((cg + 1) * N + cb * (N * N)) with (N + cg * N + cb * (N * N)) by ring.
      apply (forUpTo_outcome
               (fun cr st => polled (cr + cg * N + cb * (N * N)) st)
               noticed); [lia | |].
      * rewrite Z.add_0_l. exact Hst1.
      * intros cr st2 Hr Hst2.
        apply sampleCell_polls; assumption.
  - left. exists st'. split; [exact Hrun |].
    replace (N * N * N) with (N * (N * N)) by ring. exact Hst'.
  - right. exact Herr.
Qed.

Lemma generateCubeLut_polls :
  (exists lut,
     generateCubeLut img (mkGeometry N M layout) cancelRef = Ok lut /\
     forall k, 0 <= k < N * N * N -> cancelled cancelRef (cellPoll k) = false) \/
  (generateCubeLut img (mkGeometry N M layout) cancelRef = Err Cancelled /\
   exists k, 0 <= k < N * N * N /\ cancelled cancelRef (cellPoll k) = true).
Proof.
  unfold generateCubeLut. fold (cubeHeader N M layout).
  destruct cubeLoops_polls as [(st' & Hrun & _ & _ & Hall) | (e & Hrun & -> & Hex)];
    rewrite Hrun.
  - left. eexists. split; [reflexivity | exact Hall].
  - right. split; [reflexivity | exact Hex].
Qed.

End CubePolls.

(** X19. For any image and N >= 1, LUT creation reads the cancellation
    flag exactly once per cell: before its k-th cell (in file order) it
    has been suspended floor(k / 5000) times.  It is cancelled if and
    only if the flag is set at one of these reads, and otherwise returns
    the file.  In particular a LUT of at most 5000 cells (N <= 17) can
    only be cancelled by a flag that is already set on entry. *)
Theorem generateCubeLut_cancel_polls (img : ImageData) (N M : Z)
    (layout : Layout) (cancelRef : CancelRef) :
  1 <= N ->
  let result := generateCubeLut img (mkGeometry N M layout) cancelRef in
  (result = Err Cancelled <->
   exists k, 0 <= k < N * N * N /\ cancelled cancelRef (cellPoll k) = true) /\
  ((forall k, 0 <= k < N * N * N -> cancelled cancelRef (cellPoll k) = false) ->
   exists lut, result = Ok lut) /\
  (N * N * N <= 5000 ->
   (result = Err Cancelled <-> cancelled cancelRef 0 = true)).
Proof.
  intros HN result.
  assert (Hiff : result = Err Cancelled <->
    exists k, 0 <= k < N * N * N /\ cancelled cancelRef (cellPoll k) = true).
  { unfold result.
    destruct (generateCubeLut_polls img N M layout cancelRef HN)
      as [(lut & -> & Hall) | (-> & Hex)].
    - split; [discriminate |].
      intros (k & Hk & Hpoll). rewrite Hall in Hpoll by exact Hk. discriminate.
    - split; [intros _; exact Hex | reflexivity]. }
  split; [exact Hiff |]. split.
  - intros Hnone. unfold result.
    destruct (generateCubeLut_polls img N M layout cancelRef HN)
      as [(lut & -> & _) | (_ & k & Hk & Hpoll)].
    + exists lut. reflexivity.
    + rewrite Hnone in Hpoll by exact Hk. discriminate.
  - intros Hsmall. rewrite Hiff.
    assert (Hzero : forall k, 0 <= k < N * N * N -> cellPoll k = 0%nat).
    { intros k Hk. unfold cellPoll. rewrite Z.div_small by lia. reflexivity. }
    split.
    + intros (k & Hk & Hpoll). rewrite Hzero in Hpoll by exact Hk. exact Hpoll.
    + intros H0. exists 0. split; [nia |]. rewrite Hzero by nia. exact H0.
Qed.

Lemma generateCubeLut_cancel_polls_witness :
  generateCubeLut (mkImageData [] 0 0) (mkGeometry 2 1 wide)
    (mkCancelRef (fun k => Nat.eqb k 0)) = Err Cancelled <->
  exists k, 0 <= k < 2 * 2 * 2 /\
            cancelled (mkCancelRef (fun k => Nat.eqb k 0)) (cellPoll k) = true.
Proof.
  apply (generateCubeLut_cancel_polls (mkImageData [] 0 0) 2 1 wide). lia.
Defined.

Lemma pixelPoll_succ (p : Z) :
  0 <= p ->
  pixelPoll (p + 1)
  = if JS.rem (p + 1) chunkPixels =? 0 then Datatypes.S (pixelPoll p) else pixelPoll p.
Proof.
  intros Hp. unfold pixelPoll, JS.rem, chunkPixels.
  rewrite Z.rem_mod_nonneg by lia.
  pose proof (Z.div_mod p 150000 ltac:(lia)) as Hdm.
  pose proof (Z.mod_pos_bound p 150000 ltac:(lia)) as Hr.
  pose proof (Z.div_mod (p + 1) 150000 ltac:(lia)) as Hdm'.
  pose proof (Z.mod_pos_bound (p + 1) 150000 ltac:(lia)) as Hr'.
  assert (Hq : 0 <= p / 150000) by (apply Z.div_pos; lia).
  destruct (Z.eqb_spec ((p + 1) mod 150000) 0) as [E | E].
  - assert (Hnext : (p + 1) / 150000 = p / 150000 + 1) by lia.
    rewrite Hnext. lia.
  - assert (Hnext : (p + 1) / 150000 = p / 150000) by lia.
    rewrite Hnext. reflexivity.
Qed.

Lemma pixelPoll_mono (p q : Z) : p <= q -> (pixelPoll p <= pixelPoll q)%nat.
Proof.
  intros Hpq. unfold pixelPoll.
  pose proof (Z.div_le_mono p q 150000 ltac:(lia) Hpq). lia.
Qed.

Section FilterPolls.

Variables (filterFn : PixelFilter) (w h : Z) (cancelRef : CancelRef).
Hypothesis Hw : 0 <= w.

(** Every read of the flag up to the [n]-th suspension found it clear. *)
Let clear (n : nat) : Prop :=
  forall k, (k <= n)%nat -> cancelled cancelRef k = false.

Let interrupted (e : Error) : Prop :=
  (e = Cancelled /\
   exists k, (k <= pixelPoll (w * h))%nat /\ cancelled cancelRef k = true) \/
  (exists r g b x y msg,
     e = FilterRuntimeError x y msg /\ filterFn r g b x y w h = Throws msg).

Lemma filterPixel_polls (y x : Z) (st : FilterState) :
  0 <= y < h -> 0 <= x < w ->
  fProcessed st = y * w + x ->
  suspensions (fRun st) = pixelPoll (y * w + x) ->
  clear (pixelPoll (y * w + x)) ->
  (exists st',
     filterPixel filterFn w h cancelRef y x st = Ok st' /\
     fProcessed st' = y * w + (x + 1) /\
     suspensions (fRun st') = pixelPoll (y * w + (x + 1)) /\
     clear (pixelPoll (y * w + (x + 1)))) \/
  (exists e, filterPixel filterFn w h cancelRef y x st = Err e /\ interrupted e).
Proof.
  intros Hy Hx Hproc Hsusp Hclear.
  assert (Hp : 0 <= y * w + x) by nia.
  assert (Hlast : y * w + x + 1 <= w * h) by nia.
  unfold filterPixel. cbv zeta.
  destruct (filterFn _ _ _ x y w h) as [packed | msg] eqn:Hcode.
  2:{ right. eexists. split; [reflexivity |]. right.
      do 6 eexists. split; [reflexivity | exact Hcode]. }
  rewrite Hproc. replace (y * w + (x + 1)) with (y * w + x + 1) by ring.
  rewrite pixelPoll_succ by exact Hp.
  destruct (JS.rem (y * w + x + 1) chunkPixels =? 0) eqn:Hchunk.
  - cbn [suspensions nextFrame onProgress]. rewrite Hsusp.
    destruct (cancelled cancelRef (Datatypes.S (pixelPoll (y * w + x)))) eqn:Hpoll.
    + right. eexists. split; [reflexivity |]. left. split; [reflexivity |].
      exists (Datatypes.S (pixelPoll (y * w + x))). split; [| exact Hpoll].
      pose proof (pixelPoll_succ (y * w + x) Hp) as Hs. rewrite Hchunk in Hs.
      rewrite <- Hs. apply pixelPoll_mono. exact Hlast.
    + left. eexists. split; [reflexivity |].
      cbn [fProcessed fRun suspensions nextFrame onProgress].
      split; [reflexivity |]. split; [rewrite Hsusp; reflexivity |].
      intros k Hk.
      destruct (Nat.eq_dec k (Datatypes.S (pixelPoll (y * w + x)))) as [-> | Hne];
        [exact Hpoll | apply Hclear; lia].
  - left. eexists. split; [reflexivity |].
    cbn [fProcessed fRun]. split; [reflexivity |]. split; [exact Hsusp | exact Hclear].
Qed.

Lemma filterLoop_polls (data : list Z) :
  0 <= h ->
  (exists st,
     forUpTo h (filterRow filterFn w h cancelRef) (mkFilterState data 0 startRun)
     = Ok st /\
     (1 <= h -> clear (pixelPoll (w * h)))) \/
  (exists e,
     forUpTo h (filterRow filterFn w h cancelRef) (mkFilterState data 0 startRun)
     = Err e /\ interrupted e).
Proof.
  intros Hh.
  destruct (forUpTo_outcome
    (fun y st => fProcessed st = y * w /\
                 suspensions (fRun st) = pixelPoll (y * w) /\
                 (1 <= y -> clear (pixelPoll (y * w))))
    interrupted (filterRow filterFn w h cancelRef) h
    (mkFilterState data 0 startRun))
    as [(st & Hrun & _ & _ & Hall) | Herr].
  - exact Hh.
  - simpl. split; [reflexivity |]. split; [reflexivity |]. intros Hy. lia.
  - intros y st Hy (Hproc & Hsusp & Hclear).
    unfold filterRow. rewrite Hsusp.
    destruct (cancelled cancelRef (pixelPoll (y * w))) eqn:Hpoll.
    { right. eexists. split; [reflexivity |]. left. split; [reflexivity |].
      exists (pixelPoll (y * w)). split; [| exact Hpoll].
      apply pixelPoll_mono. nia. }
    assert (Hrow : clear (pixelPoll (y * w))).
    { destruct (Z.eq_dec y 0) as [-> | Hne].
      - assert (E : pixelPoll (0 * w) = 0%nat) by reflexivity.
        rewrite E in *. intros k Hk.
        assert (k = 0%nat) as -> by lia.
        exact Hpoll.
      - apply Hclear. lia. }
    destruct (forUpTo_outcome
      (fun x st => fProcessed st = y * w + x /\
                   suspensions (fRun st) = pixelPoll (y * w + x) /\
                   clear (pixelPoll (y * w + x)))
      interrupted (filterPixel filterFn w h cancelRef y) w st)
      as [(st' & Hrun & Hp' & Hs' & Hc') | Herr].
    + exact Hw.
    + rewrite Z.add_0_r. split; [exact Hproc |]. split; [exact Hsusp | exact Hrow].
    + intros x st1 Hx (Hp1 & Hs1 & Hc1).
      destruct (filterPixel_polls y x st1 Hy Hx Hp1 Hs1 Hc1)
        as [(st2 & Hrun & Hp2 & Hs2 & Hc2) | Herr].
      * left. exists st2. split; [exact Hrun |].
        split; [exact Hp2 |]. split; [exact Hs2 | exact Hc2].
      * right. exact Herr.
    + left. exists st'. split; [exact Hrun |].
      replace ((y + 1) * w) with (y * w + w) by ring.
      split; [exact Hp' |]. split; [exact Hs' |]. intros _. exact Hc'.
    + right. exact Herr.
  - left. exists st. split; [exact Hrun |].
    rewrite (Z.mul_comm w h). exact Hall.
  - right. exact Herr.
Qed.

End FilterPolls.

(** X20. A filter pass over an image of w >= 0 by h >= 1 pixels reads the
    cancellation flag at the start of every row and after every
    suspension, so every value of the flag up to the floor(w*h / 150000)-th
    suspension is read.  A pass that ends as cancelled found the flag set
    at one of these reads.  With a filter that never throws the converse
    holds as well: the pass is cancelled if and only if the flag is set
    at one of them, also at the suspension after the very last pixel, and
    otherwise it returns the image. *)
Theorem applyStep2Filter_cancel_polls (img : ImageData) (w h : Z)
    (filterFn : PixelFilter) (cancelRef : CancelRef) :
  0 <= w -> 1 <= h ->
  let result := applyStep2Filter img w h filterFn cancelRef in
  let flagSeen :=
    exists k, (k <= pixelPoll (w * h))%nat /\ cancelled cancelRef k = true in
  (result = Err Cancelled -> flagSeen) /\
  ((forall r g b x y msg, filterFn r g b x y w h <> Throws msg) ->
   (result = Err Cancelled <-> flagSeen) /\
   (~ flagSeen -> exists out, result = Ok out)).
Proof.
  intros Hw Hh result flagSeen. unfold result, flagSeen, applyStep2Filter.
  destruct (filterLoop_polls filterFn w h cancelRef Hw (imgData img) ltac:(lia))
    as [(st & -> & Hclear) | (e & -> & [[-> Hseen] | Hthrown])].
  - specialize (Hclear Hh).
    assert (Hnot : ~ exists k, (k <= pixelPoll (w * h))%nat /\
                               cancelled cancelRef k = true).
    { intros (k & Hk & Hpoll). rewrite Hclear in Hpoll by exact Hk. discriminate. }
    split; [discriminate |]. intros _. split.
    + split; [discriminate | intros Hseen; contradiction].
    + intros _. eexists. reflexivity.
  - split; [intros _; exact Hseen |]. intros _. split.
    + split; [intros _; exact Hseen | reflexivity].
    + intros Hnot. contradiction.
  - destruct Hthrown as (r & g & b & x & y & msg & -> & Hcode).
    split; [discriminate |]. intros Hnever.
    exfalso. exact (Hnever r g b x y msg Hcode).
Qed.

Lemma applyStep2Filter_cancel_polls_witness :
  0 <= 1 /\ 1 <= 1 /\
  (applyStep2Filter (mkImageData [10; 20; 30; 255] 1 1) 1 1
     (compilePixelFilter passThrough) (mkCancelRef (fun k => Nat.eqb k 0))
   = Err Cancelled <->
   exists k, (k <= pixelPoll (1 * 1))%nat /\
             cancelled (mkCancelRef (fun k => Nat.eqb k 0)) k = true).
Proof.
  assert (Hw : 0 <= 1) by lia.
  assert (Hh : 1 <= 1) by lia.
  split; [exact Hw |]. split; [exact Hh |].
  exact (proj1 (proj2 (applyStep2Filter_cancel_polls
                         (mkImageData [10; 20; 30; 255] 1 1) 1 1
                         (compilePixelFilter passThrough)
                         (mkCancelRef (fun k => Nat.eqb k 0)) Hw Hh)
                 (fun r g b x y msg => passThrough_never_throws r g b x y 1 1 msg))).
Defined.
